(** * sfputil: port-to-lane resolution and EEPROM rendering

    A shallow embedding of [sfputil/main.py]: the three renderers
    ([raw_bytes_to_string_pretty], [dict_to_string_pretty],
    [dict_to_string_comma_separated]), the port resolver and the per-port
    drivers built on them, followed by the properties of that code.

    Python values are modelled as follows.
    - [str] is [string]; a string is compared byte-wise, which for UTF-8
      text is the code-point order Python uses.
    - [int] is [Z].
    - the builtin function [int] applied to a string is a parameter of the
      embedding, [int : string -> option Z], where [None] stands for
      [ValueError]: which strings are integer literals is a matter of the
      interpreter, not of this module.
    - a [dict] with string keys is an association list in insertion order
      (Python dictionaries keep insertion order and have no duplicate keys).
    - [None] versus a value is [option]. *)

From Stdlib Require Import String Ascii List ZArith Lia Bool Arith PeanoNat.
From Stdlib Require Import DecimalString Sorted Permutation.
From Stdlib Require OrderedTypeEx DecimalPos.
Import ListNotations.

Local Open Scope list_scope.
Local Open Scope string_scope.
Set Warnings "-register-all".

(* ================================================================== *)
(** * Python primitives used by the module *)
(* ================================================================== *)

Module Py.

(** The characters the code writes as escapes. *)
Definition nl_char : ascii := "010"%char.
Definition tab_char : ascii := "009"%char.
Definition nl : string := String nl_char "".
Definition tab : string := String tab_char "".

(** ['\t' * indent] *)
Fixpoint repeat_str (s : string) (n : nat) : string :=
  match n with
  | O => ""
  | S n' => s ++ repeat_str s n'
  end.

(** [str(n)] and ["%d" % n] for an integer. *)
Definition str_int (n : Z) : string := NilZero.string_of_int (Z.to_int n).

(** [s.startswith(p)] *)
Definition startswith (s p : string) : bool := String.prefix p s.

(** [x in l] for a list of strings. *)
Definition contains (l : list string) (x : string) : bool :=
  existsb (String.eqb x) l.

(** [sorted(keys)]: the ascending rearrangement under [<=] on strings.
    Any correct sort returns the same list, since equal strings are
    indistinguishable. *)
Fixpoint insert_sorted (x : string) (l : list string) : list string :=
  match l with
  | [] => [x]
  | y :: l' => if String.leb x y then x :: l else y :: insert_sorted x l'
  end.

Definition sorted (l : list string) : list string :=
  fold_right insert_sorted [] l.

(** Dynamically typed values, as far as [==] between a port name and a
    lane counter needs them: values of different types are never equal. *)
Inductive value : Type :=
| VStr (s : string)
| VInt (n : Z).

Definition eq (a b : value) : bool :=
  match a, b with
  | VStr s, VStr t => String.eqb s t
  | VInt n, VInt m => Z.eqb n m
  | _, _ => false
  end.

End Py.

(* ================================================================== *)
(** * Data model *)
(* ================================================================== *)

(** A field value of an EEPROM record: a scalar (number or string) or a
    nested mapping. *)
Inductive scalar : Type :=
| SStr (s : string)
| SInt (n : Z).

Inductive field : Type :=
| Scalar (v : scalar)
| Dict (items : list (string * field)).

Definition dict : Type := list (string * field).

(** [str(val)], which is also what ["%s" % val] prints. *)
Definition str (v : scalar) : string :=
  match v with
  | SStr s => s
  | SInt n => Py.str_int n
  end.

Definition keys (d : dict) : list string := map fst d.

(** [d[key]]; [None] stands for [KeyError]. *)
Fixpoint getitem (d : dict) (key : string) : option field :=
  match d with
  | [] => None
  | (k, v) :: d' => if String.eqb k key then Some v else getitem d' key
  end.

(** [{i: in_dict[i] for i in in_dict if i != key}] *)
Definition without (in_dict : dict) (key : string) : dict :=
  filter (fun kv => negb (String.eqb (fst kv) key)) in_dict.

(** Number of keys in a mapping, nested ones included: the recursion of
    both dictionary renderers consumes one key per call. *)
Fixpoint field_size (f : field) : nat :=
  match f with
  | Scalar _ => 0
  | Dict items =>
      (fix items_size (l : list (string * field)) : nat :=
         match l with
         | [] => 0
         | (_, f') :: l' => S (field_size f' + items_size l')
         end) items
  end.

Definition dict_size (d : dict) : nat := field_size (Dict d).

(* ================================================================== *)
(** * Methods for printing *)
(* ================================================================== *)

(** [raw_bytes_to_string_pretty]: the loop over [range(0, len(raw_bytes))]
    with the accumulator [hexstr]. *)
Definition raw_bytes_step (raw_bytes : list string) (hexstr : string) (i : nat)
  : string :=
  let hexstr :=
    if (0 <? i)%nat && (i mod 8 =? 0)%nat then hexstr ++ " " else hexstr in
  let hexstr :=
    if (0 <? i)%nat && (i mod 16 =? 0)%nat then hexstr ++ Py.nl else hexstr in
  let hexstr := hexstr ++ nth i raw_bytes "" in
  hexstr ++ " ".

Definition raw_bytes_to_string_pretty (raw_bytes : list string) : string :=
  fold_left (raw_bytes_step raw_bytes) (seq 0 (length raw_bytes)) "".

(** [dict_to_string_pretty].  The recursion removes the least key and goes
    on with the rest, so it is not structural; [fuel] bounds the number of
    calls and [dict_to_string_pretty] supplies enough of it (see
    [dict_to_string_pretty_eq] for the equation of the source). *)
Fixpoint dict_to_string_pretty_rec (fuel : nat) (in_dict : dict) (indent : nat)
  : string :=
  match fuel with
  | O => ""
  | S fuel' =>
      match in_dict with
      | [] => ""
      | _ :: _ =>
          let key := hd "" (Py.sorted (keys in_dict)) in
          match getitem in_dict key with
          | None => ""
          | Some val =>
              let output :=
                match val with
                | Dict val_items =>
                    Py.repeat_str Py.tab indent ++ key ++ ":" ++ Py.nl
                    ++ dict_to_string_pretty_rec fuel' val_items (indent + 1)
                | Scalar v =>
                    Py.repeat_str Py.tab indent ++ key ++ ": " ++ str v ++ Py.nl
                end in
              output
              ++ dict_to_string_pretty_rec fuel' (without in_dict key) indent
          end
      end
  end.

Definition dict_to_string_pretty (in_dict : dict) (indent : nat) : string :=
  dict_to_string_pretty_rec (S (dict_size in_dict)) in_dict indent.

(** [dict_to_string_comma_separated], in the same way. *)
Fixpoint dict_to_string_comma_separated_rec (fuel : nat) (in_dict : dict)
  (key_blacklist : list string) (elemprefix : string) (first : bool) : string :=
  match fuel with
  | O => ""
  | S fuel' =>
      match in_dict with
      | [] => ""
      | _ :: _ =>
          let output := "" in
          let key := hd "" (Py.sorted (keys in_dict)) in
          match getitem in_dict key with
          | None => ""
          | Some val =>
              if Py.contains key_blacklist key then ""
              else
                let output := if negb first then output ++ "," else output in
                let first := false in
                let output :=
                  match val with
                  | Dict val_items =>
                      output
                      ++ dict_to_string_comma_separated_rec
                           fuel' val_items key_blacklist (key ++ ".") true
                  | Scalar v =>
                      let elemname := elemprefix ++ key in
                      output ++ elemname ++ ":" ++ str v
                  end in
                output
                ++ dict_to_string_comma_separated_rec
                     fuel' (without in_dict key) key_blacklist elemprefix first
          end
      end
  end.

Definition dict_to_string_comma_separated (in_dict : dict)
  (key_blacklist : list string) (elemprefix : string) (first : bool) : string :=
  dict_to_string_comma_separated_rec
    (S (dict_size in_dict)) in_dict key_blacklist elemprefix first.

(* ================================================================== *)
(** * Getting and printing SFP data *)
(* ================================================================== *)

(** The parsed EEPROM of one lane, as [get_eeprom_dict] returns it:
    [eeprom_dict.get('interface').get('data')] is always there;
    [eeprom_dict.get('dom')] may be [None], and so may its ['data']. *)
Record eeprom_record : Type := {
  interface_data : dict;
  dom : option (option dict)
}.

(** The platform plugin ([platform_sfputil]), as far as the drivers below
    call it.  Its methods are taken to return; the table [logical] lists the
    logical port names. *)
Record SfpUtil : Type := {
  logical : list string;
  is_logical_port : string -> bool;
  get_logical_to_physical : string -> list Z;
  get_presence : Z -> bool;
  get_eeprom_dict : Z -> option eeprom_record;
  get_eeprom_raw : Z -> option (list string)
}.

(** What a call does besides returning: the lines it passes to
    [click.echo], and whether it returns or raises. *)
Inductive exn : Type :=
| ValueError.

Inductive outcome (A : Type) : Type :=
| Returns (a : A)
| Raises (e : exn).
Arguments Returns {A} a.
Arguments Raises {A} e.

Definition M (A : Type) : Type := (list string * outcome A)%type.

Definition ret {A} (a : A) : M A := ([], Returns a).
Definition raise {A} (e : exn) : M A := ([], Raises e).
Definition echo (line : string) : M unit := ([line], Returns tt).
Definition bind {A B} (m : M A) (k : A -> M B) : M B :=
  match m with
  | (out, Returns a) => let '(out', r) := k a in ((out ++ out')%list, r)
  | (out, Raises e) => (out, Raises e)
  end.

Notation "x <- m ;; k" := (bind m (fun x => k))
  (at level 61, m at next level, right associativity).
Notation "m ;;; k" := (bind m (fun _ => k))
  (at level 61, right associativity).

(** A [for] loop whose body may [return]: the body either hands on the
    loop state or leaves the enclosing function with a value. *)
Inductive flow (S R : Type) : Type :=
| Next (s : S)
| Return (r : R).
Arguments Next {S R} s.
Arguments Return {S R} r.

Fixpoint for_each {X S R : Type} (body : S -> X -> flow S R) (l : list X) (s : S)
  : flow S R :=
  match l with
  | [] => Next s
  | x :: l' =>
      match body s x with
      | Next s' => for_each body l' s'
      | Return r => Return r
      end
  end.

Definition get_sfp_eeprom_status_string (port : string)
  (port_sfp_eeprom_status : bool) : string :=
  if port_sfp_eeprom_status
  then port ++ ": SFP EEPROM detected"
  else port ++ ": SFP EEPROM not detected".

(** [get_physical_port_name].  Every caller passes the logical port name (a
    string) and the lane counter [i] (an integer). *)
Definition get_physical_port_name (logical_port : string) (physical_port : Z)
  (ganged : bool) : string :=
  if Py.eq (Py.VStr logical_port) (Py.VInt physical_port) then logical_port
  else if ganged then logical_port ++ ":" ++ Py.str_int physical_port ++ " (ganged)"
  else logical_port.

Section Platform.

(** Python's [int] on a string, as the interpreter that runs the module
    provides it; [None] stands for [ValueError].  Which strings it reads as
    integer literals (blanks around the digits, underscores, digits outside
    ASCII, a limit on the number of digits) differs between versions of
    Python and is left open. *)
Variable int : string -> option Z.

Variable platform_sfputil : SfpUtil.

Definition logical_port_name_to_physical_port_list (port_name : string)
  : M (option (list Z)) :=
  if Py.startswith port_name "Ethernet" then
    if is_logical_port platform_sfputil port_name then
      ret (Some (get_logical_to_physical platform_sfputil port_name))
    else
      echo ("Error: Invalid port '" ++ port_name ++ "'") ;;;
      ret None
  else
    match int port_name with
    | Some n => ret (Some [n])
    | None => raise ValueError
    end.

(** Body of the lane loop of [port_eeprom_data_string_pretty]; the loop
    state is [(result, i)].  Its last statement is [return result]. *)
Definition pretty_lane (logical_port_name : string) (dump_dom ganged : bool)
  (st : string * Z) (physical_port : Z) : flow (string * Z) string :=
  let '(result, i) := st in
  let port_name := get_physical_port_name logical_port_name i ganged in
  let eeprom_dict :=
    if negb (get_presence platform_sfputil physical_port) then None
    else get_eeprom_dict platform_sfputil physical_port in
  let result :=
    match eeprom_dict with
    | Some e =>
        let iface_data_dict := interface_data e in
        let result := result ++ get_sfp_eeprom_status_string port_name true in
        let result := result ++ Py.nl in
        let result := result ++ dict_to_string_pretty iface_data_dict 1 in
        if dump_dom then
          match dom e with
          | Some (Some dom_data_dict) =>
              result ++ dict_to_string_pretty dom_data_dict 1
          | _ => result
          end
        else result
    | None =>
        let result := result ++ get_sfp_eeprom_status_string port_name false in
        result ++ Py.nl
    end in
  let result := result ++ Py.nl in
  let i := (i + 1)%Z in
  Return result.

(** [port_eeprom_data_string_pretty]; [None] is Python's [None], which a
    function returns when control reaches its end. *)
Definition port_eeprom_data_string_pretty (logical_port_name : string)
  (dump_dom : bool) : M (option string) :=
  let result := "" in
  let ganged := false in
  let i := 1%Z in
  physical_port_list <- logical_port_name_to_physical_port_list logical_port_name ;;
  match physical_port_list with
  | None =>
      echo ("Error: No physical ports found for logical port '"
            ++ logical_port_name ++ "'") ;;;
      ret (Some "")
  | Some physical_port_list =>
      let ganged := if (1 <? length physical_port_list)%nat then true else ganged in
      match for_each (pretty_lane logical_port_name dump_dom ganged)
              physical_port_list (result, i) with
      | Return r => ret (Some r)
      | Next _ => ret None
      end
  end.

(** Body of the lane loop of [port_eeprom_data_string_pretty_oneline]. *)
Definition oneline_lane (logical_port_name : string)
  (ifdata_blacklist domdata_blacklist : list string) (dump_dom ganged : bool)
  (st : string * Z) (physical_port : Z) : flow (string * Z) string :=
  let '(result, i) := st in
  let eeprom_dict :=
    if negb (get_presence platform_sfputil physical_port) then None
    else get_eeprom_dict platform_sfputil physical_port in
  let result :=
    match eeprom_dict with
    | Some e =>
        let iface_data_dict := interface_data e in
        let result :=
          result ++ ("port:" ++ get_physical_port_name logical_port_name i ganged
                     ++ ",") in
        let result :=
          result
          ++ dict_to_string_comma_separated iface_data_dict ifdata_blacklist "" true in
        if dump_dom then
          match dom e with
          | Some (Some dom_data_dict) =>
              result
              ++ dict_to_string_comma_separated
                   dom_data_dict domdata_blacklist "" true
          | _ => result
          end
        else result
    | None => result
    end in
  let result := result ++ Py.nl in
  let i := (i + 1)%Z in
  Next (result, i).

Definition port_eeprom_data_string_pretty_oneline (logical_port_name : string)
  (ifdata_blacklist domdata_blacklist : list string) (dump_dom : bool)
  : M (option string) :=
  let result := "" in
  let ganged := false in
  let i := 1%Z in
  physical_port_list <- logical_port_name_to_physical_port_list logical_port_name ;;
  match physical_port_list with
  | None =>
      echo ("Error: No physical ports found for logical port '"
            ++ logical_port_name ++ "'") ;;;
      ret (Some "")
  | Some physical_port_list =>
      let ganged := if (1 <? length physical_port_list)%nat then true else ganged in
      match for_each (oneline_lane logical_port_name ifdata_blacklist
                        domdata_blacklist dump_dom ganged)
              physical_port_list (result, i) with
      | Return r => ret (Some r)
      | Next (result, _) => ret (Some result)
      end
  end.

(** Body of the lane loop of [port_eeprom_data_raw_string_pretty]. *)
Definition raw_lane (logical_port_name : string) (ganged : bool)
  (st : string * Z) (physical_port : Z) : flow (string * Z) string :=
  let '(result, i) := st in
  let port_name := get_physical_port_name logical_port_name i ganged in
  let eeprom_raw :=
    if negb (get_presence platform_sfputil physical_port) then None
    else get_eeprom_raw platform_sfputil physical_port in
  let result :=
    match eeprom_raw with
    | None =>
        let result := result ++ get_sfp_eeprom_status_string port_name false in
        result ++ Py.nl
    | Some eeprom_raw =>
        let result := result ++ get_sfp_eeprom_status_string port_name true in
        let result := result ++ Py.nl in
        result ++ raw_bytes_to_string_pretty eeprom_raw
    end in
  let result := result ++ Py.nl in
  let i := (i + 1)%Z in
  Next (result, i).

Definition port_eeprom_data_raw_string_pretty (logical_port_name : string)
  : M (option string) :=
  let result := "" in
  let ganged := false in
  let i := 1%Z in
  physical_port_list <- logical_port_name_to_physical_port_list logical_port_name ;;
  match physical_port_list with
  | None =>
      echo ("Error: No physical ports found for logical port '"
            ++ logical_port_name ++ "'") ;;;
      ret (Some "")
  | Some physical_port_list =>
      let ganged := if (1 <? length physical_port_list)%nat then true else ganged in
      match for_each (raw_lane logical_port_name ganged)
              physical_port_list (result, i) with
      | Return r => ret (Some r)
      | Next (result, _) => ret (Some result)
      end
  end.

(** The lane loop of the [presence] command for one logical port: the rows
    [[port_name, "Present" | "Not present"]] it appends to
    [output_table].  The loop state is [(output_table, i)]. *)
Definition presence_lane (logical_port_name : string) (ganged : bool)
  (st : list (string * string) * Z) (physical_port : Z)
  : flow (list (string * string) * Z) unit :=
  let '(output_table, i) := st in
  let port_name := get_physical_port_name logical_port_name i ganged in
  let presence := get_presence platform_sfputil physical_port in
  let output_table :=
    if presence then (output_table ++ [(port_name, "Present")])%list
    else (output_table ++ [(port_name, "Not present")])%list in
  let i := (i + 1)%Z in
  Next (output_table, i).

Definition presence_rows (logical_port_name : string)
  (physical_port_list : list Z) : list (string * string) :=
  let ganged := false in
  let i := 1%Z in
  let ganged := if (1 <? length physical_port_list)%nat then true else ganged in
  match for_each (presence_lane logical_port_name ganged)
          physical_port_list ([], i) with
  | Next (output_table, _) => output_table
  | Return _ => []
  end.

End Platform.

(* ================================================================== *)
(** * The renderers over a store of objects *)
(* ================================================================== *)

(** Python passes dictionaries and lists by reference.  To say that a
    renderer leaves its argument alone, the three renderers are given a second
    time over an explicit store: an argument is a reference, a dictionary
    holds references to its values, and the dictionary comprehension
    allocates a new dictionary that shares the values of the old one. *)
Module Heap.

Definition ref : Type := nat.

Inductive obj : Type :=
| OScalar (v : scalar)
| ODict (items : list (string * ref))
| OList (items : list string).

Definition heap : Type := list obj.

(** A computation on the store; [None] is a failed run (a dangling
    reference, an object of the wrong type, or no fuel left). *)
Definition H (A : Type) : Type := heap -> option (A * heap).

Definition hret {A} (a : A) : H A := fun h => Some (a, h).
Definition hfail {A} : H A := fun _ => None.
Definition hbind {A B} (m : H A) (k : A -> H B) : H B :=
  fun h => match m h with
           | Some (a, h') => k a h'
           | None => None
           end.

Definition load (r : ref) : H obj :=
  fun h => match nth_error h r with
           | Some o => Some (o, h)
           | None => None
           end.

(** A new object goes to the end of the store. *)
Definition new (o : obj) : H ref :=
  fun h => Some (length h, (h ++ [o])%list).

(** [del d[key]]: the one mutating operation on dictionaries; the
    renderers never use it. *)
Fixpoint update (h : heap) (r : ref) (o : obj) : heap :=
  match h, r with
  | [], _ => []
  | _ :: h', O => o :: h'
  | o' :: h', S r' => o' :: update h' r' o
  end.

Definition delitem (d : ref) (key : string) : H unit :=
  fun h => match nth_error h d with
           | Some (ODict items) =>
               Some (tt, update h d
                           (ODict (filter (fun kv => negb (String.eqb (fst kv) key))
                                     items)))
           | _ => None
           end.

Definition load_dict (r : ref) : H (list (string * ref)) :=
  hbind (load r) (fun o => match o with
                           | ODict items => hret items
                           | _ => hfail
                           end).

Definition load_list (r : ref) : H (list string) :=
  hbind (load r) (fun o => match o with
                           | OList items => hret items
                           | _ => hfail
                           end).

Fixpoint lookup (items : list (string * ref)) (key : string) : option ref :=
  match items with
  | [] => None
  | (k, r) :: items' => if String.eqb k key then Some r else lookup items' key
  end.

Definition lift {A} (o : option A) : H A :=
  match o with
  | Some a => hret a
  | None => hfail
  end.

(** [{i: in_dict[i] for i in in_dict if i != key}] as a new object. *)
Definition comprehension_without (in_dict : ref) (key : string) : H ref :=
  hbind (load_dict in_dict) (fun items =>
    new (ODict (filter (fun kv => negb (String.eqb (fst kv) key)) items))).

Definition raw_bytes_to_string_pretty (raw_bytes : ref) : H string :=
  hbind (load_list raw_bytes) (fun items =>
    hret (fold_left (raw_bytes_step items) (seq 0 (length items)) "")).

Fixpoint dict_to_string_pretty (fuel : nat) (in_dict : ref) (indent : nat)
  : H string :=
  match fuel with
  | O => hfail
  | S fuel' =>
      hbind (load_dict in_dict) (fun items =>
      match items with
      | [] => hret ""
      | _ :: _ =>
          let key := hd "" (Py.sorted (map fst items)) in
          hbind (lift (lookup items key)) (fun val =>
          hbind (load val) (fun o =>
          hbind
            match o with
            | ODict _ =>
                hbind (dict_to_string_pretty fuel' val (indent + 1)) (fun s =>
                hret (Py.repeat_str Py.tab indent ++ key ++ ":" ++ Py.nl ++ s))
            | OScalar v =>
                hret (Py.repeat_str Py.tab indent ++ key ++ ": " ++ str v ++ Py.nl)
            | OList _ => hfail
            end (fun output =>
          hbind (comprehension_without in_dict key) (fun rest =>
          hbind (dict_to_string_pretty fuel' rest indent) (fun s =>
          hret (output ++ s))))))
      end)
  end.

Fixpoint dict_to_string_comma_separated (fuel : nat) (in_dict : ref)
  (key_blacklist : list string) (elemprefix : string) (first : bool)
  : H string :=
  match fuel with
  | O => hfail
  | S fuel' =>
      hbind (load_dict in_dict) (fun items =>
      match items with
      | [] => hret ""
      | _ :: _ =>
          let output := "" in
          let key := hd "" (Py.sorted (map fst items)) in
          hbind (lift (lookup items key)) (fun val =>
          if Py.contains key_blacklist key then hret ""
          else
            let output := if negb first then output ++ "," else output in
            let first := false in
            hbind (load val) (fun o =>
            hbind
              match o with
              | ODict _ =>
                  hbind (dict_to_string_comma_separated
                           fuel' val key_blacklist (key ++ ".") true) (fun s =>
                  hret (output ++ s))
              | OScalar v =>
                  let elemname := elemprefix ++ key in
                  hret (output ++ elemname ++ ":" ++ str v)
              | OList _ => hfail
              end (fun output =>
            hbind (comprehension_without in_dict key) (fun rest =>
            hbind (dict_to_string_comma_separated
                     fuel' rest key_blacklist elemprefix first) (fun s =>
            hret (output ++ s))))))
      end)
  end.

(** [repr h f r]: in the store [h], the reference [r] leads to the
    nested value [f]. *)
Fixpoint repr (h : heap) (f : field) (r : ref) {struct f} : Prop :=
  match f with
  | Scalar v => nth_error h r = Some (OScalar v)
  | Dict d =>
      exists items,
        nth_error h r = Some (ODict items) /\
        (fix repr_items (d : list (string * field)) (items : list (string * ref))
           {struct d} : Prop :=
           match d, items with
           | [], [] => True
           | (k, f') :: d', (k', r') :: items' =>
               k = k' /\ repr h f' r' /\ repr_items d' items'
           | _, _ => False
           end) d items
  end.

Fixpoint repr_items (h : heap) (d : dict) (items : list (string * ref)) : Prop :=
  match d, items with
  | [], [] => True
  | (k, f') :: d', (k', r') :: items' =>
      k = k' /\ repr h f' r' /\ repr_items h d' items'
  | _, _ => False
  end.

(** [unchanged h h']: every object of the store [h] is still there in
    [h'], under the same reference and with the same content. *)
Definition unchanged (h h' : heap) : Prop :=
  forall r o, nth_error h r = Some o -> nth_error h' r = Some o.

(** [extends h h']: [h'] is [h] followed by new objects. *)
Definition extends (h h' : heap) : Prop :=
  exists fresh, h' = (h ++ fresh)%list.

(** A computation that only adds objects to the store. *)
Definition framed {A} (m : H A) : Prop :=
  forall h a h', m h = Some (a, h') -> extends h h'.

(** [computes m h a]: run in [h], [m] returns [a] and only adds objects. *)
Definition computes {A} (m : H A) (h : heap) (a : A) : Prop :=
  exists fresh, m h = Some (a, (h ++ fresh)%list).

Definition ex_heap : heap :=
  [ OScalar (SStr "ACME"); OScalar (SInt 70); OScalar (SInt (-5));
    ODict [("High", 1); ("Low", 2)];
    ODict [("VendorName", 0); ("Temp", 3)];
    OList ["01"; "02"] ]%nat.

End Heap.

(* ================================================================== *)
(** * CLI commands and groups *)
(* ================================================================== *)

(** What a command does, in order: the texts it passes to [click.echo]
    (with the flag [nl]), the table it prints through [tabulate], and its
    calls of those plugin methods that it guards with
    [try ... except NotImplementedError]. *)
Inductive event : Type :=
| Echo (text : string) (nl : bool)
| EchoTable (output_table : list (string * string))
    (table_header : string * string)
| CallGetPresence (physical_port : Z)
| CallGetLowPowerMode (physical_port : Z)
| CallSetLowPowerMode (physical_port : Z) (enable : bool)
| CallReset (physical_port : Z).

(** An exception that no handler of the module catches. *)
Inductive uncaught : Type :=
| UncaughtValueError
| UncaughtTypeError.

(** How a command ends: it returns, leaves through [sys.exit(code)], or
    dies of an uncaught exception. *)
Inductive ending (A : Type) : Type :=
| Done (a : A)
| Exit (code : Z)
| Error (e : uncaught).
Arguments Done {A} a.
Arguments Exit {A} code.
Arguments Error {A} e.

Definition Cmd (A : Type) : Type := (list event * ending A)%type.

Definition cret {A} (a : A) : Cmd A := ([], Done a).
Definition emit (e : event) : Cmd unit := ([e], Done tt).
Definition sys_exit {A} (code : Z) : Cmd A := ([], Exit code).
Definition die {A} (e : uncaught) : Cmd A := ([], Error e).
Definition cbind {A B} (m : Cmd A) (k : A -> Cmd B) : Cmd B :=
  match m with
  | (evs, Done a) => let '(evs', r) := k a in ((evs ++ evs')%list, r)
  | (evs, Exit code) => (evs, Exit code)
  | (evs, Error e) => (evs, Error e)
  end.

Notation "x <~ m ;; k" := (cbind m (fun x => k))
  (at level 61, m at next level, right associativity).
Notation "m ;;> k" := (cbind m (fun _ => k))
  (at level 61, right associativity).

(** A call of one of the functions above from a command. *)
Definition call {A} (m : M A) : Cmd A :=
  (map (fun line => Echo line true) (fst m),
   match snd m with
   | Returns a => Done a
   | Raises ValueError => Error UncaughtValueError
   end).

(** A [for] loop in a command; the body may leave the command through
    [return] ([Return]). *)
Fixpoint cfor {X S R : Type} (body : S -> X -> Cmd (flow S R)) (l : list X)
  (s : S) : Cmd (flow S R) :=
  match l with
  | [] => cret (Next s)
  | x :: l' =>
      r <~ body s x ;;
      match r with
      | Next s' => cfor body l' s'
      | Return v => cret (Return v)
      end
  end.

(** [output += value], where [value] may be [None]. *)
Definition iadd (output : string) (value : option string) : Cmd string :=
  match value with
  | Some s => cret (output ++ s)
  | None => die UncaughtTypeError
  end.

(** The plugin methods the commands call besides those of [SfpUtil];
    [None] is a call that raises [NotImplementedError]. *)
Record SfpUtilCalls : Type := {
  is_valid_sfputil_port : string -> Z;
  plugin_get_presence : Z -> option bool;
  plugin_get_low_power_mode : Z -> option bool;
  plugin_set_low_power_mode : Z -> bool -> option bool;
  plugin_reset : Z -> option bool
}.

Definition not_implemented : string :=
  "This functionality is currently not implemented for this platform".

Section Commands.

Variable int : string -> option Z.
Variable platform_sfputil : SfpUtil.
Variable platform_calls : SfpUtilCalls.

(** [str(platform_sfputil.logical)], the text Python gives for the list of
    port names. *)
Variable str_of_list : list string -> string.

Definition print_all_valid_port_values : Cmd unit :=
  emit (Echo ("Valid values for port: "
              ++ str_of_list (logical platform_sfputil) ++ Py.nl) true).

(** The check every command makes on a port given on the command line. *)
Definition check_port (port : string) : Cmd unit :=
  if (is_valid_sfputil_port platform_calls port =? 0)%Z then
    emit (Echo ("Error: invalid port '" ++ port ++ "'" ++ Py.nl) true) ;;>
    print_all_valid_port_values ;;>
    sys_exit 4
  else cret tt.

(** The list of the logical ports a [show] command works on. *)
Definition ports_of_interest (port : option string) : Cmd (list string) :=
  match port with
  | None => cret (logical platform_sfputil)
  | Some port => check_port port ;;> cret [port]
  end.

(** The [eeprom] subcommand. *)
Definition eeprom (port : option string) (dump_dom oneline raw : bool)
  : Cmd unit :=
  let output := "" in
  logical_port_list <~ ports_of_interest port ;;
  r <~ (if raw then
          cfor (R := unit)
            (fun output logical_port_name =>
               v <~ call (port_eeprom_data_raw_string_pretty int platform_sfputil
                            logical_port_name) ;;
               output <~ iadd output v ;;
               let output := output ++ Py.nl in
               cret (Next output))
            logical_port_list output
        else if oneline then
          let ifdata_out_blacklist :=
            ["EncodingCodes"; "ExtIdentOfTypeOfTransceiver";
             "NominalSignallingRate(UnitsOf100Mbd)"] in
          let domdata_out_blacklist := ["AwThresholds"; "StatusControl"] in
          cfor
            (fun output logical_port_name =>
               v <~ call (port_eeprom_data_string_pretty_oneline int
                            platform_sfputil logical_port_name
                            ifdata_out_blacklist domdata_out_blacklist
                            dump_dom) ;;
               output <~ iadd output v ;;
               cret (Next output))
            logical_port_list output
        else
          cfor
            (fun output logical_port_name =>
               v <~ call (port_eeprom_data_string_pretty int platform_sfputil
                            logical_port_name dump_dom) ;;
               output <~ iadd output v ;;
               cret (Next output))
            logical_port_list output) ;;
  match r with
  | Next output => emit (Echo output true)
  | Return _ => cret tt
  end.

(** The lanes of one logical port in the [presence] subcommand. *)
Definition presence_port_lane (logical_port_name : string) (ganged : bool)
  (st : list (string * string) * Z) (physical_port : Z)
  : Cmd (flow (list (string * string) * Z) unit) :=
  let '(output_table, i) := st in
  let port_name := get_physical_port_name logical_port_name i ganged in
  emit (CallGetPresence physical_port) ;;>
  match plugin_get_presence platform_calls physical_port with
  | None => emit (Echo not_implemented true) ;;> sys_exit 5
  | Some presence =>
      let output_table :=
        if presence then (output_table ++ [(port_name, "Present")])%list
        else (output_table ++ [(port_name, "Not present")])%list in
      let i := (i + 1)%Z in
      cret (Next (output_table, i))
  end.

(** The [presence] subcommand. *)
Definition presence (port : option string) : Cmd unit :=
  let output_table := [] in
  let table_header := ("Port", "Presence") in
  logical_port_list <~ ports_of_interest port ;;
  r <~ cfor
         (fun output_table logical_port_name =>
            let ganged := false in
            let i := 1%Z in
            physical_port_list <~
              call (logical_port_name_to_physical_port_list int platform_sfputil
                      logical_port_name) ;;
            match physical_port_list with
            | None =>
                emit (Echo ("Error: No physical ports found for logical port '"
                            ++ logical_port_name ++ "'") true) ;;>
                cret (Return tt)
            | Some physical_port_list =>
                let ganged :=
                  if (1 <? length physical_port_list)%nat then true
                  else ganged in
                r <~ cfor (presence_port_lane logical_port_name ganged)
                       physical_port_list (output_table, i) ;;
                match r with
                | Next (output_table, _) => cret (Next output_table)
                | Return v => cret (Return v)
                end
            end)
         logical_port_list output_table ;;
  match r with
  | Next output_table => emit (EchoTable output_table table_header)
  | Return _ => cret tt
  end.

(** The lanes of one logical port in the [show lpmode] subcommand. *)
Definition lpmode_port_lane (logical_port_name : string) (ganged : bool)
  (st : list (string * string) * Z) (physical_port : Z)
  : Cmd (flow (list (string * string) * Z) unit) :=
  let '(output_table, i) := st in
  let port_name := get_physical_port_name logical_port_name i ganged in
  emit (CallGetLowPowerMode physical_port) ;;>
  match plugin_get_low_power_mode platform_calls physical_port with
  | None => emit (Echo not_implemented true) ;;> sys_exit 5
  | Some lpmode =>
      let output_table :=
        if lpmode then (output_table ++ [(port_name, "On")])%list
        else (output_table ++ [(port_name, "Off")])%list in
      let i := (i + 1)%Z in
      cret (Next (output_table, i))
  end.

(** The [lpmode] subcommand of [show]. *)
Definition show_lpmode (port : option string) : Cmd unit :=
  let output_table := [] in
  let table_header := ("Port", "Low-power Mode") in
  logical_port_list <~ ports_of_interest port ;;
  r <~ cfor
         (fun output_table logical_port_name =>
            let ganged := false in
            let i := 1%Z in
            physical_port_list <~
              call (logical_port_name_to_physical_port_list int platform_sfputil
                      logical_port_name) ;;
            match physical_port_list with
            | None =>
                emit (Echo ("Error: No physical ports found for logical port '"
                            ++ logical_port_name ++ "'") true) ;;>
                cret (Return tt)
            | Some physical_port_list =>
                let ganged :=
                  if (1 <? length physical_port_list)%nat then true
                  else ganged in
                r <~ cfor (lpmode_port_lane logical_port_name ganged)
                       physical_port_list (output_table, i) ;;
                match r with
                | Next (output_table, _) => cret (Next output_table)
                | Return v => cret (Return v)
                end
            end)
         logical_port_list output_table ;;
  match r with
  | Next output_table => emit (EchoTable output_table table_header)
  | Return _ => cret tt
  end.

(** Body of the lane loop of [set_lpmode]; the loop state is [i]. *)
Definition set_lpmode_lane (logical_port : string) (enable ganged : bool)
  (i : Z) (physical_port : Z) : Cmd (flow Z unit) :=
  emit (Echo ((if enable then "Enabling" else "Disabling")
              ++ " low-power mode for port "
              ++ get_physical_port_name logical_port i ganged ++ "... ")
          false) ;;>
  emit (CallSetLowPowerMode physical_port enable) ;;>
  match plugin_set_low_power_mode platform_calls physical_port enable with
  | None => emit (Echo not_implemented true) ;;> sys_exit 5
  | Some result =>
      (if result then emit (Echo "OK" true) else emit (Echo "Failed" true)) ;;>
      let i := (i + 1)%Z in
      cret (Next i)
  end.

(** Helper method for setting low-power mode. *)
Definition set_lpmode (logical_port : string) (enable : bool) : Cmd unit :=
  let ganged := false in
  let i := 1%Z in
  check_port logical_port ;;>
  physical_port_list <~
    call (logical_port_name_to_physical_port_list int platform_sfputil
            logical_port) ;;
  match physical_port_list with
  | None =>
      emit (Echo ("Error: No physical ports found for logical port '"
                  ++ logical_port ++ "'") true)
  | Some physical_port_list =>
      let ganged :=
        if (1 <? length physical_port_list)%nat then true else ganged in
      cfor (set_lpmode_lane logical_port enable ganged) physical_port_list i ;;>
      cret tt
  end.

(** The [off] and [on] subcommands of [lpmode]. *)
Definition lpmode_off (port_name : string) : Cmd unit :=
  set_lpmode port_name false.

Definition lpmode_on (port_name : string) : Cmd unit :=
  set_lpmode port_name true.

(** Body of the lane loop of [reset]; the loop state is [i]. *)
Definition reset_lane (port_name : string) (ganged : bool)
  (i : Z) (physical_port : Z) : Cmd (flow Z unit) :=
  emit (Echo ("Resetting port "
              ++ get_physical_port_name port_name i ganged ++ "... ")
          false) ;;>
  emit (CallReset physical_port) ;;>
  match plugin_reset platform_calls physical_port with
  | None => emit (Echo not_implemented true) ;;> sys_exit 5
  | Some result =>
      (if result then emit (Echo "OK" true) else emit (Echo "Failed" true)) ;;>
      let i := (i + 1)%Z in
      cret (Next i)
  end.

(** The [reset] subcommand. *)
Definition reset (port_name : string) : Cmd unit :=
  let ganged := false in
  let i := 1%Z in
  check_port port_name ;;>
  physical_port_list <~
    call (logical_port_name_to_physical_port_list int platform_sfputil
            port_name) ;;
  match physical_port_list with
  | None =>
      emit (Echo ("Error: No physical ports found for logical port '"
                  ++ port_name ++ "'") true)
  | Some physical_port_list =>
      let ganged :=
        if (1 <? length physical_port_list)%nat then true else ganged in
      cfor (reset_lane port_name ganged) physical_port_list i ;;>
      cret tt
  end.

End Commands.

(** ** Notions for the commands *)

(** The calls of plugin methods among the events. *)
Definition is_call (e : event) : bool :=
  match e with
  | Echo _ _ | EchoTable _ _ => false
  | _ => true
  end.

Definition calls (evs : list event) : list event := filter is_call evs.

(** What a command prints. *)
Definition printed (evs : list event) : list event :=
  filter (fun e => negb (is_call e)) evs.

(** The lanes a loop over [lanes] gets to when it stops at the first lane
    on which [supported] fails: that lane is the last one it tries. *)
Fixpoint attempted (supported : Z -> bool) (lanes : list Z) : list Z :=
  match lanes with
  | [] => []
  | p :: lanes' =>
      if supported p then p :: attempted supported lanes' else [p]
  end.

Definition is_table (e : event) : bool :=
  match e with
  | EchoTable _ _ => true
  | _ => false
  end.

(** Rows of a status table for the lanes of one logical port: the display
    name of each lane, numbered from [i], and its label. *)
Fixpoint status_rows (logical_port_name : string) (ganged : bool)
  (label : Z -> string) (i : Z) (lanes : list Z) : list (string * string) :=
  match lanes with
  | [] => []
  | p :: lanes' =>
      (get_physical_port_name logical_port_name i ganged, label p)
      :: status_rows logical_port_name ganged label (i + 1) lanes'
  end.

Definition is_some {A} (o : option A) : bool :=
  match o with Some _ => true | None => false end.

(* ================================================================== *)
(** * Notions used to state the properties *)
(* ================================================================== *)

(** ** Layout of the raw dump *)

(** The hex tokens of a text: its maximal runs of characters other than
    the space and the line break. *)
Definition is_blank (c : ascii) : bool :=
  Ascii.eqb c " "%char || Ascii.eqb c Py.nl_char.

Fixpoint tokens_from (cur : string) (s : string) : list string :=
  match s with
  | EmptyString => match cur with EmptyString => [] | _ => [cur] end
  | String c s' =>
      if is_blank c then
        match cur with
        | EmptyString => tokens_from "" s'
        | _ => cur :: tokens_from "" s'
        end
      else tokens_from (cur ++ String c "") s'
  end.

Definition tokens (s : string) : list string := tokens_from "" s.

Fixpoint no_blank (s : string) : bool :=
  match s with
  | EmptyString => true
  | String c s' => negb (is_blank c) && no_blank s'
  end.

(** A well-formed token: not empty, and without blanks (a two-character
    hex token is one). *)
Definition is_token (t : string) : bool :=
  match t with
  | EmptyString => false
  | _ => no_blank t
  end.

(** Tokens each followed by a single space. *)
Fixpoint group (ts : list string) : string :=
  match ts with
  | [] => ""
  | t :: ts' => t ++ " " ++ group ts'
  end.

(** A row of at most 16 tokens: an extra space after its 8th token when
    more tokens follow in the row. *)
Definition row_layout (row : list string) : string :=
  match skipn 8 row with
  | [] => group row
  | second => group (firstn 8 row) ++ " " ++ group second
  end.

(** Rows of 16 tokens; a row that is followed by another ends with the
    extra space of its 16th token and the line break. *)
Fixpoint rows_layout (fuel : nat) (ts : list string) : string :=
  match fuel with
  | O => ""
  | S fuel' =>
      match skipn 16 ts with
      | [] => row_layout ts
      | rest => row_layout (firstn 16 ts) ++ " " ++ Py.nl ++ rows_layout fuel' rest
      end
  end.

Definition hex_layout (ts : list string) : string :=
  rows_layout (S (length ts)) ts.

(** The layout in the words of the specification: every token is followed
    by a space, every 8th token by an extra space and every 16th token by a
    line break, whether or not another token follows; [i] is the number of
    tokens already laid out. *)
Fixpoint stated_layout_from (i : nat) (ts : list string) : string :=
  match ts with
  | [] => ""
  | t :: ts' =>
      t ++ " "
      ++ (if (S i mod 8 =? 0)%nat then " " else "")
      ++ (if (S i mod 16 =? 0)%nat then Py.nl else "")
      ++ stated_layout_from (S i) ts'
  end.

Definition hex_layout_as_stated (ts : list string) : string :=
  stated_layout_from 0 ts.

(** The text the loop of [raw_bytes_to_string_pretty] adds from index [i]
    on: what it puts before the token of index [i], and the tokens that
    follow. *)
Definition separator (i : nat) : string :=
  (if (0 <? i)%nat && (i mod 8 =? 0)%nat then " " else "")
  ++ (if (0 <? i)%nat && (i mod 16 =? 0)%nat then Py.nl else "").

Fixpoint raw_from (i : nat) (ts : list string) : string :=
  match ts with
  | [] => ""
  | t :: ts' => separator i ++ t ++ " " ++ raw_from (S i) ts'
  end.

(** ** Keys visited by the dictionary renderers *)

(** A visited key with the keys visited below it. *)
Inductive visit : Type :=
| Visit (key : string) (nested : list visit).

Definition vkey (v : visit) : string :=
  match v with Visit k _ => k end.

(** The two dictionary renderers once more, returning next to their output
    the keys they render, in the order in which they take them up. *)
Fixpoint dict_to_string_pretty_traced (fuel : nat) (in_dict : dict) (indent : nat)
  : string * list visit :=
  match fuel with
  | O => ("", [])
  | S fuel' =>
      match in_dict with
      | [] => ("", [])
      | _ :: _ =>
          let key := hd "" (Py.sorted (keys in_dict)) in
          match getitem in_dict key with
          | None => ("", [])
          | Some val =>
              let '(output, nested) :=
                match val with
                | Dict val_items =>
                    let '(s, vs) :=
                      dict_to_string_pretty_traced fuel' val_items (indent + 1) in
                    (Py.repeat_str Py.tab indent ++ key ++ ":" ++ Py.nl ++ s, vs)
                | Scalar v =>
                    (Py.repeat_str Py.tab indent ++ key ++ ": " ++ str v ++ Py.nl, [])
                end in
              let '(s, vs) :=
                dict_to_string_pretty_traced fuel' (without in_dict key) indent in
              (output ++ s, Visit key nested :: vs)
          end
      end
  end.

Fixpoint dict_to_string_comma_separated_traced (fuel : nat) (in_dict : dict)
  (key_blacklist : list string) (elemprefix : string) (first : bool)
  : string * list visit :=
  match fuel with
  | O => ("", [])
  | S fuel' =>
      match in_dict with
      | [] => ("", [])
      | _ :: _ =>
          let output := "" in
          let key := hd "" (Py.sorted (keys in_dict)) in
          match getitem in_dict key with
          | None => ("", [])
          | Some val =>
              if Py.contains key_blacklist key then ("", [])
              else
                let output := if negb first then output ++ "," else output in
                let first := false in
                let '(output, nested) :=
                  match val with
                  | Dict val_items =>
                      let '(s, vs) :=
                        dict_to_string_comma_separated_traced
                          fuel' val_items key_blacklist (key ++ ".") true in
                      (output ++ s, vs)
                  | Scalar v =>
                      let elemname := elemprefix ++ key in
                      (output ++ elemname ++ ":" ++ str v, [])
                  end in
                let '(s, vs) :=
                  dict_to_string_comma_separated_traced
                    fuel' (without in_dict key) key_blacklist elemprefix first in
                (output ++ s, Visit key nested :: vs)
          end
      end
  end.

Definition pretty_visits (in_dict : dict) (indent : nat) : list visit :=
  snd (dict_to_string_pretty_traced (S (dict_size in_dict)) in_dict indent).

Definition comma_separated_visits (in_dict : dict) (key_blacklist : list string)
  (elemprefix : string) (first : bool) : list visit :=
  snd (dict_to_string_comma_separated_traced
         (S (dict_size in_dict)) in_dict key_blacklist elemprefix first).

(** Keys strictly ascending at every level. *)
Inductive ascending : list visit -> Prop :=
| ascending_nil : ascending []
| ascending_cons (k : string) (nested rest : list visit) :
    ascending nested ->
    ascending rest ->
    (forall v, In v rest -> String.ltb k (vkey v) = true) ->
    ascending (Visit k nested :: rest).

(** [visits_prefix a b]: at every level, [a] visits an initial part of what
    [b] visits. *)
Inductive visits_prefix : list visit -> list visit -> Prop :=
| visits_prefix_nil (b : list visit) : visits_prefix [] b
| visits_prefix_cons (k : string) (n n' a b : list visit) :
    visits_prefix n n' ->
    visits_prefix a b ->
    visits_prefix (Visit k n :: a) (Visit k n' :: b).

(** ** Blocks of the per-port drivers *)

Section Blocks.

Variable platform_sfputil : SfpUtil.

(** The EEPROM the drivers see for a lane: none unless the module is
    present. *)
Definition detected_eeprom (physical_port : Z) : option eeprom_record :=
  if get_presence platform_sfputil physical_port
  then get_eeprom_dict platform_sfputil physical_port
  else None.

(** Multi-line block of one lane: status line, interface data, DOM data
    when asked for and there, blank line. *)
Definition pretty_block (port_name : string) (physical_port : Z)
  (dump_dom : bool) : string :=
  match detected_eeprom physical_port with
  | Some e =>
      port_name ++ ": SFP EEPROM detected" ++ Py.nl
      ++ dict_to_string_pretty (interface_data e) 1
      ++ (if dump_dom then
            match dom e with
            | Some (Some dom_data) => dict_to_string_pretty dom_data 1
            | _ => ""
            end
          else "")
      ++ Py.nl
  | None => port_name ++ ": SFP EEPROM not detected" ++ Py.nl ++ Py.nl
  end.

(** What one lane puts on its line in one-line mode, before the line
    break: nothing when no EEPROM is detected. *)
Definition oneline_body (logical_port_name : string)
  (ifdata_blacklist domdata_blacklist : list string) (dump_dom ganged : bool)
  (i : Z) (physical_port : Z) : string :=
  match detected_eeprom physical_port with
  | Some e =>
      "port:" ++ get_physical_port_name logical_port_name i ganged ++ ","
      ++ dict_to_string_comma_separated (interface_data e) ifdata_blacklist "" true
      ++ (if dump_dom then
            match dom e with
            | Some (Some dom_data) =>
                dict_to_string_comma_separated dom_data domdata_blacklist "" true
            | _ => ""
            end
          else "")
  | None => ""
  end.

Fixpoint oneline_bodies (logical_port_name : string)
  (ifdata_blacklist domdata_blacklist : list string) (dump_dom ganged : bool)
  (i : Z) (lanes : list Z) : list string :=
  match lanes with
  | [] => []
  | p :: lanes' =>
      oneline_body logical_port_name ifdata_blacklist domdata_blacklist
        dump_dom ganged i p
      :: oneline_bodies logical_port_name ifdata_blacklist domdata_blacklist
           dump_dom ganged (i + 1) lanes'
  end.

End Blocks.

(** Lines, each closed by a line break. *)
Fixpoint unlines (bodies : list string) : string :=
  match bodies with
  | [] => ""
  | b :: bodies' => b ++ Py.nl ++ unlines bodies'
  end.

(** A text that is one line closed by a line break. *)
Definition is_single_line (s : string) : bool :=
  match rev (list_ascii_of_string s) with
  | c :: body =>
      Ascii.eqb c Py.nl_char
      && forallb (fun c' => negb (Ascii.eqb c' Py.nl_char)) body
  | [] => false
  end.

(** Every character of a string satisfies [P]. *)
Fixpoint all_chars (P : ascii -> bool) (s : string) : bool :=
  match s with
  | EmptyString => true
  | String c s' => P c && all_chars P s'
  end.

(** Lane counters [first], [first + 1], ... *)
Fixpoint lane_numbers (first : Z) (n : nat) : list Z :=
  match n with
  | O => []
  | S n' => first :: lane_numbers (first + 1) n'
  end.

(** ** The dictionary renderers as loops over the sorted keys *)

(** What multi-line mode prints for the key [k] of [in_dict]. *)
Definition pretty_entry (in_dict : dict) (indent : nat) (k : string) : string :=
  match getitem in_dict k with
  | Some (Dict val_items) =>
      Py.repeat_str Py.tab indent ++ k ++ ":" ++ Py.nl
      ++ dict_to_string_pretty val_items (indent + 1)
  | Some (Scalar v) =>
      Py.repeat_str Py.tab indent ++ k ++ ": " ++ str v ++ Py.nl
  | None => ""
  end.

(** What one-line mode prints for the key [k] of [in_dict], without the
    comma before it. *)
Definition comma_separated_piece (in_dict : dict) (key_blacklist : list string)
  (elemprefix : string) (k : string) : string :=
  match getitem in_dict k with
  | Some (Dict val_items) =>
      dict_to_string_comma_separated val_items key_blacklist (k ++ ".") true
  | Some (Scalar v) => (elemprefix ++ k) ++ ":" ++ str v
  | None => ""
  end.

(** The keys before the first excluded one. *)
Fixpoint until_excluded (key_blacklist : list string) (ks : list string)
  : list string :=
  match ks with
  | [] => []
  | k :: ks' =>
      if Py.contains key_blacklist k then []
      else k :: until_excluded key_blacklist ks'
  end.

(** All pieces one after the other. *)
Fixpoint concat_all (pieces : list string) : string :=
  match pieces with
  | [] => ""
  | x :: pieces' => x ++ concat_all pieces'
  end.

(** Number of occurrences of a character. *)
Fixpoint count_char (c : ascii) (s : string) : nat :=
  match s with
  | EmptyString => 0
  | String c' s' => (if Ascii.eqb c' c then 1 else 0) + count_char c s'
  end.

(** ** Well-formed records *)

Definition no_newline (s : string) : bool :=
  all_chars (fun c => negb (Ascii.eqb c Py.nl_char)) s.

(** A record as the plugin delivers it: at every level the keys are
    distinct, and neither a key nor the text of a scalar holds a line
    break. *)
Inductive clean_dict : dict -> Prop :=
| clean_dict_intro (d : dict) :
    NoDup (keys d) ->
    Forall (fun kv => no_newline (fst kv) = true) d ->
    Forall (fun kv => clean_field (snd kv)) d ->
    clean_dict d
with clean_field : field -> Prop :=
| clean_scalar (v : scalar) : no_newline (str v) = true -> clean_field (Scalar v)
| clean_nested (d : dict) : clean_dict d -> clean_field (Dict d).

(** A record of [get_eeprom_dict] whose mappings are well formed. *)
Definition clean_record (e : eeprom_record) : Prop :=
  clean_dict (interface_data e)
  /\ match dom e with
     | Some (Some dom_data) => clean_dict dom_data
     | _ => True
     end.

(** ** Lines of a text *)

(** The lines of a text: its parts between line breaks; what follows the
    last line break counts as a line when it is not empty. *)
Fixpoint lines_from (cur : string) (s : string) : list string :=
  match s with
  | EmptyString => match cur with EmptyString => [] | _ => [cur] end
  | String c s' =>
      if Ascii.eqb c Py.nl_char then cur :: lines_from "" s'
      else lines_from (cur ++ String c "") s'
  end.

Definition lines (s : string) : list string := lines_from "" s.

Definition nonempty (s : string) : bool := negb (String.eqb s "").

(** The lines of one-line mode for the lanes with a detected EEPROM, lanes
    being numbered from [i] whether detected or not. *)
Fixpoint detected_lines (platform_sfputil : SfpUtil)
  (logical_port_name : string)
  (ifdata_blacklist domdata_blacklist : list string) (dump_dom ganged : bool)
  (i : Z) (lanes : list Z) : list string :=
  match lanes with
  | [] => []
  | p :: lanes' =>
      let rest :=
        detected_lines platform_sfputil logical_port_name ifdata_blacklist
          domdata_blacklist dump_dom ganged (i + 1) lanes' in
      if is_some (detected_eeprom platform_sfputil p)
      then oneline_body platform_sfputil logical_port_name ifdata_blacklist
             domdata_blacklist dump_dom ganged i p :: rest
      else rest
  end.

(** ** Mappings that differ in the order of insertion only *)

(** [same_mapping d d']: the association lists [d] and [d'] stand for the
    same Python dictionary: their keys are distinct and the same, in
    whatever order, and each key has the same value in both, a nested
    dictionary being the same in this sense. *)
Inductive same_mapping : dict -> dict -> Prop :=
| same_mapping_intro (d d' : dict) :
    NoDup (keys d) -> NoDup (keys d') ->
    Permutation (keys d) (keys d') ->
    (forall k v v',
        getitem d k = Some v -> getitem d' k = Some v' -> same_value v v') ->
    same_mapping d d'
with same_value : field -> field -> Prop :=
| same_scalar (v : scalar) : same_value (Scalar v) (Scalar v)
| same_nested (d d' : dict) : same_mapping d d' -> same_value (Dict d) (Dict d').

(** ** Blocks of the raw driver *)

(** The raw bytes the raw driver sees for a lane: none unless the module
    is present. *)
Definition detected_raw (platform_sfputil : SfpUtil) (physical_port : Z)
  : option (list string) :=
  if get_presence platform_sfputil physical_port
  then get_eeprom_raw platform_sfputil physical_port
  else None.

(** Raw block of one lane: status line, the dump when there is one, line
    break. *)
Definition raw_block (platform_sfputil : SfpUtil) (port_name : string)
  (physical_port : Z) : string :=
  match detected_raw platform_sfputil physical_port with
  | Some eeprom_raw =>
      port_name ++ ": SFP EEPROM detected" ++ Py.nl
      ++ raw_bytes_to_string_pretty eeprom_raw ++ Py.nl
  | None => port_name ++ ": SFP EEPROM not detected" ++ Py.nl ++ Py.nl
  end.

Fixpoint raw_blocks (platform_sfputil : SfpUtil) (logical_port_name : string)
  (ganged : bool) (i : Z) (lanes : list Z) : list string :=
  match lanes with
  | [] => []
  | p :: lanes' =>
      raw_block platform_sfputil
        (get_physical_port_name logical_port_name i ganged) p
      :: raw_blocks platform_sfputil logical_port_name ganged (i + 1) lanes'
  end.

(** ** What the drivers return for a port of the port table *)

Definition raw_port_text (platform_sfputil : SfpUtil) (name : string)
  : string :=
  let lanes := get_logical_to_physical platform_sfputil name in
  concat_all (raw_blocks platform_sfputil name (1 <? length lanes)%nat 1 lanes).

Definition oneline_port_text (platform_sfputil : SfpUtil)
  (ifdata_blacklist domdata_blacklist : list string) (dump_dom : bool)
  (name : string) : string :=
  let lanes := get_logical_to_physical platform_sfputil name in
  unlines (oneline_bodies platform_sfputil name ifdata_blacklist
             domdata_blacklist dump_dom (1 <? length lanes)%nat 1 lanes).

(** The block of the first lane, which is all multi-line mode returns. *)
Definition pretty_port_text (platform_sfputil : SfpUtil) (dump_dom : bool)
  (name : string) : string :=
  let lanes := get_logical_to_physical platform_sfputil name in
  pretty_block platform_sfputil
    (get_physical_port_name name 1 (1 <? length lanes)%nat)
    (hd 0%Z lanes) dump_dom.

(** ** Order on strings, messages, consistent port tables *)

Definition le_str (a b : string) : Prop := String.leb a b = true.

(** What every command prints for a port that the plugin does not accept. *)
Definition invalid_port_messages (platform_sfputil : SfpUtil)
  (str_of_list : list string -> string) (port : string) : list event :=
  [Echo ("Error: invalid port '" ++ port ++ "'" ++ Py.nl) true;
   Echo ("Valid values for port: "
         ++ str_of_list (logical platform_sfputil) ++ Py.nl) true].

(** Every name of the list follows the naming convention and is known to
    the port table. *)
Definition consistent (platform_sfputil : SfpUtil) (names : list string)
  : Prop :=
  forall name, In name names ->
    Py.startswith name "Ethernet" = true
    /\ is_logical_port platform_sfputil name = true.

(** ** Examples *)

Definition ex_c2 : dict :=
  [("VendorName", Scalar (SStr "ACME"));
   ("Temp", Dict [("High", Scalar (SInt 70)); ("Low", Scalar (SInt (-5)))])].

Definition ex_platform : SfpUtil := {|
  logical := ["Ethernet0"; "Ethernet4"; "Ethernet8"];
  is_logical_port := fun n => Py.contains ["Ethernet0"; "Ethernet4"; "Ethernet8"] n;
  get_logical_to_physical := fun n =>
    if String.eqb n "Ethernet0" then [5; 6]%Z
    else if String.eqb n "Ethernet4" then [7]%Z
    else [];
  get_presence := fun p => Z.eqb p 5 || Z.eqb p 7;
  get_eeprom_dict := fun p => Some {| interface_data := ex_c2; dom := None |};
  get_eeprom_raw := fun p => Some ["01"; "02"]
|}.

(** A platform with one ganged port, both lanes of which hold a module. *)
Definition ex_platform_ganged : SfpUtil := {|
  logical := ["Ethernet0"];
  is_logical_port := fun n => String.eqb n "Ethernet0";
  get_logical_to_physical := fun n => [5; 6]%Z;
  get_presence := fun p => true;
  get_eeprom_dict := fun p => Some {| interface_data := ex_c2; dom := None |};
  get_eeprom_raw := fun p => Some ["01"; "02"]
|}.

(** The exclusion lists the [eeprom] command passes in one-line mode. *)
Definition ifdata_out_blacklist : list string :=
  ["EncodingCodes"; "ExtIdentOfTypeOfTransceiver";
   "NominalSignallingRate(UnitsOf100Mbd)"].
Definition domdata_out_blacklist : list string :=
  ["AwThresholds"; "StatusControl"].

Definition ex_c1 : dict :=
  [("Connector", Scalar (SStr "LC"));
   ("EncodingCodes", Scalar (SStr "64B66B"));
   ("VendorName", Scalar (SStr "ACME"))].

(** Every rendered key, at any level, satisfies [P]. *)
Inductive every_key (P : string -> Prop) : list visit -> Prop :=
| every_key_nil : every_key P []
| every_key_cons (k : string) (nested rest : list visit) :
    P k -> every_key P nested -> every_key P rest ->
    every_key P (Visit k nested :: rest).

(** [ex_c2] with both levels inserted in another order. *)
Definition ex_c2_reordered : dict :=
  [("Temp", Dict [("Low", Scalar (SInt (-5))); ("High", Scalar (SInt 70))]);
   ("VendorName", Scalar (SStr "ACME"))].

(** An [int] for the examples: it reads an optional sign followed by at
    most 4300 ASCII decimal digits, which every version of Python reads as
    that number, and raises [ValueError] on the other identifiers the
    examples use. *)
Fixpoint ex_digits (s : string) (acc : Z) : option Z :=
  match s with
  | EmptyString => Some acc
  | String c s' =>
      let n := nat_of_ascii c in
      if (48 <=? n)%nat && (n <=? 57)%nat
      then ex_digits s' (10 * acc + Z.of_nat (n - 48))
      else None
  end.

Definition ex_int (s : string) : option Z :=
  let digits (s' : string) : option Z :=
    match s' with
    | EmptyString => None
    | _ => if (String.length s' <=? 4300)%nat then ex_digits s' 0 else None
    end in
  match s with
  | String "-"%char s' => option_map Z.opp (digits s')
  | String "+"%char s' => digits s'
  | _ => digits s
  end.

(** A plugin that accepts the logical ports of [ex_platform], answers
    presence and low-power mode on every lane, and implements neither
    [set_low_power_mode] nor [reset] on lane 6. *)
Definition ex_calls : SfpUtilCalls := {|
  is_valid_sfputil_port := fun n =>
    if Py.startswith n "Ethernet" && is_logical_port ex_platform n
    then 1%Z else 0%Z;
  plugin_get_presence := fun p => Some (get_presence ex_platform p);
  plugin_get_low_power_mode := fun p => Some (Z.eqb p 5);
  plugin_set_low_power_mode := fun p _ =>
    if Z.eqb p 6 then None else Some true;
  plugin_reset := fun p => if Z.eqb p 6 then None else Some true
|}.

(** A plugin that implements nothing and accepts every name. *)
Definition ex_no_calls : SfpUtilCalls := {|
  is_valid_sfputil_port := fun _ => 1%Z;
  plugin_get_presence := fun _ => None;
  plugin_get_low_power_mode := fun _ => None;
  plugin_set_low_power_mode := fun _ _ => None;
  plugin_reset := fun _ => None
|}.

(** [str] of a list of names made of letters and digits, as the names of
    the examples are: each name between single quotes, a comma and a space
    between names, in brackets. *)
Definition ex_str_of_list (l : list string) : string :=
  "[" ++ String.concat ", " (map (fun name => "'" ++ name ++ "'") l) ++ "]".

(** A platform whose port table does not follow the naming convention. *)
Definition ex_platform_swp : SfpUtil := {|
  logical := ["swp1"; "swp2"];
  is_logical_port := fun n => Py.contains ["swp1"; "swp2"] n;
  get_logical_to_physical := fun n => [1%Z];
  get_presence := fun p => true;
  get_eeprom_dict := fun p => None;
  get_eeprom_raw := fun p => None
|}.

Definition ex_raw10 : list string :=
  ["01"; "02"; "03"; "04"; "05"; "06"; "07"; "08"; "09"; "0a"].

Definition ex_raw16 : list string :=
  (ex_raw10 ++ ["0b"; "0c"; "0d"; "0e"; "0f"; "10"])%list.

(* ================================================================== *)
(** * Strings *)
(* ================================================================== *)

Lemma append_assoc (a b c : string) : (a ++ b) ++ c = a ++ (b ++ c).
Proof.
  induction a as [|ch a IH]; simpl; [reflexivity|].
  now rewrite IH.
Qed.

Lemma append_nil_r (a : string) : a ++ "" = a.
Proof.
  induction a as [|ch a IH]; simpl; [reflexivity|].
  now rewrite IH.
Qed.

(* ================================================================== *)
(** * The raw dump *)
(* ================================================================== *)

Lemma raw_bytes_step_eq (raw_bytes : list string) (hexstr : string) (i : nat) :
  raw_bytes_step raw_bytes hexstr i
  = hexstr ++ separator i ++ nth i raw_bytes "" ++ " ".
Proof.
  unfold raw_bytes_step, separator.
  destruct ((0 <? i)%nat && (i mod 8 =? 0)%nat);
    destruct ((0 <? i)%nat && (i mod 16 =? 0)%nat);
    simpl; repeat rewrite append_assoc; simpl;
    repeat rewrite append_nil_r; reflexivity.
Qed.

(** The loop, started anywhere in the list, adds [raw_from]. *)
Lemma raw_fold (ts pre : list string) (acc : string) :
  fold_left (raw_bytes_step (pre ++ ts)%list) (seq (length pre) (length ts)) acc
  = acc ++ raw_from (length pre) ts.
Proof.
  revert pre acc.
  induction ts as [|t ts IH]; intros pre acc; simpl.
  - now rewrite append_nil_r.
  - rewrite raw_bytes_step_eq.
    rewrite nth_middle.
    specialize (IH (pre ++ [t])%list).
    rewrite <- app_assoc in IH. simpl in IH.
    rewrite length_app in IH. simpl in IH.
    replace (length pre + 1)%nat with (S (length pre)) in IH by lia.
    rewrite IH.
    repeat rewrite append_assoc. reflexivity.
Qed.

Lemma raw_bytes_to_string_pretty_from (raw_bytes : list string) :
  raw_bytes_to_string_pretty raw_bytes = raw_from 0 raw_bytes.
Proof.
  unfold raw_bytes_to_string_pretty.
  apply (raw_fold raw_bytes [] "").
Qed.

Lemma separator_shift (i : nat) :
  (0 < i)%nat -> separator (i + 16) = separator i.
Proof.
  intros Hi. unfold separator.
  replace ((i + 16) mod 8)%nat with (i mod 8)%nat
    by (symmetry; apply (Nat.Div0.mod_add i 2 8)).
  replace ((i + 16) mod 16)%nat with (i mod 16)%nat
    by (symmetry; apply (Nat.Div0.mod_add i 1 16)).
  replace (0 <? i + 16)%nat with true by (symmetry; apply Nat.ltb_lt; lia).
  replace (0 <? i)%nat with true by (symmetry; apply Nat.ltb_lt; lia).
  reflexivity.
Qed.

Lemma raw_from_shift (ts : list string) (i : nat) :
  (0 < i)%nat -> raw_from (i + 16) ts = raw_from i ts.
Proof.
  revert i. induction ts as [|t ts IH]; intros i Hi; simpl; [reflexivity|].
  rewrite separator_shift by assumption.
  rewrite <- (IH (S i)) by lia.
  reflexivity.
Qed.

Lemma raw_from_app (a b : list string) (i : nat) :
  raw_from i (a ++ b)%list = raw_from i a ++ raw_from (i + length a) b.
Proof.
  revert i. induction a as [|t a IH]; intros i; simpl.
  - now rewrite Nat.add_0_r.
  - rewrite IH. repeat rewrite append_assoc.
    now replace (S i + length a)%nat with (i + S (length a))%nat by lia.
Qed.

Lemma separator_0 : separator 0 = "".
Proof. reflexivity. Qed.

Lemma separator_within_group (j : nat) :
  (j < 16)%nat -> j <> 8%nat -> separator j = "".
Proof.
  intros Hlt Hne.
  do 16 (destruct j as [|j]; [first [reflexivity | congruence]|]).
  lia.
Qed.

Lemma raw_from_group (ts : list string) (i : nat) :
  (forall j, (i <= j < i + length ts)%nat -> separator j = "") ->
  raw_from i ts = group ts.
Proof.
  revert i. induction ts as [|t ts IH]; intros i H; simpl; [reflexivity|].
  rewrite (H i) by (simpl; lia). simpl.
  rewrite IH; [reflexivity|].
  intros j Hj. apply H. simpl. lia.
Qed.

(** One row. *)
Lemma raw_from_row (row : list string) :
  (length row <= 16)%nat -> raw_from 0 row = row_layout row.
Proof.
  intros Hlen. unfold row_layout.
  destruct (skipn 8 row) as [|t second] eqn:Hskip.
  - apply raw_from_group. intros j Hj.
    assert (length (skipn 8 row) = 0)%nat as Hl by now rewrite Hskip.
    rewrite length_skipn in Hl.
    apply separator_within_group; lia.
  - assert (length (skipn 8 row) = S (length second)) as Hl by now rewrite Hskip.
    rewrite length_skipn in Hl.
    rewrite <- (firstn_skipn 8 row) at 1.
    rewrite raw_from_app, Hskip.
    rewrite length_firstn, Nat.min_l by lia.
    rewrite (raw_from_group (firstn 8 row)).
    + simpl. f_equal.
      rewrite (raw_from_group second); [reflexivity|].
      intros j Hj. apply separator_within_group; lia.
    + intros j Hj. rewrite length_firstn, Nat.min_l in Hj by lia.
      apply separator_within_group; lia.
Qed.

(** All rows: the loop lays the tokens out as [hex_layout] says. *)
Lemma raw_from_rows (fuel : nat) (ts : list string) :
  (length ts < fuel)%nat -> raw_from 0 ts = rows_layout fuel ts.
Proof.
  revert ts. induction fuel as [|fuel IH]; intros ts Hfuel; [lia|].
  cbn [rows_layout].
  destruct (skipn 16 ts) as [|r rest] eqn:Hskip.
  - apply raw_from_row.
    assert (length (skipn 16 ts) = 0)%nat as Hl by now rewrite Hskip.
    rewrite length_skipn in Hl. lia.
  - assert (length (skipn 16 ts) = S (length rest)) as Hl by now rewrite Hskip.
    rewrite length_skipn in Hl.
    rewrite <- (firstn_skipn 16 ts) at 1.
    rewrite raw_from_app, Hskip.
    rewrite length_firstn, Nat.min_l by lia.
    rewrite raw_from_row by (rewrite length_firstn; lia).
    f_equal.
    rewrite <- (IH (r :: rest)) by (simpl; lia).
    cbn [raw_from Nat.add].
    change (separator 16) with (" " ++ Py.nl).
    rewrite separator_0.
    rewrite <- (raw_from_shift rest 1) by lia.
    cbn [Nat.add].
    repeat rewrite append_assoc.
    reflexivity.
Qed.

Lemma raw_bytes_to_string_pretty_layout (raw_bytes : list string) :
  raw_bytes_to_string_pretty raw_bytes = hex_layout raw_bytes.
Proof.
  rewrite raw_bytes_to_string_pretty_from.
  apply raw_from_rows. lia.
Qed.

(** Reading the tokens back. *)
Lemma tokens_from_token (t rest cur : string) :
  no_blank t = true ->
  tokens_from cur (t ++ rest) = tokens_from (cur ++ t) rest.
Proof.
  revert cur. induction t as [|c t IH]; intros cur Hnb; simpl.
  - now rewrite append_nil_r.
  - simpl in Hnb. apply andb_true_iff in Hnb as [Hc Ht].
    apply negb_true_iff in Hc. rewrite Hc.
    rewrite IH by assumption.
    now rewrite append_assoc.
Qed.

Lemma tokens_from_separator (i : nat) (rest : string) :
  tokens_from "" (separator i ++ rest) = tokens_from "" rest.
Proof.
  unfold separator.
  destruct ((0 <? i)%nat && (i mod 8 =? 0)%nat);
    destruct ((0 <? i)%nat && (i mod 16 =? 0)%nat); reflexivity.
Qed.

Lemma tokens_raw_from (ts : list string) (i : nat) :
  forallb is_token ts = true -> tokens_from "" (raw_from i ts) = ts.
Proof.
  revert i. induction ts as [|t ts IH]; intros i Hok; simpl; [reflexivity|].
  simpl in Hok. apply andb_true_iff in Hok as [Ht Hts].
  rewrite tokens_from_separator.
  destruct t as [|c t]; [discriminate|].
  unfold is_token in Ht.
  rewrite tokens_from_token by assumption.
  simpl. rewrite IH by assumption. reflexivity.
Qed.

Lemma separator_succ (i : nat) :
  separator (S i)
  = (if (S i mod 8 =? 0)%nat then " " else "")
    ++ (if (S i mod 16 =? 0)%nat then Py.nl else "").
Proof. reflexivity. Qed.

Lemma stated_layout_raw_from (ts : list string) (i : nat) :
  separator i ++ stated_layout_from i ts
  = raw_from i ts ++ separator (i + length ts).
Proof.
  revert i. induction ts as [|t ts IH]; intros i.
  - cbn [stated_layout_from raw_from length]. rewrite Nat.add_0_r.
    now rewrite append_nil_r.
  - cbn [stated_layout_from raw_from length].
    rewrite <- (append_assoc (if (S i mod 8 =? 0)%nat then " " else "")).
    rewrite <- separator_succ, IH.
    replace (S i + length ts)%nat with (i + S (length ts))%nat by lia.
    now rewrite !append_assoc.
Qed.

(** C5, as the specification states it, fails.  For 16 tokens the rendering
    holds no line break, and for 8 tokens it holds no extra space: the
    layout of the specification has, after the last token, a space and a
    line break (16 tokens) or a space (8 tokens) that the code does not
    write. *)
Lemma raw_layout_not_as_stated :
  raw_bytes_to_string_pretty ex_raw16
  = "01 02 03 04 05 06 07 08  09 0a 0b 0c 0d 0e 0f 10 "
  /\ hex_layout_as_stated ex_raw16
     = raw_bytes_to_string_pretty ex_raw16 ++ " " ++ Py.nl
  /\ raw_bytes_to_string_pretty (firstn 8 ex_raw16)
     = "01 02 03 04 05 06 07 08 "
  /\ hex_layout_as_stated (firstn 8 ex_raw16)
     = raw_bytes_to_string_pretty (firstn 8 ex_raw16) ++ " "
  /\ raw_bytes_to_string_pretty ex_raw16 <> hex_layout_as_stated ex_raw16.
Proof.
  repeat split; try reflexivity. intros H. vm_compute in H. discriminate.
Qed.

(** C5, amended.  For every sequence of N byte tokens, the raw hex
    rendering is laid out in rows of 16 tokens, each token followed by a
    space, with an extra space after the 8th token of a row when another
    token follows in the row, and an extra space and a line break after the
    16th token of a row when another token follows; it is the layout of the
    specification without what that layout puts after the last token.  When
    the tokens are well formed (not empty, no blank, as two-character hex
    tokens are) the rendering holds exactly these N tokens, in order; and
    the ten tokens 01 .. 0a render as [01 02 03 04 05 06 07 08  09 0a ] with
    no line break. *)
Theorem raw_hex_rendering_layout (raw_bytes : list string) :
  (forallb is_token raw_bytes = true ->
   tokens (raw_bytes_to_string_pretty raw_bytes) = raw_bytes
   /\ length (tokens (raw_bytes_to_string_pretty raw_bytes))
      = length raw_bytes)
  /\ raw_bytes_to_string_pretty raw_bytes = hex_layout raw_bytes
  /\ hex_layout_as_stated raw_bytes
     = raw_bytes_to_string_pretty raw_bytes ++ separator (length raw_bytes)
  /\ raw_bytes_to_string_pretty ex_raw10 = "01 02 03 04 05 06 07 08  09 0a ".
Proof.
  split; [|split; [apply raw_bytes_to_string_pretty_layout
                  |split; [|reflexivity]]].
  - intros Hok.
    assert (tokens (raw_bytes_to_string_pretty raw_bytes) = raw_bytes) as Ht.
    { unfold tokens. rewrite raw_bytes_to_string_pretty_from.
      now apply tokens_raw_from. }
    split; [exact Ht|now rewrite Ht].
  - rewrite raw_bytes_to_string_pretty_from.
    exact (stated_layout_raw_from raw_bytes 0).
Qed.

Lemma raw_hex_rendering_layout_witness :
  forallb is_token ex_raw10 = true
  /\ tokens (raw_bytes_to_string_pretty ex_raw10) = ex_raw10.
Proof.
  split; [reflexivity|].
  apply (proj1 (raw_hex_rendering_layout ex_raw10)). reflexivity.
Defined.

(* ================================================================== *)
(** * Order of keys *)
(* ================================================================== *)

Lemma leb_iff (a b : string) :
  String.leb a b = true <-> a = b \/ OrderedTypeEx.String_as_OT.lt a b.
Proof.
  unfold String.leb.
  destruct (String.compare a b) eqn:E.
  - split; [intros _|reflexivity].
    left. now apply OrderedTypeEx.String_as_OT.cmp_eq.
  - split; [intros _|reflexivity].
    right. now apply OrderedTypeEx.String_as_OT.cmp_lt.
  - split; [discriminate|].
    intros [Heq|Hlt].
    + apply OrderedTypeEx.String_as_OT.cmp_eq in Heq.
      unfold OrderedTypeEx.String_as_OT.cmp in Heq. congruence.
    + apply OrderedTypeEx.String_as_OT.cmp_lt in Hlt.
      unfold OrderedTypeEx.String_as_OT.cmp in Hlt. congruence.
Qed.

Lemma leb_refl (a : string) : String.leb a a = true.
Proof. apply leb_iff. now left. Qed.

Lemma leb_trans (a b c : string) :
  String.leb a b = true -> String.leb b c = true -> String.leb a c = true.
Proof.
  rewrite !leb_iff.
  intros [->|Hab] [->|Hbc]; auto.
  right. eapply OrderedTypeEx.String_as_OT.lt_trans; eassumption.
Qed.

Lemma leb_neq_ltb (a b : string) :
  String.leb a b = true -> a <> b -> String.ltb a b = true.
Proof.
  unfold String.leb, String.ltb.
  destruct (String.compare a b) eqn:E; try reflexivity; try discriminate.
  intros _ Hne. apply String.compare_eq_iff in E. contradiction.
Qed.

Lemma hd_insert_sorted (x : string) (l : list string) :
  hd "" (Py.insert_sorted x l)
  = match l with
    | [] => x
    | y :: _ => if String.leb x y then x else y
    end.
Proof.
  destruct l as [|y l]; simpl; [reflexivity|].
  now destruct (String.leb x y).
Qed.

Lemma insert_sorted_not_nil (x : string) (l : list string) :
  Py.insert_sorted x l <> [].
Proof.
  destruct l as [|y l]; simpl; [discriminate|].
  destruct (String.leb x y); discriminate.
Qed.

(** [sorted(l)[0]] is an element of [l] ... *)
Lemma sorted_hd_in (l : list string) :
  l <> [] -> In (hd "" (Py.sorted l)) l.
Proof.
  induction l as [|x l IH]; intros Hne; [contradiction|].
  simpl. rewrite hd_insert_sorted.
  destruct (Py.sorted l) as [|y s] eqn:Hs.
  - now left.
  - destruct (String.leb x y).
    + now left.
    + right.
      assert (l <> []) as Hl by (intros ->; discriminate).
      specialize (IH Hl). exact IH.
Qed.

(** ... and the least one. *)
Lemma sorted_hd_le (l : list string) (x : string) :
  In x l -> String.leb (hd "" (Py.sorted l)) x = true.
Proof.
  induction l as [|a l IH]; intros Hin; [contradiction|].
  simpl. rewrite hd_insert_sorted.
  destruct (Py.sorted l) as [|y s] eqn:Hs.
  - destruct Hin as [<-|Hin]; [apply leb_refl|].
    destruct l as [|b l]; [contradiction|].
    simpl in Hs. exfalso. now apply (insert_sorted_not_nil b (Py.sorted l)).
  - destruct (String.leb a y) eqn:Hay.
    + destruct Hin as [<-|Hin]; [apply leb_refl|].
      apply leb_trans with y; [assumption|]. now apply IH.
    + destruct Hin as [<-|Hin]; [|now apply IH].
      destruct (String.leb_total a y) as [H|H]; [congruence|exact H].
Qed.

(* ================================================================== *)
(** * Dictionaries *)
(* ================================================================== *)

Lemma dict_size_cons (k : string) (f : field) (d : dict) :
  dict_size ((k, f) :: d) = S (field_size f + dict_size d).
Proof. reflexivity. Qed.

Lemma dict_size_nil : dict_size [] = 0%nat.
Proof. reflexivity. Qed.

Lemma getitem_keys (d : dict) (key : string) :
  In key (keys d) -> exists val, getitem d key = Some val.
Proof.
  induction d as [|[k v] d IH]; simpl; [contradiction|].
  intros [->|Hin].
  - rewrite String.eqb_refl. now exists v.
  - destruct (String.eqb k key); [now exists v|now apply IH].
Qed.

(** The lookup [in_dict[key]] of the renderers never fails. *)
Lemma getitem_least_key (d : dict) :
  d <> [] -> exists val, getitem d (hd "" (Py.sorted (keys d))) = Some val.
Proof.
  intros Hne. apply getitem_keys. apply sorted_hd_in.
  destruct d; [contradiction|discriminate].
Qed.

Lemma without_size (d : dict) (key : string) :
  (dict_size (without d key) <= dict_size d)%nat.
Proof.
  unfold without.
  induction d as [|[k v] d IH]; [apply Nat.le_refl|].
  cbn [filter fst]. rewrite dict_size_cons.
  destruct (String.eqb k key); cbn [negb].
  - lia.
  - rewrite dict_size_cons. lia.
Qed.

(** Taking [key] out leaves room for the call on its value and the call on
    the rest. *)
Lemma getitem_size (d : dict) (key : string) (val : field) :
  getitem d key = Some val ->
  (S (field_size val + dict_size (without d key)) <= dict_size d)%nat.
Proof.
  unfold without.
  induction d as [|[k v] d IH]; cbn [getitem]; [discriminate|].
  cbn [filter fst]. rewrite dict_size_cons.
  destruct (String.eqb k key) eqn:E; cbn [negb].
  - intros [= ->].
    pose proof (without_size d key) as Hw. unfold without in Hw. lia.
  - intros H. rewrite dict_size_cons.
    specialize (IH H). lia.
Qed.

Lemma keys_without (d : dict) (key x : string) :
  In x (keys (without d key)) -> In x (keys d) /\ x <> key.
Proof.
  unfold keys, without. intros H.
  apply in_map_iff in H as [[k v] [<- Hin]].
  apply filter_In in Hin as [Hin Hneq]. simpl in *.
  split.
  - apply in_map_iff. now exists (k, v).
  - apply negb_true_iff in Hneq. now apply String.eqb_neq.
Qed.

Lemma keys_without_in (d : dict) (key x : string) :
  In x (keys d) -> x <> key -> In x (keys (without d key)).
Proof.
  unfold keys, without. intros H Hne.
  apply in_map_iff in H as [[k v] [<- Hin]]. simpl in *.
  apply in_map_iff. exists (k, v). split; [reflexivity|].
  apply filter_In. split; [assumption|]. simpl.
  apply negb_true_iff. now apply String.eqb_neq.
Qed.

(** ** Enough fuel: the equations of the source *)

Lemma dict_to_string_pretty_rec_fuel (f1 f2 : nat) (d : dict) (indent : nat) :
  (dict_size d < f1)%nat -> (dict_size d < f2)%nat ->
  dict_to_string_pretty_rec f1 d indent = dict_to_string_pretty_rec f2 d indent.
Proof.
  revert f2 d indent.
  induction f1 as [|f1 IH]; intros f2 d indent H1 H2; [lia|].
  destruct f2 as [|f2]; [lia|].
  cbn [dict_to_string_pretty_rec].
  destruct d as [|kv d']; [reflexivity|].
  set (d := kv :: d') in *.
  destruct (getitem d (hd "" (Py.sorted (keys d)))) as [val|] eqn:Hget;
    [|reflexivity].
  pose proof (getitem_size _ _ _ Hget) as Hsize.
  rewrite (IH f2 (without d _) indent) by lia.
  destruct val as [v|items]; [reflexivity|].
  change (field_size (Dict items)) with (dict_size items) in Hsize.
  rewrite (IH f2 items (indent + 1)%nat) by lia.
  reflexivity.
Qed.

Lemma dict_to_string_comma_separated_rec_fuel (f1 f2 : nat) (d : dict)
  (bl : list string) (prefix : string) (first : bool) :
  (dict_size d < f1)%nat -> (dict_size d < f2)%nat ->
  dict_to_string_comma_separated_rec f1 d bl prefix first
  = dict_to_string_comma_separated_rec f2 d bl prefix first.
Proof.
  revert f2 d prefix first.
  induction f1 as [|f1 IH]; intros f2 d prefix first H1 H2; [lia|].
  destruct f2 as [|f2]; [lia|].
  cbn [dict_to_string_comma_separated_rec].
  destruct d as [|kv d']; [reflexivity|].
  set (d := kv :: d') in *.
  destruct (getitem d (hd "" (Py.sorted (keys d)))) as [val|] eqn:Hget;
    [|reflexivity].
  destruct (Py.contains bl _); [reflexivity|].
  pose proof (getitem_size _ _ _ Hget) as Hsize.
  rewrite (IH f2 (without d _) prefix false) by lia.
  destruct val as [v|items]; [reflexivity|].
  change (field_size (Dict items)) with (dict_size items) in Hsize.
  rewrite (IH f2 items _ true) by lia.
  reflexivity.
Qed.

(** [dict_to_string_pretty] satisfies the recursive definition of the
    source. *)
Lemma dict_to_string_pretty_eq (in_dict : dict) (indent : nat) :
  dict_to_string_pretty in_dict indent
  = match in_dict with
    | [] => ""
    | _ :: _ =>
        let key := hd "" (Py.sorted (keys in_dict)) in
        match getitem in_dict key with
        | None => ""
        | Some val =>
            match val with
            | Dict val_items =>
                Py.repeat_str Py.tab indent ++ key ++ ":" ++ Py.nl
                ++ dict_to_string_pretty val_items (indent + 1)
            | Scalar v =>
                Py.repeat_str Py.tab indent ++ key ++ ": " ++ str v ++ Py.nl
            end
            ++ dict_to_string_pretty (without in_dict key) indent
        end
    end.
Proof.
  unfold dict_to_string_pretty at 1.
  cbn [dict_to_string_pretty_rec].
  destruct in_dict as [|kv d']; [reflexivity|].
  set (d := kv :: d') in *. cbv zeta.
  destruct (getitem d (hd "" (Py.sorted (keys d)))) as [val|] eqn:Hget;
    [|reflexivity].
  pose proof (getitem_size _ _ _ Hget) as Hsize.
  unfold dict_to_string_pretty.
  rewrite (dict_to_string_pretty_rec_fuel (dict_size d)
             (S (dict_size (without d (hd "" (Py.sorted (keys d))))))
             (without d _) indent) by lia.
  destruct val as [v|items]; [reflexivity|].
  change (field_size (Dict items)) with (dict_size items) in Hsize.
  rewrite (dict_to_string_pretty_rec_fuel (dict_size d) (S (dict_size items))
             items (indent + 1)%nat) by lia.
  reflexivity.
Qed.

(** So does [dict_to_string_comma_separated]. *)
Lemma dict_to_string_comma_separated_eq (in_dict : dict)
  (key_blacklist : list string) (elemprefix : string) (first : bool) :
  dict_to_string_comma_separated in_dict key_blacklist elemprefix first
  = match in_dict with
    | [] => ""
    | _ :: _ =>
        let key := hd "" (Py.sorted (keys in_dict)) in
        match getitem in_dict key with
        | None => ""
        | Some val =>
            if Py.contains key_blacklist key then ""
            else
              match val with
              | Dict val_items =>
                  (if negb first then "" ++ "," else "")
                  ++ dict_to_string_comma_separated
                       val_items key_blacklist (key ++ ".") true
              | Scalar v =>
                  (if negb first then "" ++ "," else "")
                  ++ (elemprefix ++ key) ++ ":" ++ str v
              end
              ++ dict_to_string_comma_separated
                   (without in_dict key) key_blacklist elemprefix false
        end
    end.
Proof.
  unfold dict_to_string_comma_separated at 1.
  cbn [dict_to_string_comma_separated_rec].
  destruct in_dict as [|kv d']; [reflexivity|].
  set (d := kv :: d') in *. cbv zeta.
  destruct (getitem d (hd "" (Py.sorted (keys d)))) as [val|] eqn:Hget;
    [|reflexivity].
  destruct (Py.contains key_blacklist _); [reflexivity|].
  pose proof (getitem_size _ _ _ Hget) as Hsize.
  unfold dict_to_string_comma_separated.
  rewrite (dict_to_string_comma_separated_rec_fuel (dict_size d)
             (S (dict_size (without d (hd "" (Py.sorted (keys d))))))
             (without d _) key_blacklist elemprefix false) by lia.
  destruct val as [v|items]; [reflexivity|].
  change (field_size (Dict items)) with (dict_size items) in Hsize.
  rewrite (dict_to_string_comma_separated_rec_fuel (dict_size d)
             (S (dict_size items)) items key_blacklist _ true) by lia.
  reflexivity.
Qed.

(* ================================================================== *)
(** * Keys visited by the two dictionary renderers *)
(* ================================================================== *)

(** The traced renderers print what the renderers print. *)
Lemma dict_to_string_pretty_traced_fst (fuel : nat) (d : dict) (indent : nat) :
  fst (dict_to_string_pretty_traced fuel d indent)
  = dict_to_string_pretty_rec fuel d indent.
Proof.
  revert d indent. induction fuel as [|fuel IH]; intros d indent; [reflexivity|].
  cbn [dict_to_string_pretty_traced dict_to_string_pretty_rec].
  destruct d as [|kv d']; [reflexivity|].
  set (d := kv :: d') in *. cbv zeta.
  destruct (getitem d (hd "" (Py.sorted (keys d)))) as [val|]; [|reflexivity].
  rewrite <- (IH (without d _) indent).
  destruct (dict_to_string_pretty_traced fuel (without d _) indent) as [s vs].
  destruct val as [v|items]; [reflexivity|].
  rewrite <- (IH items (indent + 1)%nat).
  destruct (dict_to_string_pretty_traced fuel items (indent + 1)) as [s' vs'].
  reflexivity.
Qed.

Lemma dict_to_string_comma_separated_traced_fst (fuel : nat) (d : dict)
  (bl : list string) (prefix : string) (first : bool) :
  fst (dict_to_string_comma_separated_traced fuel d bl prefix first)
  = dict_to_string_comma_separated_rec fuel d bl prefix first.
Proof.
  revert d prefix first.
  induction fuel as [|fuel IH]; intros d prefix first; [reflexivity|].
  cbn [dict_to_string_comma_separated_traced dict_to_string_comma_separated_rec].
  destruct d as [|kv d']; [reflexivity|].
  set (d := kv :: d') in *. cbv zeta.
  destruct (getitem d (hd "" (Py.sorted (keys d)))) as [val|]; [|reflexivity].
  destruct (Py.contains bl _); [reflexivity|].
  rewrite <- (IH (without d _) prefix false).
  destruct (dict_to_string_comma_separated_traced fuel (without d _) bl prefix false)
    as [s vs].
  destruct val as [v|items]; [reflexivity|].
  rewrite <- (IH items _ true).
  destruct (dict_to_string_comma_separated_traced fuel items bl _ true)
    as [s' vs'].
  reflexivity.
Qed.

(** What one call of a traced renderer visits: nothing, or the least key
    followed by the visits of the call on the rest. *)
Lemma pretty_traced_snd (fuel : nat) (d : dict) (indent : nat) :
  snd (dict_to_string_pretty_traced (S fuel) d indent) = []
  \/ exists val,
       d <> [] /\
       getitem d (hd "" (Py.sorted (keys d))) = Some val /\
       snd (dict_to_string_pretty_traced (S fuel) d indent)
       = Visit (hd "" (Py.sorted (keys d)))
           match val with
           | Dict items =>
               snd (dict_to_string_pretty_traced fuel items (indent + 1))
           | Scalar _ => []
           end
         :: snd (dict_to_string_pretty_traced fuel
                   (without d (hd "" (Py.sorted (keys d)))) indent).
Proof.
  cbn [dict_to_string_pretty_traced].
  destruct d as [|kv d']; [now left|].
  set (d := kv :: d') in *. cbv zeta.
  destruct (getitem d (hd "" (Py.sorted (keys d)))) as [val|] eqn:Hget;
    [|now left].
  right. exists val. split; [discriminate|]. split; [reflexivity|].
  destruct (dict_to_string_pretty_traced fuel (without d _) indent) as [s vs].
  destruct val as [v|items]; [reflexivity|].
  destruct (dict_to_string_pretty_traced fuel items (indent + 1)) as [s' vs'].
  reflexivity.
Qed.

Lemma comma_traced_snd (fuel : nat) (d : dict) (bl : list string)
  (prefix : string) (first : bool) :
  snd (dict_to_string_comma_separated_traced (S fuel) d bl prefix first) = []
  \/ exists val,
       d <> [] /\
       getitem d (hd "" (Py.sorted (keys d))) = Some val /\
       Py.contains bl (hd "" (Py.sorted (keys d))) = false /\
       snd (dict_to_string_comma_separated_traced (S fuel) d bl prefix first)
       = Visit (hd "" (Py.sorted (keys d)))
           match val with
           | Dict items =>
               snd (dict_to_string_comma_separated_traced fuel items bl
                      (hd "" (Py.sorted (keys d)) ++ ".") true)
           | Scalar _ => []
           end
         :: snd (dict_to_string_comma_separated_traced fuel
                   (without d (hd "" (Py.sorted (keys d)))) bl prefix false).
Proof.
  cbn [dict_to_string_comma_separated_traced].
  destruct d as [|kv d']; [now left|].
  set (d := kv :: d') in *. cbv zeta.
  destruct (getitem d (hd "" (Py.sorted (keys d)))) as [val|] eqn:Hget;
    [|now left].
  destruct (Py.contains bl _) eqn:Hbl; [now left|].
  right. exists val. split; [discriminate|]. do 2 (split; [reflexivity|]).
  destruct (dict_to_string_comma_separated_traced fuel (without d _) bl prefix false)
    as [s vs].
  destruct val as [v|items]; [reflexivity|].
  destruct (dict_to_string_comma_separated_traced fuel items bl _ true)
    as [s' vs'].
  reflexivity.
Qed.

Lemma pretty_traced_keys (fuel : nat) (d : dict) (indent : nat) (v : visit) :
  In v (snd (dict_to_string_pretty_traced fuel d indent)) -> In (vkey v) (keys d).
Proof.
  revert d. induction fuel as [|fuel IH]; intros d; [contradiction|].
  destruct (pretty_traced_snd fuel d indent) as [->|[val [Hne [Hget ->]]]];
    [contradiction|].
  intros [<-|Hin].
  - apply sorted_hd_in. destruct d; [contradiction|discriminate].
  - apply IH in Hin. now apply keys_without in Hin.
Qed.

Lemma comma_traced_keys (fuel : nat) (d : dict) (bl : list string)
  (prefix : string) (first : bool) (v : visit) :
  In v (snd (dict_to_string_comma_separated_traced fuel d bl prefix first)) ->
  In (vkey v) (keys d).
Proof.
  revert d first. induction fuel as [|fuel IH]; intros d first; [contradiction|].
  destruct (comma_traced_snd fuel d bl prefix first)
    as [->|[val [Hne [Hget [Hbl ->]]]]]; [contradiction|].
  intros [<-|Hin].
  - apply sorted_hd_in. destruct d; [contradiction|discriminate].
  - apply IH in Hin. now apply keys_without in Hin.
Qed.

(** A key of the rest is above the least key. *)
Lemma least_key_below_rest (d : dict) (x : string) :
  In x (keys (without d (hd "" (Py.sorted (keys d))))) ->
  String.ltb (hd "" (Py.sorted (keys d))) x = true.
Proof.
  intros H. apply keys_without in H as [Hin Hne].
  apply leb_neq_ltb; [now apply sorted_hd_le|congruence].
Qed.

Lemma pretty_traced_ascending (fuel : nat) (d : dict) (indent : nat) :
  ascending (snd (dict_to_string_pretty_traced fuel d indent)).
Proof.
  revert d indent. induction fuel as [|fuel IH]; intros d indent; [constructor|].
  destruct (pretty_traced_snd fuel d indent) as [->|[val [Hne [Hget ->]]]];
    [constructor|].
  constructor.
  - destruct val; [constructor|apply IH].
  - apply IH.
  - intros v Hin. apply least_key_below_rest.
    now apply pretty_traced_keys in Hin.
Qed.

Lemma comma_traced_ascending (fuel : nat) (d : dict) (bl : list string)
  (prefix : string) (first : bool) :
  ascending (snd (dict_to_string_comma_separated_traced fuel d bl prefix first)).
Proof.
  revert d prefix first.
  induction fuel as [|fuel IH]; intros d prefix first; [constructor|].
  destruct (comma_traced_snd fuel d bl prefix first)
    as [->|[val [Hne [Hget [Hbl ->]]]]]; [constructor|].
  constructor.
  - destruct val; [constructor|apply IH].
  - apply IH.
  - intros v Hin. apply least_key_below_rest.
    now apply comma_traced_keys in Hin.
Qed.

(** Whatever is excluded, one-line mode visits an initial part of what
    multi-line mode visits, level by level. *)
Lemma comma_traced_prefix (fuel : nat) (d : dict) (bl : list string)
  (prefix : string) (first : bool) (indent : nat) :
  visits_prefix
    (snd (dict_to_string_comma_separated_traced fuel d bl prefix first))
    (snd (dict_to_string_pretty_traced fuel d indent)).
Proof.
  revert d prefix first indent.
  induction fuel as [|fuel IH]; intros d prefix first indent; [constructor|].
  destruct (comma_traced_snd fuel d bl prefix first)
    as [->|[val [Hne [Hget [Hbl ->]]]]]; [constructor|].
  destruct (pretty_traced_snd fuel d indent) as [Hnil|[val' [_ [Hget' ->]]]].
  - exfalso. revert Hnil. cbn [dict_to_string_pretty_traced].
    destruct d as [|kv d']; [contradiction|].
    cbv zeta. rewrite Hget.
    destruct (dict_to_string_pretty_traced fuel (without (kv :: d') _) indent).
    destruct val as [v|items]; [discriminate|].
    destruct (dict_to_string_pretty_traced fuel items (indent + 1));
      discriminate.
  - rewrite Hget in Hget'. injection Hget' as <-.
    constructor; [|apply IH].
    destruct val; [constructor|apply IH].
Qed.

(** With nothing excluded the two visit the same keys in the same order. *)
Lemma comma_traced_nothing_excluded (fuel : nat) (d : dict)
  (prefix : string) (first : bool) (indent : nat) :
  snd (dict_to_string_comma_separated_traced fuel d [] prefix first)
  = snd (dict_to_string_pretty_traced fuel d indent).
Proof.
  revert d prefix first indent.
  induction fuel as [|fuel IH]; intros d prefix first indent; [reflexivity|].
  cbn [dict_to_string_comma_separated_traced dict_to_string_pretty_traced].
  destruct d as [|kv d']; [reflexivity|].
  set (d := kv :: d') in *. cbv zeta.
  destruct (getitem d (hd "" (Py.sorted (keys d)))) as [val|]; [|reflexivity].
  cbn [Py.contains existsb].
  specialize (IH (without d (hd "" (Py.sorted (keys d))))) as IHrest.
  specialize (IHrest prefix false indent).
  destruct (dict_to_string_comma_separated_traced fuel (without d _) [] prefix false)
    as [s vs].
  destruct (dict_to_string_pretty_traced fuel (without d _) indent) as [s1 vs1].
  simpl in IHrest. subst vs1.
  destruct val as [v|items]; [reflexivity|].
  specialize (IH items (hd "" (Py.sorted (keys d)) ++ ".") true (indent + 1)%nat).
  destruct (dict_to_string_comma_separated_traced fuel items [] _ true)
    as [s' vs'].
  destruct (dict_to_string_pretty_traced fuel items (indent + 1)) as [s1' vs1'].
  simpl in IH. subst vs1'.
  reflexivity.
Qed.

(** Multi-line mode visits every key of the mapping. *)
Lemma pretty_traced_covers (fuel : nat) (d : dict) (indent : nat) (k : string) :
  (dict_size d < fuel)%nat -> In k (keys d) ->
  In k (map vkey (snd (dict_to_string_pretty_traced fuel d indent))).
Proof.
  revert d. induction fuel as [|fuel IH]; intros d Hfuel Hin; [lia|].
  assert (d <> []) as Hne by (intros ->; contradiction).
  destruct (getitem_least_key d Hne) as [val Hget].
  pose proof (getitem_size _ _ _ Hget) as Hsize.
  destruct (pretty_traced_snd fuel d indent) as [Hnil|[val' [_ [_ ->]]]].
  - exfalso. revert Hnil. cbn [dict_to_string_pretty_traced].
    destruct d as [|kv d']; [contradiction|].
    cbv zeta. rewrite Hget.
    destruct (dict_to_string_pretty_traced fuel (without (kv :: d') _) indent).
    destruct val as [v|items]; [discriminate|].
    destruct (dict_to_string_pretty_traced fuel items (indent + 1));
      discriminate.
  - cbn [map vkey].
    destruct (String.eqb_spec k (hd "" (Py.sorted (keys d)))) as [->|Hk].
    + now left.
    + right. apply IH; [lia|]. now apply keys_without_in.
Qed.

(** No excluded key is rendered in one-line mode, at any level. *)
Lemma comma_traced_excluded (fuel : nat) (d : dict) (bl : list string)
  (prefix : string) (first : bool) :
  every_key (fun k => Py.contains bl k = false)
    (snd (dict_to_string_comma_separated_traced fuel d bl prefix first)).
Proof.
  revert d prefix first.
  induction fuel as [|fuel IH]; intros d prefix first; [constructor|].
  destruct (comma_traced_snd fuel d bl prefix first)
    as [->|[val [Hne [Hget [Hbl ->]]]]]; [constructor|].
  constructor; [assumption| |apply IH].
  destruct val; [constructor|apply IH].
Qed.

(** C7.  For every input mapping, one-line and multi-line rendering visit
    the keys in the same order, lexicographic ascending at every nesting
    level.  The visits are those of the traced renderers, which print what
    the renderers print; both sequences of visits are strictly ascending at
    every level;
    multi-line rendering visits every key of the mapping; one-line rendering
    visits, level by level, an initial part of the multi-line visits
    whatever is excluded, and exactly the multi-line visits when nothing is
    excluded. *)
Theorem renderings_visit_keys_in_same_order (in_dict : dict)
  (key_blacklist : list string) (elemprefix : string) (first : bool)
  (indent : nat) :
  fst (dict_to_string_pretty_traced (S (dict_size in_dict)) in_dict indent)
  = dict_to_string_pretty in_dict indent
  /\ fst (dict_to_string_comma_separated_traced (S (dict_size in_dict)) in_dict
            key_blacklist elemprefix first)
     = dict_to_string_comma_separated in_dict key_blacklist elemprefix first
  /\ ascending (pretty_visits in_dict indent)
  /\ ascending (comma_separated_visits in_dict key_blacklist elemprefix first)
  /\ (forall k, In k (keys in_dict) ->
                In k (map vkey (pretty_visits in_dict indent)))
  /\ visits_prefix
       (comma_separated_visits in_dict key_blacklist elemprefix first)
       (pretty_visits in_dict indent)
  /\ comma_separated_visits in_dict [] elemprefix first
     = pretty_visits in_dict indent.
Proof.
  unfold pretty_visits, comma_separated_visits.
  split; [apply dict_to_string_pretty_traced_fst|].
  split; [apply dict_to_string_comma_separated_traced_fst|].
  split; [apply pretty_traced_ascending|].
  split; [apply comma_traced_ascending|].
  split; [intros k Hk; apply pretty_traced_covers; [lia|assumption]|].
  split; [apply comma_traced_prefix|apply comma_traced_nothing_excluded].
Qed.

(* ================================================================== *)
(** * One-line rendering and the exclusion set *)
(* ================================================================== *)

(** When the least key of a mapping is excluded, the whole mapping renders
    as the empty string: the keys after it are dropped with it. *)
Lemma comma_separated_stops_at_excluded_key (in_dict : dict)
  (key_blacklist : list string) (elemprefix : string) (first : bool) :
  Py.contains key_blacklist (hd "" (Py.sorted (keys in_dict))) = true ->
  dict_to_string_comma_separated in_dict key_blacklist elemprefix first = "".
Proof.
  intros Hbl. rewrite dict_to_string_comma_separated_eq.
  destruct in_dict as [|kv d']; [reflexivity|].
  cbv zeta. rewrite Hbl.
  now destruct (getitem (kv :: d') _).
Qed.

(** C1.  The one-line rendering at a mapping with the keys [Connector],
    [EncodingCodes] and [VendorName] and the exclusion list of the [eeprom]
    command: [VendorName] is not excluded and is a key of the mapping, yet the
    output is [Connector:LC]; the pair [VendorName:ACME] does not appear. *)
Theorem excluded_key_drops_the_keys_after_it :
  Py.contains ifdata_out_blacklist "VendorName" = false
  /\ getitem ex_c1 "VendorName" = Some (Scalar (SStr "ACME"))
  /\ dict_to_string_comma_separated ex_c1 ifdata_out_blacklist "" true
     = "Connector:LC".
Proof. repeat split. Qed.

(** C2, as the specification states it, fails. *)
Lemma oneline_example_not_as_stated :
  dict_to_string_comma_separated ex_c2 ["Temp.Low"] "" true
  <> "VendorName:ACME,Temp.High:70".
Proof. vm_compute. discriminate. Qed.

(** C2, amended.  For the input mapping
    [{"VendorName": "ACME", "Temp": {"High": 70, "Low": -5}}] with exclusion
    set [{"Temp.Low"}], the one-line rendering is
    [Temp.High:70,Temp.Low:-5,VendorName:ACME]: keys come in ascending
    order, and an excluded name is compared with the bare key, so
    [Temp.Low] excludes nothing. *)
Theorem oneline_example :
  dict_to_string_comma_separated ex_c2 ["Temp.Low"] "" true
  = "Temp.High:70,Temp.Low:-5,VendorName:ACME".
Proof. reflexivity. Qed.

(* ================================================================== *)
(** * Port names and lanes *)
(* ================================================================== *)

Lemma bind_returns {A B} (out : list string) (a : A) (k : A -> M B) :
  bind (out, Returns a) k = ((out ++ fst (k a))%list, snd (k a)).
Proof. unfold bind. now destruct (k a). Qed.

Lemma get_physical_port_name_ganged (logical_port : string) (i : Z) :
  get_physical_port_name logical_port i true
  = logical_port ++ ":" ++ Py.str_int i ++ " (ganged)".
Proof. reflexivity. Qed.

Lemma get_physical_port_name_single (logical_port : string) (i : Z) :
  get_physical_port_name logical_port i false = logical_port.
Proof. reflexivity. Qed.

Lemma presence_loop (pf : SfpUtil) (logical_port_name : string) (ganged : bool)
  (lanes : list Z) (output_table : list (string * string)) (i : Z) :
  exists table,
    for_each (presence_lane pf logical_port_name ganged) lanes (output_table, i)
    = Next (table, (i + Z.of_nat (length lanes))%Z)
    /\ map fst table
       = (map fst output_table
          ++ map (fun j => get_physical_port_name logical_port_name j ganged)
               (lane_numbers i (length lanes)))%list.
Proof.
  revert output_table i.
  induction lanes as [|p lanes IH]; intros output_table i.
  - exists output_table. split.
    + simpl. now rewrite Z.add_0_r.
    + simpl. now rewrite app_nil_r.
  - cbn [for_each presence_lane].
    destruct (IH (if get_presence pf p
                  then (output_table
                        ++ [(get_physical_port_name logical_port_name i ganged,
                             "Present")])%list
                  else (output_table
                        ++ [(get_physical_port_name logical_port_name i ganged,
                             "Not present")])%list)
                (i + 1)%Z) as [table [Hloop Hnames]].
    exists table. split.
    + rewrite Hloop. f_equal. f_equal. cbn [length]. lia.
    + rewrite Hnames. cbn [length lane_numbers map].
      destruct (get_presence pf p); rewrite map_app; cbn [map fst];
        now rewrite <- app_assoc.
Qed.

Lemma single_names (logical_port : string) (lanes : list Z) (i : Z) :
  map (fun j => get_physical_port_name logical_port j false)
    (lane_numbers i (length lanes))
  = map (fun _ => logical_port) lanes.
Proof.
  revert i. induction lanes as [|p lanes IH]; intros i; [reflexivity|].
  cbn [length lane_numbers map]. rewrite IH. reflexivity.
Qed.

(** C6.  The display name of lane [i] of a ganged port is
    [{logical}:{i} (ganged)], that of a port that is not ganged is the
    logical name unmodified; the lanes of a port are numbered 1, 2, ... in
    the order of enumeration; and the logical port [Ethernet0] backed by the
    physical lanes [[5, 6]] gives the display names
    [Ethernet0:1 (ganged)] and [Ethernet0:2 (ganged)]. *)
Theorem display_names (pf : SfpUtil) (logical_port : string) (lanes : list Z) :
  (forall i, get_physical_port_name logical_port i true
             = logical_port ++ ":" ++ Py.str_int i ++ " (ganged)")
  /\ (forall i, get_physical_port_name logical_port i false = logical_port)
  /\ map fst (presence_rows pf logical_port lanes)
     = (if (1 <? length lanes)%nat
        then map (fun i => logical_port ++ ":" ++ Py.str_int i ++ " (ganged)")
               (lane_numbers 1 (length lanes))
        else map (fun _ => logical_port) lanes)
  /\ logical_port_name_to_physical_port_list ex_int ex_platform "Ethernet0"
     = ([], Returns (Some [5; 6]%Z))
  /\ map fst (presence_rows ex_platform "Ethernet0" [5; 6]%Z)
     = ["Ethernet0:1 (ganged)"; "Ethernet0:2 (ganged)"].
Proof.
  split; [intros i; apply get_physical_port_name_ganged|].
  split; [intros i; apply get_physical_port_name_single|].
  split; [|split; reflexivity].
  unfold presence_rows.
  destruct (presence_loop pf logical_port
              (if (1 <? length lanes)%nat then true else false) lanes [] 1%Z)
    as [table [-> Hnames]].
  rewrite Hnames. cbn [map app].
  destruct (1 <? length lanes)%nat; [reflexivity|].
  apply single_names.
Qed.

(* ================================================================== *)
(** * The resolver *)
(* ================================================================== *)

(** C8, as the specification states it, fails: an identifier that does not
    follow the naming convention and is not an integer literal is not turned
    into a one-element sequence; the conversion raises. *)
Lemma resolver_rejects_non_numeric_identifier :
  Py.startswith "abc" "Ethernet" = false
  /\ logical_port_name_to_physical_port_list ex_int ex_platform "abc"
     = ([], Raises ValueError).
Proof. split; reflexivity. Qed.

(** C8, amended.  For every port identifier: if it does not start with
    [Ethernet], the resolver hands it to [int]; when [int] reads it as the
    integer [n] the resolver returns the one-element sequence holding [n],
    and when [int] raises [ValueError] so does the resolver, which returns
    no sequence.  If the identifier starts with [Ethernet] and the port
    table does not know it, the resolver reports the invalid port and
    returns [None], not a list of lanes.  The resolver prints nothing else
    in these cases. *)
Theorem resolver_cases (int : string -> option Z) (pf : SfpUtil)
  (port_name : string) :
  (Py.startswith port_name "Ethernet" = false ->
   forall n, int port_name = Some n ->
   logical_port_name_to_physical_port_list int pf port_name
   = ([], Returns (Some [n])))
  /\ (Py.startswith port_name "Ethernet" = false ->
      int port_name = None ->
      logical_port_name_to_physical_port_list int pf port_name
      = ([], Raises ValueError))
  /\ (Py.startswith port_name "Ethernet" = true ->
      is_logical_port pf port_name = false ->
      logical_port_name_to_physical_port_list int pf port_name
      = (["Error: Invalid port '" ++ port_name ++ "'"], Returns None)).
Proof.
  unfold logical_port_name_to_physical_port_list.
  repeat split.
  - intros Hs n Hn. now rewrite Hs, Hn.
  - intros Hs Hn. now rewrite Hs, Hn.
  - intros Hs Hl. now rewrite Hs, Hl.
Qed.

Lemma resolver_cases_witness :
  logical_port_name_to_physical_port_list ex_int ex_platform "7"
  = ([], Returns (Some [7%Z]))
  /\ logical_port_name_to_physical_port_list ex_int ex_platform "abc"
     = ([], Raises ValueError)
  /\ logical_port_name_to_physical_port_list ex_int ex_platform "Ethernet12"
     = (["Error: Invalid port 'Ethernet12'"], Returns None).
Proof.
  split; [|split].
  - apply (proj1 (resolver_cases ex_int ex_platform "7")); reflexivity.
  - apply (proj1 (proj2 (resolver_cases ex_int ex_platform "abc")));
      reflexivity.
  - apply (proj2 (proj2 (resolver_cases ex_int ex_platform "Ethernet12")));
      reflexivity.
Defined.

(* ================================================================== *)
(** * Multi-line mode *)
(* ================================================================== *)

(** One pass through the loop body returns the block of its lane. *)
Lemma pretty_lane_returns (pf : SfpUtil) (logical_port_name : string)
  (dump_dom ganged : bool) (i : Z) (physical_port : Z) :
  pretty_lane pf logical_port_name dump_dom ganged ("", i) physical_port
  = Return (pretty_block pf
              (get_physical_port_name logical_port_name i ganged)
              physical_port dump_dom).
Proof.
  unfold pretty_lane, pretty_block, detected_eeprom,
    get_sfp_eeprom_status_string.
  destruct (get_presence pf physical_port); cbn [negb].
  - destruct (get_eeprom_dict pf physical_port) as [e|].
    + destruct dump_dom; [destruct (dom e) as [[dom_data|]|]|];
        cbn [String.append]; repeat rewrite append_assoc;
        repeat rewrite append_nil_r; reflexivity.
    + cbn [String.append]. repeat rewrite append_assoc. reflexivity.
  - cbn [String.append]. repeat rewrite append_assoc. reflexivity.
Qed.

Lemma port_eeprom_data_string_pretty_lanes {int : string -> option Z}
  (pf : SfpUtil)
  (logical_port_name : string) (dump_dom : bool) (out : list string)
  (lanes : list Z) :
  logical_port_name_to_physical_port_list int pf logical_port_name
  = (out, Returns (Some lanes)) ->
  port_eeprom_data_string_pretty int pf logical_port_name dump_dom
  = (out,
     Returns
       match lanes with
       | [] => None
       | p :: _ =>
           Some (pretty_block pf
                   (get_physical_port_name logical_port_name 1
                      (1 <? length lanes)%nat)
                   p dump_dom)
       end).
Proof.
  intros Hres. unfold port_eeprom_data_string_pretty.
  rewrite Hres, bind_returns.
  destruct lanes as [|p rest].
  - cbn. now rewrite app_nil_r.
  - cbn [for_each]. rewrite pretty_lane_returns.
    cbn [ret fst snd]. rewrite app_nil_r.
    now destruct (1 <? length (p :: rest))%nat.
Qed.

(** C3.  In pretty multi-line mode, for a ganged logical port (two or more
    physical lanes) the renderer returns after the first lane: the returned
    text is exactly the block of the first lane, named
    [{logical}:1 (ganged)], and holds no block of a later lane. *)
Theorem pretty_multiline_renders_first_lane_only (int : string -> option Z)
  (pf : SfpUtil)
  (logical_port_name : string) (dump_dom : bool) (out : list string)
  (p q : Z) (rest : list Z) :
  logical_port_name_to_physical_port_list int pf logical_port_name
  = (out, Returns (Some (p :: q :: rest))) ->
  port_eeprom_data_string_pretty int pf logical_port_name dump_dom
  = (out,
     Returns (Some (pretty_block pf (logical_port_name ++ ":1 (ganged)")
                      p dump_dom))).
Proof.
  intros Hres.
  now rewrite (port_eeprom_data_string_pretty_lanes _ _ _ _ _ Hres).
Qed.

Lemma pretty_multiline_renders_first_lane_only_witness :
  port_eeprom_data_string_pretty ex_int ex_platform "Ethernet0" false
  = ([],
     Returns (Some (pretty_block ex_platform "Ethernet0:1 (ganged)" 5 false))).
Proof.
  apply (pretty_multiline_renders_first_lane_only ex_int
           ex_platform "Ethernet0" false [] 5%Z 6%Z []).
  reflexivity.
Defined.

(** C10.  When the resolver yields an empty list of lanes, the pretty
    multi-line renderer returns [None], not a string; when it yields a list
    that is not empty, the renderer returns a string. *)
Theorem pretty_multiline_returns_none_without_lanes (int : string -> option Z)
  (pf : SfpUtil)
  (logical_port_name : string) (dump_dom : bool) (out : list string)
  (lanes : list Z) :
  logical_port_name_to_physical_port_list int pf logical_port_name
  = (out, Returns (Some lanes)) ->
  (lanes = [] ->
   port_eeprom_data_string_pretty int pf logical_port_name dump_dom
   = (out, Returns None))
  /\ (lanes <> [] ->
      exists s,
        port_eeprom_data_string_pretty int pf logical_port_name dump_dom
        = (out, Returns (Some s))).
Proof.
  intros Hres.
  rewrite (port_eeprom_data_string_pretty_lanes _ _ _ _ _ Hres).
  split.
  - now intros ->.
  - intros Hne. destruct lanes as [|p rest]; [contradiction|].
    eexists. reflexivity.
Qed.

Lemma pretty_multiline_returns_none_without_lanes_witness :
  port_eeprom_data_string_pretty ex_int ex_platform "Ethernet8" true
  = ([], Returns None)
  /\ exists s,
       port_eeprom_data_string_pretty ex_int ex_platform "Ethernet4" true
       = ([], Returns (Some s)).
Proof.
  split.
  - apply (proj1 (pretty_multiline_returns_none_without_lanes ex_int
                    ex_platform "Ethernet8" true [] [] eq_refl)).
    reflexivity.
  - apply (proj2 (pretty_multiline_returns_none_without_lanes ex_int
                    ex_platform "Ethernet4" true [] [7%Z] eq_refl)).
    discriminate.
Defined.

(* ================================================================== *)
(** * One-line mode *)
(* ================================================================== *)

Lemma unlines_app (a b : list string) :
  unlines (a ++ b)%list = unlines a ++ unlines b.
Proof.
  induction a as [|x a IH]; simpl; [reflexivity|].
  rewrite IH. now rewrite !append_assoc.
Qed.

Lemma oneline_lane_next (pf : SfpUtil) (logical_port_name : string)
  (bl1 bl2 : list string) (dump_dom ganged : bool) (result : string) (i : Z)
  (physical_port : Z) :
  oneline_lane pf logical_port_name bl1 bl2 dump_dom ganged (result, i)
    physical_port
  = Next (result
          ++ oneline_body pf logical_port_name bl1 bl2 dump_dom ganged i
               physical_port
          ++ Py.nl,
          (i + 1)%Z).
Proof.
  unfold oneline_lane, oneline_body, detected_eeprom.
  destruct (get_presence pf physical_port); cbn [negb].
  - destruct (get_eeprom_dict pf physical_port) as [e|].
    + destruct dump_dom; [destruct (dom e) as [[dom_data|]|]|];
        repeat rewrite append_assoc; cbn [String.append];
        repeat rewrite append_assoc; repeat rewrite append_nil_r; reflexivity.
    + reflexivity.
  - reflexivity.
Qed.

Lemma oneline_loop (pf : SfpUtil) (logical_port_name : string)
  (bl1 bl2 : list string) (dump_dom ganged : bool) (lanes : list Z)
  (result : string) (i : Z) :
  for_each (oneline_lane pf logical_port_name bl1 bl2 dump_dom ganged) lanes
    (result, i)
  = Next (result
          ++ unlines (oneline_bodies pf logical_port_name bl1 bl2 dump_dom
                        ganged i lanes),
          (i + Z.of_nat (length lanes))%Z).
Proof.
  revert result i. induction lanes as [|p lanes IH]; intros result i.
  - simpl. now rewrite append_nil_r, Z.add_0_r.
  - cbn [for_each]. rewrite oneline_lane_next, IH.
    cbn [oneline_bodies unlines length].
    repeat rewrite append_assoc.
    f_equal. f_equal. lia.
Qed.

(* ================================================================== *)
(** * Rendering and the store *)
(* ================================================================== *)

(** An induction principle that reaches the values of a nested mapping. *)
Fixpoint field_rect' (P : field -> Prop)
  (HS : forall v, P (Scalar v))
  (HD : forall items, Forall (fun kv => P (snd kv)) items -> P (Dict items))
  (f : field) {struct f} : P f :=
  match f with
  | Scalar v => HS v
  | Dict items =>
      HD items
        ((fix go (l : list (string * field)) : Forall (fun kv => P (snd kv)) l :=
            match l with
            | [] => Forall_nil _
            | kv :: l' =>
                Forall_cons kv (field_rect' P HS HD (snd kv)) (go l')
            end) items)
  end.

Lemma repr_dict (h : Heap.heap) (d : dict) (r : Heap.ref) :
  Heap.repr h (Dict d) r
  <-> exists items,
        nth_error h r = Some (Heap.ODict items) /\ Heap.repr_items h d items.
Proof.
  cbn [Heap.repr].
  assert (forall items,
             (fix repr_items (d0 : list (string * field))
                  (items0 : list (string * Heap.ref)) {struct d0} : Prop :=
                match d0, items0 with
                | [], [] => True
                | (k, f') :: d', (k', r') :: items' =>
                    k = k' /\ Heap.repr h f' r' /\ repr_items d' items'
                | _, _ => False
                end) d items
             <-> Heap.repr_items h d items) as Hsame.
  { induction d as [|[k f] d IH]; intros [|[k' r'] items];
      cbn [Heap.repr_items]; try tauto.
    now rewrite IH. }
  split; intros [items [Hr Hitems]]; exists items; (split; [exact Hr|]);
    now apply Hsame.
Qed.

Lemma extends_refl (h : Heap.heap) : Heap.extends h h.
Proof. exists []. now rewrite app_nil_r. Qed.

Lemma extends_trans (h1 h2 h3 : Heap.heap) :
  Heap.extends h1 h2 -> Heap.extends h2 h3 -> Heap.extends h1 h3.
Proof.
  intros [f1 ->] [f2 ->]. exists (f1 ++ f2)%list. now rewrite app_assoc.
Qed.

Lemma extends_unchanged (h h' : Heap.heap) :
  Heap.extends h h' -> Heap.unchanged h h'.
Proof.
  intros [fresh ->] r o Hr.
  rewrite nth_error_app1; [assumption|].
  apply nth_error_Some. congruence.
Qed.

Lemma repr_extends (h h' : Heap.heap) (f : field) (r : Heap.ref) :
  Heap.extends h h' -> Heap.repr h f r -> Heap.repr h' f r.
Proof.
  intros Hext. revert r.
  induction f as [v|items IH] using field_rect'; intros r.
  - cbn [Heap.repr]. now apply extends_unchanged.
  - rewrite !repr_dict. intros [refs [Hr Hitems]].
    exists refs. split; [now apply (extends_unchanged h h')|].
    clear Hr. revert refs Hitems.
    induction IH as [|[k f] items Hf _ IHitems]; intros refs Hitems.
    + exact Hitems.
    + destruct refs as [|[k' r'] refs]; [contradiction|].
      cbn [Heap.repr_items] in *.
      destruct Hitems as [Hk [Hrepr Hrest]].
      split; [assumption|]. split; [now apply Hf|now apply IHitems].
Qed.

Lemma repr_items_extends (h h' : Heap.heap) (d : dict)
  (items : list (string * Heap.ref)) :
  Heap.extends h h' -> Heap.repr_items h d items -> Heap.repr_items h' d items.
Proof.
  intros Hext. revert items.
  induction d as [|[k f] d IH]; intros [|[k' r'] items] H;
    cbn [Heap.repr_items] in *; try assumption.
  destruct H as [Hk [Hrepr Hrest]].
  split; [assumption|].
  split; [now apply (repr_extends h h')|now apply IH].
Qed.

Lemma repr_items_keys (h : Heap.heap) (d : dict)
  (items : list (string * Heap.ref)) :
  Heap.repr_items h d items -> map fst items = keys d.
Proof.
  revert items.
  induction d as [|[k f] d IH]; intros [|[k' r'] items] H;
    cbn [Heap.repr_items] in H; try contradiction; [reflexivity|].
  destruct H as [-> [_ Hrest]]. cbn. f_equal. now apply IH.
Qed.

Lemma repr_items_lookup (h : Heap.heap) (d : dict)
  (items : list (string * Heap.ref)) (key : string) (f : field) :
  Heap.repr_items h d items -> getitem d key = Some f ->
  exists r, Heap.lookup items key = Some r /\ Heap.repr h f r.
Proof.
  revert items.
  induction d as [|[k f'] d IH]; intros [|[k' r'] items] H Hget;
    cbn [Heap.repr_items getitem] in *; try contradiction; try discriminate.
  destruct H as [<- [Hrepr Hrest]]. cbn [Heap.lookup].
  destruct (String.eqb k key).
  - injection Hget as <-. now exists r'.
  - now apply IH.
Qed.

Lemma repr_items_without (h : Heap.heap) (d : dict)
  (items : list (string * Heap.ref)) (key : string) :
  Heap.repr_items h d items ->
  Heap.repr_items h (without d key)
    (filter (fun kv => negb (String.eqb (fst kv) key)) items).
Proof.
  unfold without. revert items.
  induction d as [|[k f] d IH]; intros [|[k' r'] items] H;
    cbn [Heap.repr_items] in H; try contradiction; [exact I|].
  destruct H as [<- [Hrepr Hrest]]. cbn [filter fst].
  destruct (String.eqb k key); cbn [negb].
  - now apply IH.
  - cbn [Heap.repr_items]. split; [reflexivity|]. split; [assumption|].
    now apply IH.
Qed.

(** ** Computations that only add objects *)

Lemma framed_hret {A} (a : A) : Heap.framed (Heap.hret a).
Proof. intros h a' h' [= _ <-]. apply extends_refl. Qed.

Lemma framed_hfail {A} : Heap.framed (@Heap.hfail A).
Proof. intros h a h' H. discriminate. Qed.

Lemma framed_hbind {A B} (m : Heap.H A) (k : A -> Heap.H B) :
  Heap.framed m -> (forall a, Heap.framed (k a)) ->
  Heap.framed (Heap.hbind m k).
Proof.
  intros Hm Hk h b h'. unfold Heap.hbind.
  destruct (m h) as [[a h1]|] eqn:E; [|discriminate].
  intros H. apply extends_trans with h1.
  - now apply (Hm h a).
  - now apply (Hk a h1 b).
Qed.

Lemma framed_load (r : Heap.ref) : Heap.framed (Heap.load r).
Proof.
  intros h o h'. unfold Heap.load.
  destruct (nth_error h r); [|discriminate].
  intros [= _ <-]. apply extends_refl.
Qed.

Lemma framed_new (o : Heap.obj) : Heap.framed (Heap.new o).
Proof. intros h r h' [= _ <-]. now exists [o]. Qed.

Lemma framed_lift {A} (o : option A) : Heap.framed (Heap.lift o).
Proof. destruct o; [apply framed_hret|apply framed_hfail]. Qed.

Lemma framed_load_dict (r : Heap.ref) : Heap.framed (Heap.load_dict r).
Proof.
  apply framed_hbind; [apply framed_load|].
  intros [v|items|items]; first [apply framed_hret|apply framed_hfail].
Qed.

Lemma framed_load_list (r : Heap.ref) : Heap.framed (Heap.load_list r).
Proof.
  apply framed_hbind; [apply framed_load|].
  intros [v|items|items]; first [apply framed_hret|apply framed_hfail].
Qed.

Lemma framed_comprehension_without (r : Heap.ref) (key : string) :
  Heap.framed (Heap.comprehension_without r key).
Proof.
  apply framed_hbind; [apply framed_load_dict|]. intros items. apply framed_new.
Qed.

Create HintDb framed.
#[local] Hint Resolve framed_hret framed_hfail framed_load framed_new
  framed_lift framed_load_dict framed_load_list framed_comprehension_without
  : framed.

(** Whatever store and reference it is given, a run of a renderer that
    returns has only added objects. *)
Lemma raw_bytes_to_string_pretty_framed (raw_bytes : Heap.ref) :
  Heap.framed (Heap.raw_bytes_to_string_pretty raw_bytes).
Proof.
  apply framed_hbind; auto with framed.
Qed.

Lemma dict_to_string_pretty_framed (fuel : nat) (in_dict : Heap.ref)
  (indent : nat) :
  Heap.framed (Heap.dict_to_string_pretty fuel in_dict indent).
Proof.
  revert in_dict indent.
  induction fuel as [|fuel IH]; intros in_dict indent; cbn; auto with framed.
  apply framed_hbind; auto with framed.
  intros [|kv items]; auto with framed.
  apply framed_hbind; auto with framed. intros val.
  apply framed_hbind; auto with framed. intros o.
  apply framed_hbind.
  - destruct o as [v|its|its]; auto with framed.
    apply framed_hbind; auto with framed.
  - intros output. apply framed_hbind; auto with framed. intros rest.
    apply framed_hbind; auto with framed.
Qed.

Lemma dict_to_string_comma_separated_framed (fuel : nat) (in_dict : Heap.ref)
  (bl : list string) (prefix : string) (first : bool) :
  Heap.framed (Heap.dict_to_string_comma_separated fuel in_dict bl prefix first).
Proof.
  revert in_dict prefix first.
  induction fuel as [|fuel IH]; intros in_dict prefix first; cbn;
    auto with framed.
  apply framed_hbind; auto with framed.
  intros [|kv items]; auto with framed.
  apply framed_hbind; auto with framed. intros val.
  destruct (Py.contains bl _); auto with framed.
  apply framed_hbind; auto with framed. intros o.
  apply framed_hbind.
  - destruct o as [v|its|its]; auto with framed.
    apply framed_hbind; auto with framed.
  - intros output. apply framed_hbind; auto with framed. intros rest.
    apply framed_hbind; auto with framed.
Qed.

(** ** The renderers over the store print what the renderers print *)

Lemma computes_hret {A} (a : A) (h : Heap.heap) : Heap.computes (Heap.hret a) h a.
Proof. exists []. unfold Heap.hret. now rewrite app_nil_r. Qed.

Lemma computes_hbind {A B} (m : Heap.H A) (k : A -> Heap.H B)
  (h : Heap.heap) (a : A) (b : B) :
  Heap.computes m h a ->
  (forall h', Heap.extends h h' -> m h = Some (a, h') ->
              Heap.computes (k a) h' b) ->
  Heap.computes (Heap.hbind m k) h b.
Proof.
  intros [f1 Hm] Hk.
  destruct (Hk (h ++ f1)%list) as [f2 Hka]; [now exists f1|assumption|].
  exists (f1 ++ f2)%list. unfold Heap.hbind.
  rewrite Hm, Hka. now rewrite app_assoc.
Qed.

Lemma computes_load (r : Heap.ref) (h : Heap.heap) (o : Heap.obj) :
  nth_error h r = Some o -> Heap.computes (Heap.load r) h o.
Proof.
  intros Hr. exists []. unfold Heap.load. rewrite Hr. now rewrite app_nil_r.
Qed.

Lemma computes_load_dict (r : Heap.ref) (h : Heap.heap)
  (items : list (string * Heap.ref)) :
  nth_error h r = Some (Heap.ODict items) ->
  Heap.computes (Heap.load_dict r) h items.
Proof.
  intros Hr. exists []. unfold Heap.load_dict, Heap.hbind, Heap.load.
  rewrite Hr. unfold Heap.hret. now rewrite app_nil_r.
Qed.

(** The comprehension builds the mapping without [key] and leaves the
    mapping it reads as it is. *)
Lemma computes_comprehension_without (r : Heap.ref) (key : string)
  (h : Heap.heap) (d : dict) :
  Heap.repr h (Dict d) r ->
  exists fresh rest,
    Heap.comprehension_without r key h = Some (rest, (h ++ fresh)%list)
    /\ Heap.repr (h ++ fresh)%list (Dict (without d key)) rest.
Proof.
  intros Hrepr. apply repr_dict in Hrepr as [items [Hr Hitems]].
  exists [Heap.ODict (filter (fun kv => negb (String.eqb (fst kv) key)) items)].
  exists (length h). split.
  - cbv [Heap.comprehension_without Heap.hbind Heap.load_dict Heap.load
           Heap.hret Heap.new].
    rewrite Hr. reflexivity.
  - apply repr_dict. eexists. split.
    + rewrite nth_error_app2 by lia. rewrite Nat.sub_diag. reflexivity.
    + apply repr_items_extends with h; [now eexists|].
      now apply repr_items_without.
Qed.

Lemma dict_to_string_pretty_computes (fuel : nat) (d : dict) (r : Heap.ref)
  (indent : nat) (h : Heap.heap) :
  (dict_size d < fuel)%nat ->
  Heap.repr h (Dict d) r ->
  Heap.computes (Heap.dict_to_string_pretty fuel r indent) h
    (dict_to_string_pretty_rec fuel d indent).
Proof.
  revert d r indent h.
  induction fuel as [|fuel IH]; intros d r indent h Hfuel Hrepr; [lia|].
  pose proof Hrepr as Hd.
  apply repr_dict in Hd as [items [Hr Hitems]].
  cbn [Heap.dict_to_string_pretty dict_to_string_pretty_rec].
  apply computes_hbind with items; [now apply computes_load_dict|].
  intros h1 Hext1 _.
  pose proof (repr_items_keys _ _ _ Hitems) as Hkeys.
  destruct d as [|kv d'].
  { destruct items; [apply computes_hret|contradiction]. }
  destruct items as [|kr items']; [destruct kv; contradiction|].
  set (d := kv :: d') in *. set (items := kr :: items') in *.
  rewrite Hkeys.
  destruct (getitem_least_key d) as [val Hget]; [discriminate|].
  rewrite Hget.
  pose proof (getitem_size _ _ _ Hget) as Hsize.
  destruct (repr_items_lookup _ _ _ _ _ Hitems Hget) as [rv [Hlook Hval]].
  rewrite Hlook. cbn [Heap.lift].
  apply computes_hbind with rv; [apply computes_hret|].
  intros h2 Hext2 _.
  assert (Heap.extends h h2) as Hh2 by (eapply extends_trans; eassumption).
  assert (forall output h3,
             Heap.extends h h3 ->
             Heap.computes
               (Heap.hbind
                  (Heap.comprehension_without r (hd "" (Py.sorted (keys d))))
                  (fun rest =>
                     Heap.hbind (Heap.dict_to_string_pretty fuel rest indent)
                       (fun s => Heap.hret (output ++ s))))
               h3
               (output
                ++ dict_to_string_pretty_rec fuel
                     (without d (hd "" (Py.sorted (keys d)))) indent))
    as Hrest.
  { intros output h3 Hh3.
    destruct (computes_comprehension_without r (hd "" (Py.sorted (keys d)))
                h3 d) as [fresh [rest [Hrun Hrepr_rest]]];
      [now apply (repr_extends h h3)|].
    apply computes_hbind with rest; [now exists fresh|].
    intros h4 _ Hrun4. rewrite Hrun in Hrun4. injection Hrun4 as <-.
    apply computes_hbind
      with (dict_to_string_pretty_rec fuel
              (without d (hd "" (Py.sorted (keys d)))) indent).
    - apply IH; [lia|assumption].
    - intros h5 _ _. apply computes_hret. }
  destruct val as [v|val_items].
  - cbn [Heap.repr] in Hval.
    apply computes_hbind with (Heap.OScalar v).
    { apply computes_load. now apply (extends_unchanged h h2). }
    intros h3 Hext3 _.
    eapply computes_hbind; [apply computes_hret|].
    intros h4 Hext4 _. apply Hrest.
    eapply extends_trans; [eassumption|].
    eapply extends_trans; eassumption.
  - pose proof Hval as Hv.
    apply repr_dict in Hv as [val_refs [Hrv _]].
    change (field_size (Dict val_items)) with (dict_size val_items) in Hsize.
    apply computes_hbind with (Heap.ODict val_refs).
    { apply computes_load. now apply (extends_unchanged h h2). }
    intros h3 Hext3 _.
    assert (Heap.extends h h3) as Hh3 by (eapply extends_trans; eassumption).
    eapply computes_hbind.
    { apply computes_hbind
        with (dict_to_string_pretty_rec fuel val_items (indent + 1)).
      - apply IH; [lia|]. eapply repr_extends; eassumption.
      - intros h4 _ _. apply computes_hret. }
    intros h4 Hext4 _. apply Hrest.
    eapply extends_trans; eassumption.
Qed.

Lemma dict_to_string_comma_separated_computes (fuel : nat) (d : dict)
  (r : Heap.ref) (bl : list string) (prefix : string) (first : bool)
  (h : Heap.heap) :
  (dict_size d < fuel)%nat ->
  Heap.repr h (Dict d) r ->
  Heap.computes (Heap.dict_to_string_comma_separated fuel r bl prefix first) h
    (dict_to_string_comma_separated_rec fuel d bl prefix first).
Proof.
  revert d r prefix first h.
  induction fuel as [|fuel IH]; intros d r prefix first h Hfuel Hrepr; [lia|].
  pose proof Hrepr as Hd.
  apply repr_dict in Hd as [items [Hr Hitems]].
  cbn [Heap.dict_to_string_comma_separated dict_to_string_comma_separated_rec].
  apply computes_hbind with items; [now apply computes_load_dict|].
  intros h1 Hext1 _.
  pose proof (repr_items_keys _ _ _ Hitems) as Hkeys.
  destruct d as [|kv d'].
  { destruct items; [apply computes_hret|contradiction]. }
  destruct items as [|kr items']; [destruct kv; contradiction|].
  set (d := kv :: d') in *. set (items := kr :: items') in *.
  cbv zeta. rewrite Hkeys.
  destruct (getitem_least_key d) as [val Hget]; [discriminate|].
  rewrite Hget.
  pose proof (getitem_size _ _ _ Hget) as Hsize.
  destruct (repr_items_lookup _ _ _ _ _ Hitems Hget) as [rv [Hlook Hval]].
  rewrite Hlook. cbn [Heap.lift].
  apply computes_hbind with rv; [apply computes_hret|].
  intros h2 Hext2 _.
  destruct (Py.contains bl (hd "" (Py.sorted (keys d))));
    [apply computes_hret|].
  assert (Heap.extends h h2) as Hh2 by (eapply extends_trans; eassumption).
  assert (forall output h3,
             Heap.extends h h3 ->
             Heap.computes
               (Heap.hbind
                  (Heap.comprehension_without r (hd "" (Py.sorted (keys d))))
                  (fun rest =>
                     Heap.hbind
                       (Heap.dict_to_string_comma_separated fuel rest bl
                          prefix false)
                       (fun s => Heap.hret (output ++ s))))
               h3
               (output
                ++ dict_to_string_comma_separated_rec fuel
                     (without d (hd "" (Py.sorted (keys d)))) bl prefix false))
    as Hrest.
  { intros output h3 Hh3.
    destruct (computes_comprehension_without r (hd "" (Py.sorted (keys d)))
                h3 d) as [fresh [rest [Hrun Hrepr_rest]]];
      [now apply (repr_extends h h3)|].
    apply computes_hbind with rest; [now exists fresh|].
    intros h4 _ Hrun4. rewrite Hrun in Hrun4. injection Hrun4 as <-.
    apply computes_hbind
      with (dict_to_string_comma_separated_rec fuel
              (without d (hd "" (Py.sorted (keys d)))) bl prefix false).
    - apply IH; [lia|assumption].
    - intros h5 _ _. apply computes_hret. }
  destruct val as [v|val_items].
  - cbn [Heap.repr] in Hval.
    apply computes_hbind with (Heap.OScalar v).
    { apply computes_load. now apply (extends_unchanged h h2). }
    intros h3 Hext3 _.
    eapply computes_hbind; [apply computes_hret|].
    intros h4 Hext4 _. apply Hrest.
    eapply extends_trans; [eassumption|].
    eapply extends_trans; eassumption.
  - pose proof Hval as Hv.
    apply repr_dict in Hv as [val_refs [Hrv _]].
    change (field_size (Dict val_items)) with (dict_size val_items) in Hsize.
    apply computes_hbind with (Heap.ODict val_refs).
    { apply computes_load. now apply (extends_unchanged h h2). }
    intros h3 Hext3 _.
    assert (Heap.extends h h3) as Hh3 by (eapply extends_trans; eassumption).
    eapply computes_hbind.
    { apply computes_hbind
        with (dict_to_string_comma_separated_rec fuel val_items bl
                (hd "" (Py.sorted (keys d)) ++ ".") true).
      - apply IH; [lia|]. eapply repr_extends; eassumption.
      - intros h4 _ _. apply computes_hret. }
    intros h4 Hext4 _. apply Hrest.
    eapply extends_trans; eassumption.
Qed.

(** The store can tell a renderer that changes its argument: removing a key
    in place, which the renderers never do, changes the object. *)
Lemma delitem_changes_its_argument :
  exists h',
    Heap.delitem 4 "Temp" Heap.ex_heap = Some (tt, h')
    /\ nth_error h' 4 <> nth_error Heap.ex_heap 4.
Proof. eexists. split; [reflexivity|]. cbn. discriminate. Qed.

Lemma ex_heap_repr : Heap.repr Heap.ex_heap (Dict ex_c2) 4.
Proof.
  apply repr_dict. eexists. split; [reflexivity|].
  cbn [Heap.repr_items ex_c2].
  split; [reflexivity|]. split; [reflexivity|].
  split; [reflexivity|]. split; [|exact I].
  apply repr_dict. eexists. split; [reflexivity|].
  cbn. repeat split.
Defined.

(** C9.  Rendering never changes its input.  Whatever store and reference a
    renderer is run on, when the run returns every object of the store is as
    it was before (the three statements on arbitrary runs).  And for a store
    in which the reference passed in leads to a nested record [in_dict], the
    multi-line and the one-line renderer do return, with the text the
    renderers above give for [in_dict], and the reference still leads to
    [in_dict]; for a list of byte tokens, the raw renderer returns its text
    and the very same store. *)
Theorem rendering_never_mutates_input (h : Heap.heap)
  (r raw : Heap.ref) (in_dict : dict) (raw_bytes : list string) (indent : nat)
  (key_blacklist : list string) (elemprefix : string) (first : bool) :
  Heap.repr h (Dict in_dict) r ->
  nth_error h raw = Some (Heap.OList raw_bytes) ->
  (exists fuel h',
      Heap.dict_to_string_pretty fuel r indent h
      = Some (dict_to_string_pretty in_dict indent, h')
      /\ Heap.unchanged h h'
      /\ Heap.repr h' (Dict in_dict) r)
  /\ (exists fuel h',
         Heap.dict_to_string_comma_separated fuel r key_blacklist elemprefix
           first h
         = Some (dict_to_string_comma_separated in_dict key_blacklist
                   elemprefix first, h')
         /\ Heap.unchanged h h'
         /\ Heap.repr h' (Dict in_dict) r)
  /\ Heap.raw_bytes_to_string_pretty raw h
     = Some (raw_bytes_to_string_pretty raw_bytes, h)
  /\ (forall fuel r0 indent0 s h',
         Heap.dict_to_string_pretty fuel r0 indent0 h = Some (s, h') ->
         Heap.unchanged h h')
  /\ (forall fuel r0 bl0 prefix0 first0 s h',
         Heap.dict_to_string_comma_separated fuel r0 bl0 prefix0 first0 h
         = Some (s, h') ->
         Heap.unchanged h h')
  /\ (forall r0 s h',
         Heap.raw_bytes_to_string_pretty r0 h = Some (s, h') ->
         Heap.unchanged h h').
Proof.
  intros Hrepr Hraw.
  split; [|split; [|split; [|split; [|split]]]].
  - destruct (dict_to_string_pretty_computes (S (dict_size in_dict)) in_dict r
                indent h) as [fresh Hrun]; [lia|assumption|].
    exists (S (dict_size in_dict)), (h ++ fresh)%list.
    split; [exact Hrun|].
    split; [apply extends_unchanged|apply (repr_extends h)];
      solve [now exists fresh | assumption].
  - destruct (dict_to_string_comma_separated_computes (S (dict_size in_dict))
                in_dict r key_blacklist elemprefix first h)
      as [fresh Hrun]; [lia|assumption|].
    exists (S (dict_size in_dict)), (h ++ fresh)%list.
    split; [exact Hrun|].
    split; [apply extends_unchanged|apply (repr_extends h)];
      solve [now exists fresh | assumption].
  - cbv [Heap.raw_bytes_to_string_pretty Heap.hbind Heap.load_list Heap.load
           Heap.hret].
    now rewrite Hraw.
  - intros fuel r0 indent0 s h' Hrun. apply extends_unchanged.
    now apply (dict_to_string_pretty_framed fuel r0 indent0 h s).
  - intros fuel r0 bl0 prefix0 first0 s h' Hrun. apply extends_unchanged.
    now apply (dict_to_string_comma_separated_framed fuel r0 bl0 prefix0
                 first0 h s).
  - intros r0 s h' Hrun. apply extends_unchanged.
    now apply (raw_bytes_to_string_pretty_framed r0 h s).
Qed.

Lemma rendering_never_mutates_input_witness :
  Heap.raw_bytes_to_string_pretty 5 Heap.ex_heap
  = Some (raw_bytes_to_string_pretty ["01"; "02"], Heap.ex_heap)
  /\ exists fuel h',
       Heap.dict_to_string_pretty fuel 4 1 Heap.ex_heap
       = Some (dict_to_string_pretty ex_c2 1, h')
       /\ Heap.unchanged Heap.ex_heap h'
       /\ Heap.repr h' (Dict ex_c2) 4.
Proof.
  pose proof (rendering_never_mutates_input Heap.ex_heap 4 5 ex_c2
                ["01"; "02"] 1 [] "" true ex_heap_repr eq_refl) as H.
  split.
  - exact (proj1 (proj2 (proj2 H))).
  - exact (proj1 H).
Defined.

(* ================================================================== *)
(** * Sorting the keys *)
(* ================================================================== *)

Lemma insert_sorted_perm (x : string) (l : list string) :
  Permutation (Py.insert_sorted x l) (x :: l).
Proof.
  induction l as [|y l IH]; simpl; [reflexivity|].
  destruct (String.leb x y); [reflexivity|].
  rewrite IH. apply perm_swap.
Qed.

Lemma sorted_perm (l : list string) : Permutation (Py.sorted l) l.
Proof.
  induction l as [|x l IH]; simpl; [reflexivity|].
  rewrite insert_sorted_perm. now constructor.
Qed.

Lemma insert_sorted_sorted (x : string) (l : list string) :
  StronglySorted le_str l -> StronglySorted le_str (Py.insert_sorted x l).
Proof.
  induction 1 as [|y l Hs IH Hall]; simpl.
  - constructor; constructor.
  - destruct (String.leb x y) eqn:E.
    + constructor; [now constructor|].
      constructor; [exact E|].
      eapply Forall_impl; [|exact Hall].
      intros z Hz. now apply leb_trans with y.
    + constructor; [exact IH|].
      apply Forall_forall. intros z Hz.
      apply (Permutation_in _ (insert_sorted_perm x l)) in Hz.
      destruct Hz as [<-|Hz].
      * destruct (String.leb_total x y) as [H|H]; [congruence|exact H].
      * rewrite Forall_forall in Hall. now apply Hall.
Qed.

Lemma sorted_sorted (l : list string) : StronglySorted le_str (Py.sorted l).
Proof.
  induction l as [|x l IH]; simpl; [constructor|].
  now apply insert_sorted_sorted.
Qed.

(** A list has one ascending rearrangement. *)
Lemma sorted_unique (l1 l2 : list string) :
  StronglySorted le_str l1 -> StronglySorted le_str l2 ->
  Permutation l1 l2 -> l1 = l2.
Proof.
  intros H1. revert l2.
  induction H1 as [|a l1 Hs1 IH Hall1]; intros l2 H2 Hperm.
  - apply Permutation_nil in Hperm. now subst.
  - destruct H2 as [|b l2 Hs2 Hall2].
    + apply Permutation_sym, Permutation_nil in Hperm. discriminate.
    + assert (a = b) as <-.
      { rewrite Forall_forall in Hall1, Hall2.
        assert (In a (b :: l2)) as Ha
            by (apply (Permutation_in _ Hperm); now left).
        assert (In b (a :: l1)) as Hb
            by (apply (Permutation_in _ (Permutation_sym Hperm)); now left).
        destruct Ha as [->|Ha]; [reflexivity|].
        destruct Hb as [->|Hb]; [reflexivity|].
        apply String.leb_antisym; [now apply Hall1|now apply Hall2]. }
      f_equal. apply IH; [assumption|].
      now apply Permutation_cons_inv with a.
Qed.

(** The order in which the keys were inserted does not matter to
    [sorted]. *)
Lemma sorted_permutation (l l' : list string) :
  Permutation l l' -> Py.sorted l = Py.sorted l'.
Proof.
  intros H. apply sorted_unique; try apply sorted_sorted.
  now rewrite !sorted_perm.
Qed.

Lemma filter_permutation {A} (f : A -> bool) (l l' : list A) :
  Permutation l l' -> Permutation (filter f l) (filter f l').
Proof.
  induction 1 as [|x l l' _ IH|x y l|l l' l'' _ IH1 _ IH2]; simpl.
  - constructor.
  - destruct (f x); [now constructor|assumption].
  - destruct (f x), (f y); try reflexivity. apply perm_swap.
  - now transitivity (filter f l').
Qed.

Lemma keys_without_filter (d : dict) (key : string) :
  keys (without d key)
  = filter (fun x => negb (String.eqb x key)) (keys d).
Proof.
  unfold keys, without.
  induction d as [|[k v] d IH]; simpl; [reflexivity|].
  destruct (String.eqb k key); simpl; now rewrite IH.
Qed.

(** Without its least key, a mapping has the other keys, in the same
    ascending order. *)
Lemma sorted_keys_without_least (d : dict) :
  NoDup (keys d) ->
  Py.sorted (keys (without d (hd "" (Py.sorted (keys d)))))
  = tl (Py.sorted (keys d)).
Proof.
  intros Hnd.
  pose proof (sorted_perm (keys d)) as Hperm.
  pose proof (sorted_sorted (keys d)) as Hsorted.
  destruct (Py.sorted (keys d)) as [|k t] eqn:Hs.
  - apply Permutation_nil in Hperm.
    rewrite keys_without_filter, Hperm. reflexivity.
  - cbn [hd tl].
    apply sorted_unique; [apply sorted_sorted|now inversion Hsorted|].
    rewrite sorted_perm, keys_without_filter.
    rewrite <- (filter_permutation _ _ _ Hperm).
    cbn [filter]. rewrite String.eqb_refl. cbn [negb].
    assert (NoDup (k :: t)) as Hnd'
        by (apply (Permutation_NoDup (Permutation_sym Hperm) Hnd)).
    inversion Hnd' as [|? ? Hnotin _]; subst.
    rewrite forallb_filter_id; [reflexivity|].
    apply forallb_forall. intros x Hx.
    apply negb_true_iff, String.eqb_neq. intros ->. contradiction.
Qed.

Lemma keys_without_nodup (d : dict) (key : string) :
  NoDup (keys d) -> NoDup (keys (without d key)).
Proof.
  intros H. rewrite keys_without_filter. now apply NoDup_filter.
Qed.

Lemma getitem_without (d : dict) (key x : string) :
  x <> key -> getitem (without d key) x = getitem d x.
Proof.
  intros Hne. unfold without.
  induction d as [|[k v] d IH]; [reflexivity|].
  cbn [filter fst getitem].
  destruct (String.eqb_spec k key) as [->|Hk]; cbn [negb getitem].
  - destruct (String.eqb_spec key x) as [<-|_]; [contradiction|exact IH].
  - now rewrite IH.
Qed.

Lemma getitem_in (d : dict) (k : string) (v : field) :
  NoDup (keys d) -> In (k, v) d -> getitem d k = Some v.
Proof.
  induction d as [|[k' v'] d IH]; intros Hnd Hin; [contradiction|].
  cbn [getitem]. inversion Hnd as [|? ? Hnotin Hnd']; subst.
  destruct Hin as [[= -> ->]|Hin].
  - now rewrite String.eqb_refl.
  - destruct (String.eqb_spec k' k) as [->|_]; [|now apply IH].
    exfalso. apply Hnotin. apply in_map_iff. now exists (k, v).
Qed.

Lemma getitem_some_in (d : dict) (k : string) (v : field) :
  getitem d k = Some v -> In (k, v) d.
Proof.
  induction d as [|[k' v'] d IH]; cbn [getitem]; [discriminate|].
  destruct (String.eqb_spec k' k) as [->|_].
  - intros [= ->]. now left.
  - intros H. right. now apply IH.
Qed.

Lemma getitem_none (d : dict) (k : string) :
  getitem d k = None -> ~ In k (keys d).
Proof.
  intros Hnone Hin. apply getitem_keys in Hin as [v Hv]. congruence.
Qed.

(** Lookup does not depend on the order of insertion. *)
(* ================================================================== *)
(** * The dictionary renderers and the order of insertion *)
(* ================================================================== *)

Lemma ex_c2_keys_nodup : NoDup (keys ex_c2).
Proof.
  repeat constructor; simpl; intuition discriminate.
Qed.

(* ================================================================== *)
(** * The dictionary renderers as loops over the sorted keys *)
(* ================================================================== *)

Lemma pretty_entry_without (d : dict) (indent : nat) (key : string)
  (ks : list string) :
  ~ In key ks ->
  map (pretty_entry (without d key) indent) ks = map (pretty_entry d indent) ks.
Proof.
  intros Hnotin. apply map_ext_in. intros x Hx.
  unfold pretty_entry. rewrite getitem_without; [reflexivity|].
  intros ->. contradiction.
Qed.

Lemma comma_separated_piece_without (d : dict) (bl : list string)
  (prefix key : string) (ks : list string) :
  ~ In key ks ->
  map (comma_separated_piece (without d key) bl prefix) ks
  = map (comma_separated_piece d bl prefix) ks.
Proof.
  intros Hnotin. apply map_ext_in. intros x Hx.
  unfold comma_separated_piece. rewrite getitem_without; [reflexivity|].
  intros ->. contradiction.
Qed.

(** The sorted keys of a mapping with distinct keys: the least key, which
    is not among the others. *)
Lemma sorted_keys_cons (d : dict) :
  NoDup (keys d) -> d <> [] ->
  exists t,
    Py.sorted (keys d) = hd "" (Py.sorted (keys d)) :: t
    /\ ~ In (hd "" (Py.sorted (keys d))) t.
Proof.
  intros Hnd Hne.
  pose proof (sorted_perm (keys d)) as Hperm.
  destruct (Py.sorted (keys d)) as [|k t] eqn:Hs.
  - apply Permutation_nil in Hperm.
    destruct d; [contradiction|discriminate].
  - exists t. split; [reflexivity|]. cbn [hd].
    assert (NoDup (k :: t)) as Hnd'
        by (apply (Permutation_NoDup (Permutation_sym Hperm) Hnd)).
    now inversion Hnd'.
Qed.

Lemma dict_to_string_pretty_sorted_loop (n : nat) (in_dict : dict)
  (indent : nat) :
  (dict_size in_dict < n)%nat -> NoDup (keys in_dict) ->
  dict_to_string_pretty in_dict indent
  = concat_all (map (pretty_entry in_dict indent) (Py.sorted (keys in_dict))).
Proof.
  revert in_dict.
  induction n as [|n IH]; intros d Hsize Hnd; [lia|].
  rewrite dict_to_string_pretty_eq.
  destruct d as [|kv d0]; [reflexivity|].
  set (d := kv :: d0) in *. cbv zeta.
  destruct (getitem_least_key d) as [val Hget]; [discriminate|].
  pose proof (getitem_size _ _ _ Hget) as Hs.
  destruct (sorted_keys_cons d Hnd) as [t [Hsorted Hnotin]]; [discriminate|].
  pose proof (sorted_keys_without_least d Hnd) as Hrest.
  set (k := hd "" (Py.sorted (keys d))) in *.
  rewrite Hget.
  rewrite (IH (without d k))
    by (try apply keys_without_nodup; try assumption; lia).
  rewrite Hrest, Hsorted. cbn [tl map concat_all].
  rewrite (pretty_entry_without _ _ _ _ Hnotin).
  unfold pretty_entry at 2. rewrite Hget.
  now destruct val.
Qed.

Lemma until_excluded_nil_iff (bl ks : list string) :
  until_excluded bl ks = [] ->
  ks = [] \/ Py.contains bl (hd "" ks) = true.
Proof.
  destruct ks as [|k ks]; [now left|]. cbn [until_excluded hd].
  destruct (Py.contains bl k); [now right|discriminate].
Qed.

Lemma concat_cons2 (sep x y : string) (l : list string) :
  String.concat sep (x :: y :: l) = x ++ sep ++ String.concat sep (y :: l).
Proof. reflexivity. Qed.

Lemma until_excluded_incl (bl t : list string) :
  incl (until_excluded bl t) t.
Proof.
  induction t as [|x t IH]; cbn [until_excluded].
  - apply incl_refl.
  - destruct (Py.contains bl x).
    + apply incl_nil_l.
    + apply incl_cons; [now left|]. now apply incl_tl.
Qed.

Lemma dict_to_string_comma_separated_sorted_loop (n : nat) (in_dict : dict)
  (key_blacklist : list string) (elemprefix : string) (first : bool) :
  (dict_size in_dict < n)%nat -> NoDup (keys in_dict) ->
  dict_to_string_comma_separated in_dict key_blacklist elemprefix first
  = match until_excluded key_blacklist (Py.sorted (keys in_dict)) with
    | [] => ""
    | ks =>
        (if first then "" else ",")
        ++ String.concat ","
             (map (comma_separated_piece in_dict key_blacklist elemprefix) ks)
    end.
Proof.
  revert in_dict first.
  induction n as [|n IH]; intros d first Hsize Hnd; [lia|].
  rewrite dict_to_string_comma_separated_eq.
  destruct d as [|kv d0]; [reflexivity|].
  set (d := kv :: d0) in *. cbv zeta.
  destruct (getitem_least_key d) as [val Hget]; [discriminate|].
  pose proof (getitem_size _ _ _ Hget) as Hs.
  destruct (sorted_keys_cons d Hnd) as [t [Hsorted Hnotin]]; [discriminate|].
  pose proof (sorted_keys_without_least d Hnd) as Hrest.
  set (k := hd "" (Py.sorted (keys d))) in *.
  rewrite Hget, Hsorted. cbn [until_excluded].
  destruct (Py.contains key_blacklist k) eqn:Hbl; [reflexivity|].
  rewrite (IH (without d k))
    by (try apply keys_without_nodup; try assumption; lia).
  rewrite Hrest, Hsorted. cbn [tl].
  assert (map (comma_separated_piece (without d k) key_blacklist elemprefix)
            (until_excluded key_blacklist t)
          = map (comma_separated_piece d key_blacklist elemprefix)
              (until_excluded key_blacklist t)) as Hpieces.
  { apply comma_separated_piece_without.
    intros Hin. apply Hnotin. now apply (until_excluded_incl key_blacklist t). }
  assert (comma_separated_piece d key_blacklist elemprefix k
          = match val with
            | Dict val_items =>
                dict_to_string_comma_separated val_items key_blacklist
                  (k ++ ".") true
            | Scalar v => (elemprefix ++ k) ++ ":" ++ str v
            end) as Hk.
  { unfold comma_separated_piece. now rewrite Hget. }
  destruct (until_excluded key_blacklist t) as [|k' ks'] eqn:Hu.
  - cbn [map String.concat]. rewrite Hk, append_nil_r.
    destruct val, first; cbn [negb String.append]; reflexivity.
  - rewrite Hpieces. cbn [map]. rewrite concat_cons2, Hk.
    destruct val, first; cbn [negb String.append];
      repeat rewrite append_assoc; reflexivity.
Qed.

(** X2.  For a mapping with distinct keys, multi-line mode is a loop over
    the keys in ascending order: its output is, key after key, the entry of
    that key (the line of a scalar, or the header line of a nested mapping
    followed by that mapping rendered one level deeper). *)
Theorem dict_to_string_pretty_is_sorted_loop (in_dict : dict) (indent : nat) :
  NoDup (keys in_dict) ->
  dict_to_string_pretty in_dict indent
  = concat_all (map (pretty_entry in_dict indent) (Py.sorted (keys in_dict))).
Proof.
  apply (dict_to_string_pretty_sorted_loop (S (dict_size in_dict))). lia.
Qed.

Lemma dict_to_string_pretty_is_sorted_loop_witness :
  dict_to_string_pretty ex_c2 1
  = concat_all (map (pretty_entry ex_c2 1) ["Temp"; "VendorName"]).
Proof.
  apply (dict_to_string_pretty_is_sorted_loop ex_c2 1 ex_c2_keys_nodup).
Defined.

(** X3.  For a mapping with distinct keys, one-line mode takes the keys in
    ascending order up to, and without, the first excluded key.  When there
    is no such key the output is empty; otherwise it is the pieces of these
    keys with a comma between one piece and the next, after one more comma
    when the call is not the first of its level.  The piece of a scalar is
    [prefix key : value]; the piece of a nested mapping is that mapping
    rendered with the prefix [key .], which may be empty, and the commas
    around an empty piece are written all the same. *)
Theorem dict_to_string_comma_separated_is_join (in_dict : dict)
  (key_blacklist : list string) (elemprefix : string) (first : bool) :
  NoDup (keys in_dict) ->
  dict_to_string_comma_separated in_dict key_blacklist elemprefix first
  = match until_excluded key_blacklist (Py.sorted (keys in_dict)) with
    | [] => ""
    | ks =>
        (if first then "" else ",")
        ++ String.concat ","
             (map (comma_separated_piece in_dict key_blacklist elemprefix) ks)
    end.
Proof.
  apply (dict_to_string_comma_separated_sorted_loop (S (dict_size in_dict))).
  lia.
Qed.

Lemma dict_to_string_comma_separated_is_join_witness :
  dict_to_string_comma_separated ex_c2 [] "" true
  = String.concat ","
      (map (comma_separated_piece ex_c2 [] "") ["Temp"; "VendorName"]).
Proof.
  apply (dict_to_string_comma_separated_is_join ex_c2 [] "" true
           ex_c2_keys_nodup).
Defined.

(* ================================================================== *)
(** * Order of insertion *)
(* ================================================================== *)

Lemma same_mapping_rendering (n : nat) (d d' : dict) :
  (dict_size d < n)%nat -> same_mapping d d' ->
  (forall indent, dict_to_string_pretty d indent = dict_to_string_pretty d' indent)
  /\ (forall key_blacklist elemprefix first,
         dict_to_string_comma_separated d key_blacklist elemprefix first
         = dict_to_string_comma_separated d' key_blacklist elemprefix first).
Proof.
  revert d d'. induction n as [|n IH]; intros d d' Hsize Hsame; [lia|].
  inversion Hsame as [? ? Hnd Hnd' Hperm Hvals]; subst.
  assert (forall k, In k (Py.sorted (keys d)) ->
            exists v v', getitem d k = Some v /\ getitem d' k = Some v'
                         /\ same_value v v') as Hkey.
  { intros k Hk.
    apply (Permutation_in _ (sorted_perm (keys d))) in Hk.
    destruct (getitem_keys d k Hk) as [v Hv].
    destruct (getitem_keys d' k (Permutation_in _ Hperm Hk)) as [v' Hv'].
    exists v, v'. repeat split; try assumption. now apply (Hvals k). }
  split.
  - intros indent.
    rewrite (dict_to_string_pretty_sorted_loop (S (dict_size d)) d)
      by (try assumption; lia).
    rewrite (dict_to_string_pretty_sorted_loop (S (dict_size d')) d')
      by (try assumption; lia).
    rewrite <- (sorted_permutation _ _ Hperm).
    f_equal. apply map_ext_in. intros k Hk.
    destruct (Hkey k Hk) as [v [v' [Hv [Hv' Hvv]]]].
    unfold pretty_entry. rewrite Hv, Hv'.
    inversion Hvv as [|sub sub' Hsub]; subst; [reflexivity|].
    pose proof (getitem_size _ _ _ Hv) as Hs.
    change (field_size (Dict sub)) with (dict_size sub) in Hs.
    now rewrite (proj1 (IH sub sub' ltac:(lia) Hsub)).
  - intros key_blacklist elemprefix first.
    rewrite (dict_to_string_comma_separated_sorted_loop (S (dict_size d)) d)
      by (try assumption; lia).
    rewrite (dict_to_string_comma_separated_sorted_loop (S (dict_size d')) d')
      by (try assumption; lia).
    rewrite <- (sorted_permutation _ _ Hperm).
    pose proof (until_excluded_incl key_blacklist (Py.sorted (keys d)))
      as Hincl.
    destruct (until_excluded key_blacklist (Py.sorted (keys d)))
      as [|k0 ks]; [reflexivity|].
    f_equal. f_equal. apply map_ext_in. intros k Hk.
    destruct (Hkey k (Hincl k Hk)) as [v [v' [Hv [Hv' Hvv]]]].
    unfold comma_separated_piece. rewrite Hv, Hv'.
    inversion Hvv as [|sub sub' Hsub]; subst; [reflexivity|].
    pose proof (getitem_size _ _ _ Hv) as Hs.
    change (field_size (Dict sub)) with (dict_size sub) in Hs.
    now rewrite (proj2 (IH sub sub' ltac:(lia) Hsub)).
Qed.

(** X1.  Both dictionary renderers print the same text for two mappings
    that hold, at every level, the same distinct keys with the same values,
    whatever the order in which the keys were inserted at any level: the
    output depends on the mapping, not on the order of insertion. *)
Theorem rendering_ignores_insertion_order (d d' : dict) (indent : nat)
  (key_blacklist : list string) (elemprefix : string) (first : bool) :
  same_mapping d d' ->
  dict_to_string_pretty d indent = dict_to_string_pretty d' indent
  /\ dict_to_string_comma_separated d key_blacklist elemprefix first
     = dict_to_string_comma_separated d' key_blacklist elemprefix first.
Proof.
  intros Hsame.
  destruct (same_mapping_rendering (S (dict_size d)) d d' ltac:(lia) Hsame)
    as [Hp Hc].
  split; [apply Hp|apply Hc].
Qed.

Lemma ex_c2_same_mapping : same_mapping ex_c2 ex_c2_reordered.
Proof.
  constructor.
  - apply ex_c2_keys_nodup.
  - repeat constructor; simpl; intuition discriminate.
  - apply perm_swap.
  - intros k v v'. unfold ex_c2, ex_c2_reordered. cbn [getitem].
    destruct (String.eqb_spec "VendorName" k) as [<-|Hv].
    + cbn. intros [= <-] [= <-]. constructor.
    + destruct (String.eqb_spec "Temp" k) as [<-|Ht]; [|discriminate].
      intros [= <-] [= <-]. constructor. constructor.
      * repeat constructor; simpl; intuition discriminate.
      * repeat constructor; simpl; intuition discriminate.
      * apply perm_swap.
      * intros k v v'. cbn [getitem].
        destruct (String.eqb_spec "High" k) as [<-|Hh].
        -- cbn. intros [= <-] [= <-]. constructor.
        -- destruct (String.eqb_spec "Low" k) as [<-|Hl]; [|discriminate].
           intros [= <-] [= <-]. constructor.
Qed.

Lemma rendering_ignores_insertion_order_witness :
  dict_to_string_pretty ex_c2 1 = dict_to_string_pretty ex_c2_reordered 1
  /\ dict_to_string_comma_separated ex_c2 ["Low"] "" true
     = dict_to_string_comma_separated ex_c2_reordered ["Low"] "" true.
Proof.
  apply (rendering_ignores_insertion_order ex_c2 ex_c2_reordered 1 ["Low"] ""
           true ex_c2_same_mapping).
Defined.

(* ================================================================== *)
(** * More on the raw dump *)
(* ================================================================== *)

Lemma raw_from_shift_rows (k : nat) (ts : list string) (i : nat) :
  (0 < i)%nat -> raw_from (i + 16 * k) ts = raw_from i ts.
Proof.
  intros Hi. induction k as [|k IH].
  - now rewrite Nat.mul_0_r, Nat.add_0_r.
  - replace (i + 16 * S k)%nat with ((i + 16 * k) + 16)%nat by lia.
    rewrite raw_from_shift by lia. exact IH.
Qed.

Lemma separator_row_start (k : nat) :
  (0 < k)%nat -> separator (16 * k) = " " ++ Py.nl.
Proof.
  intros Hk. unfold separator.
  replace (0 <? 16 * k)%nat with true by (symmetry; apply Nat.ltb_lt; lia).
  replace ((16 * k) mod 8)%nat with 0%nat.
  2:{ symmetry. replace (16 * k)%nat with (0 + (2 * k) * 8)%nat by lia.
      now rewrite Nat.Div0.mod_add. }
  replace ((16 * k) mod 16)%nat with 0%nat.
  2:{ symmetry. replace (16 * k)%nat with (0 + k * 16)%nat by lia.
      now rewrite Nat.Div0.mod_add. }
  reflexivity.
Qed.

(** X4.  Dumps compose by whole rows: when the first part holds a whole
    number of rows (a positive multiple of 16 tokens) and more tokens
    follow, the dump of the whole is the dump of the first part, the extra
    space and the line break, and the dump of the rest. *)
Theorem raw_dump_composes_by_rows (a b : list string) (k : nat) :
  length a = (16 * k)%nat -> (0 < k)%nat -> b <> [] ->
  raw_bytes_to_string_pretty (a ++ b)%list
  = raw_bytes_to_string_pretty a ++ " " ++ Py.nl
    ++ raw_bytes_to_string_pretty b.
Proof.
  intros Hlen Hk Hb.
  rewrite !raw_bytes_to_string_pretty_from, raw_from_app, Hlen.
  f_equal. cbn [Nat.add].
  destruct b as [|t b]; [contradiction|].
  cbn [raw_from]. rewrite separator_row_start, separator_0 by assumption.
  replace (S (16 * k)) with (1 + 16 * k)%nat by lia.
  rewrite raw_from_shift_rows by lia.
  cbn [String.append]. reflexivity.
Qed.

Lemma raw_dump_composes_by_rows_witness :
  raw_bytes_to_string_pretty
    ((ex_raw10 ++ firstn 6 ex_raw10) ++ ex_raw10)%list
  = raw_bytes_to_string_pretty (ex_raw10 ++ firstn 6 ex_raw10)%list
    ++ " " ++ Py.nl ++ raw_bytes_to_string_pretty ex_raw10.
Proof.
  apply (raw_dump_composes_by_rows (ex_raw10 ++ firstn 6 ex_raw10)%list
           ex_raw10 1).
  - reflexivity.
  - lia.
  - discriminate.
Defined.

Lemma count_char_app (c : ascii) (a b : string) :
  count_char c (a ++ b) = (count_char c a + count_char c b)%nat.
Proof.
  induction a as [|x a IH]; simpl; [reflexivity|].
  rewrite IH. lia.
Qed.

Lemma count_nl_no_blank (t : string) :
  no_blank t = true -> count_char Py.nl_char t = 0%nat.
Proof.
  induction t as [|c t IH]; simpl; [reflexivity|].
  intros H. apply andb_true_iff in H as [Hc Ht].
  unfold is_blank in Hc.
  apply negb_true_iff, orb_false_iff in Hc as [_ Hnl].
  rewrite Hnl. now apply IH.
Qed.

Lemma is_token_no_blank (t : string) : is_token t = true -> no_blank t = true.
Proof. destruct t; [discriminate|trivial]. Qed.

Lemma count_nl_group (ts : list string) :
  forallb is_token ts = true -> count_char Py.nl_char (group ts) = 0%nat.
Proof.
  induction ts as [|t ts IH]; [reflexivity|].
  cbn [forallb group].
  intros H. apply andb_true_iff in H as [Ht Hts].
  rewrite !count_char_app, IH by assumption.
  rewrite count_nl_no_blank by now apply is_token_no_blank.
  reflexivity.
Qed.

Lemma forallb_firstn {A} (f : A -> bool) (n : nat) (l : list A) :
  forallb f l = true -> forallb f (firstn n l) = true.
Proof.
  intros H. rewrite <- (firstn_skipn n l), forallb_app in H.
  now apply andb_true_iff in H.
Qed.

Lemma forallb_skipn {A} (f : A -> bool) (n : nat) (l : list A) :
  forallb f l = true -> forallb f (skipn n l) = true.
Proof.
  intros H. rewrite <- (firstn_skipn n l), forallb_app in H.
  now apply andb_true_iff in H.
Qed.

Lemma count_nl_row (row : list string) :
  forallb is_token row = true ->
  count_char Py.nl_char (row_layout row) = 0%nat.
Proof.
  intros H. unfold row_layout.
  destruct (skipn 8 row) as [|t second] eqn:Hs.
  - now apply count_nl_group.
  - rewrite !count_char_app.
    rewrite count_nl_group by now apply forallb_firstn.
    rewrite count_nl_group; [reflexivity|].
    rewrite <- Hs. now apply forallb_skipn.
Qed.

Lemma count_nl_rows (fuel : nat) (ts : list string) :
  (length ts < fuel)%nat -> forallb is_token ts = true ->
  count_char Py.nl_char (rows_layout fuel ts) = ((length ts - 1) / 16)%nat.
Proof.
  revert ts. induction fuel as [|fuel IH]; intros ts Hfuel Hok; [lia|].
  cbn [rows_layout].
  destruct (skipn 16 ts) as [|r rest] eqn:Hskip.
  - assert (length (skipn 16 ts) = 0)%nat as Hl by now rewrite Hskip.
    rewrite length_skipn in Hl.
    rewrite count_nl_row by assumption.
    symmetry. apply Nat.div_small. lia.
  - assert (length (skipn 16 ts) = S (length rest)) as Hl by now rewrite Hskip.
    rewrite length_skipn in Hl.
    rewrite !count_char_app.
    rewrite count_nl_row by now apply forallb_firstn.
    rewrite IH; [| simpl; lia | rewrite <- Hskip; now apply forallb_skipn ].
    cbn [length].
    replace (length ts - 1)%nat with (length rest + 1 * 16)%nat by lia.
    rewrite Nat.div_add by lia.
    replace (S (length rest) - 1)%nat with (length rest) by lia.
    cbn. lia.
Qed.

(** X5.  The dump of N well-formed tokens holds (N - 1) / 16 line breaks
    (none for an empty list): a line break comes before the 17th, 33rd, ...
    token and never after the last one, so 16 tokens give one row without a
    line break and a 256-byte EEPROM gives 15 line breaks. *)
Theorem raw_dump_line_breaks (raw_bytes : list string) :
  forallb is_token raw_bytes = true ->
  count_char Py.nl_char (raw_bytes_to_string_pretty raw_bytes)
  = ((length raw_bytes - 1) / 16)%nat.
Proof.
  intros Hok. rewrite raw_bytes_to_string_pretty_layout.
  apply count_nl_rows; [lia|assumption].
Qed.

Lemma raw_dump_line_breaks_witness :
  count_char Py.nl_char
    (raw_bytes_to_string_pretty (ex_raw10 ++ firstn 6 ex_raw10)%list)
  = 0%nat.
Proof.
  apply (raw_dump_line_breaks (ex_raw10 ++ firstn 6 ex_raw10)%list).
  reflexivity.
Defined.

(* ================================================================== *)
(** * The raw driver and the error paths of the drivers *)
(* ================================================================== *)

Lemma concat_all_app (a b : list string) :
  concat_all (a ++ b)%list = concat_all a ++ concat_all b.
Proof.
  induction a as [|x a IH]; simpl; [reflexivity|].
  now rewrite IH, append_assoc.
Qed.

Lemma raw_lane_next (pf : SfpUtil) (logical_port_name : string)
  (ganged : bool) (result : string) (i : Z) (physical_port : Z) :
  raw_lane pf logical_port_name ganged (result, i) physical_port
  = Next (result
          ++ raw_block pf (get_physical_port_name logical_port_name i ganged)
               physical_port,
          (i + 1)%Z).
Proof.
  unfold raw_lane, raw_block, detected_raw, get_sfp_eeprom_status_string.
  destruct (get_presence pf physical_port); cbn [negb].
  - destruct (get_eeprom_raw pf physical_port) as [raw|];
      repeat rewrite append_assoc; reflexivity.
  - repeat rewrite append_assoc. reflexivity.
Qed.

Lemma raw_loop (pf : SfpUtil) (logical_port_name : string) (ganged : bool)
  (lanes : list Z) (result : string) (i : Z) :
  for_each (raw_lane pf logical_port_name ganged) lanes (result, i)
  = Next (result
          ++ concat_all (raw_blocks pf logical_port_name ganged i lanes),
          (i + Z.of_nat (length lanes))%Z).
Proof.
  revert result i. induction lanes as [|p lanes IH]; intros result i.
  - simpl. now rewrite append_nil_r, Z.add_0_r.
  - cbn [for_each]. rewrite raw_lane_next, IH.
    cbn [raw_blocks concat_all length].
    rewrite append_assoc. f_equal. f_equal. lia.
Qed.

Lemma raw_blocks_length (pf : SfpUtil) (logical_port_name : string)
  (ganged : bool) (i : Z) (lanes : list Z) :
  length (raw_blocks pf logical_port_name ganged i lanes) = length lanes.
Proof.
  revert i. induction lanes as [|p lanes IH]; intros i; simpl; [reflexivity|].
  now rewrite IH.
Qed.

Lemma raw_blocks_nth (pf : SfpUtil) (logical_port_name : string)
  (ganged : bool) (i : Z) (lanes : list Z) (k : nat) (p : Z) :
  nth_error lanes k = Some p ->
  nth_error (raw_blocks pf logical_port_name ganged i lanes) k
  = Some (raw_block pf
            (get_physical_port_name logical_port_name (i + Z.of_nat k) ganged)
            p).
Proof.
  revert i k. induction lanes as [|p' lanes IH]; intros i k Hk.
  - destruct k; discriminate.
  - destruct k as [|k]; cbn [nth_error raw_blocks] in *.
    + injection Hk as ->. now rewrite Z.add_0_r.
    + rewrite (IH (i + 1)%Z k Hk). do 3 f_equal. lia.
Qed.

Lemma resolver_unknown_port {int : string -> option Z}
  (pf : SfpUtil) (name : string) :
  Py.startswith name "Ethernet" = true ->
  is_logical_port pf name = false ->
  logical_port_name_to_physical_port_list int pf name
  = (["Error: Invalid port '" ++ name ++ "'"], Returns None).
Proof.
  intros Hs Hl. unfold logical_port_name_to_physical_port_list.
  now rewrite Hs, Hl.
Qed.

Lemma resolver_not_a_literal {int : string -> option Z}
  (pf : SfpUtil) (name : string) :
  Py.startswith name "Ethernet" = false ->
  int name = None ->
  logical_port_name_to_physical_port_list int pf name = ([], Raises ValueError).
Proof.
  intros Hs Hn. unfold logical_port_name_to_physical_port_list.
  now rewrite Hs, Hn.
Qed.

Lemma resolver_literal {int : string -> option Z} (pf : SfpUtil)
  (name : string) (n : Z) :
  Py.startswith name "Ethernet" = false ->
  int name = Some n ->
  logical_port_name_to_physical_port_list int pf name
  = ([], Returns (Some [n])).
Proof.
  intros Hs Hn. unfold logical_port_name_to_physical_port_list.
  now rewrite Hs, Hn.
Qed.

Lemma port_eeprom_data_raw_string_pretty_lanes {int : string -> option Z}
  (pf : SfpUtil)
  (logical_port_name : string) (out : list string) (lanes : list Z) :
  logical_port_name_to_physical_port_list int pf logical_port_name
  = (out, Returns (Some lanes)) ->
  port_eeprom_data_raw_string_pretty int pf logical_port_name
  = (out,
     Returns
       (Some (concat_all
                (raw_blocks pf logical_port_name (1 <? length lanes)%nat 1
                   lanes)))).
Proof.
  intros Hres. unfold port_eeprom_data_raw_string_pretty.
  rewrite Hres, bind_returns, raw_loop.
  cbn [ret fst snd String.append]. rewrite app_nil_r.
  now destruct (1 <? length lanes)%nat.
Qed.

Lemma port_eeprom_data_string_pretty_oneline_lanes {int : string -> option Z}
  (pf : SfpUtil)
  (logical_port_name : string) (bl1 bl2 : list string) (dump_dom : bool)
  (out : list string) (lanes : list Z) :
  logical_port_name_to_physical_port_list int pf logical_port_name
  = (out, Returns (Some lanes)) ->
  port_eeprom_data_string_pretty_oneline int pf logical_port_name bl1 bl2 dump_dom
  = (out,
     Returns
       (Some (unlines
                (oneline_bodies pf logical_port_name bl1 bl2 dump_dom
                   (1 <? length lanes)%nat 1 lanes)))).
Proof.
  intros Hres. unfold port_eeprom_data_string_pretty_oneline.
  rewrite Hres, bind_returns, oneline_loop.
  cbn [ret fst snd String.append]. rewrite app_nil_r.
  now destruct (1 <? length lanes)%nat.
Qed.

(** X6.  The raw driver renders every lane of the logical port: its result
    is the blocks of the lanes one after the other, in resolver order, the
    block of the lane at position [k] (from 0) carrying the display name of
    lane number [k + 1]. *)
Theorem raw_driver_renders_every_lane (int : string -> option Z) (pf : SfpUtil)
  (logical_port_name : string) (out : list string) (lanes : list Z) :
  logical_port_name_to_physical_port_list int pf logical_port_name
  = (out, Returns (Some lanes)) ->
  let blocks :=
    raw_blocks pf logical_port_name (1 <? length lanes)%nat 1 lanes in
  port_eeprom_data_raw_string_pretty int pf logical_port_name
  = (out, Returns (Some (concat_all blocks)))
  /\ length blocks = length lanes
  /\ (forall k p,
         nth_error lanes k = Some p ->
         nth_error blocks k
         = Some (raw_block pf
                   (get_physical_port_name logical_port_name
                      (1 + Z.of_nat k) (1 <? length lanes)%nat)
                   p)).
Proof.
  intros Hres blocks. subst blocks.
  split; [|split].
  - now apply port_eeprom_data_raw_string_pretty_lanes.
  - apply raw_blocks_length.
  - intros k p. apply raw_blocks_nth.
Qed.

Lemma raw_driver_renders_every_lane_witness :
  port_eeprom_data_raw_string_pretty ex_int ex_platform "Ethernet0"
  = ([],
     Returns
       (Some (concat_all (raw_blocks ex_platform "Ethernet0" true 1 [5; 6]%Z)))).
Proof.
  apply (raw_driver_renders_every_lane ex_int ex_platform "Ethernet0" [] [5; 6]%Z).
  reflexivity.
Defined.

Lemma drivers_error_paths_helper {int : string -> option Z}
  (pf : SfpUtil) (name : string)
  (dump_dom : bool) :
  (Py.startswith name "Ethernet" = true ->
   is_logical_port pf name = false ->
   forall bl1 bl2,
   let errors :=
     ["Error: Invalid port '" ++ name ++ "'";
      "Error: No physical ports found for logical port '" ++ name ++ "'"] in
   port_eeprom_data_string_pretty int pf name dump_dom
   = (errors, Returns (Some ""))
   /\ port_eeprom_data_string_pretty_oneline int pf name bl1 bl2 dump_dom
      = (errors, Returns (Some ""))
   /\ port_eeprom_data_raw_string_pretty int pf name
      = (errors, Returns (Some "")))
  /\ (Py.startswith name "Ethernet" = false ->
      int name = None ->
      port_eeprom_data_string_pretty int pf name dump_dom = ([], Raises ValueError)
      /\ (forall bl1 bl2,
             port_eeprom_data_string_pretty_oneline int pf name bl1 bl2 dump_dom
             = ([], Raises ValueError))
      /\ port_eeprom_data_raw_string_pretty int pf name = ([], Raises ValueError)).
Proof.
  split.
  - intros Hs Hl bl1 bl2 errors.
    pose proof (resolver_unknown_port (int:=int) pf name Hs Hl) as Hres.
    unfold port_eeprom_data_string_pretty,
      port_eeprom_data_string_pretty_oneline,
      port_eeprom_data_raw_string_pretty.
    rewrite Hres. repeat split.
  - intros Hs Hn.
    pose proof (resolver_not_a_literal pf name Hs Hn) as Hres.
    unfold port_eeprom_data_string_pretty,
      port_eeprom_data_string_pretty_oneline,
      port_eeprom_data_raw_string_pretty.
    rewrite Hres. repeat split.
Qed.

Lemma presence_loop_prefix (pf : SfpUtil) (logical_port_name : string)
  (ganged : bool) (lanes : list Z) (output_table : list (string * string))
  (i : Z) :
  match for_each (presence_lane pf logical_port_name ganged) lanes
          (output_table, i) with
  | Next (table, _) => exists more, table = (output_table ++ more)%list
  | Return _ => False
  end.
Proof.
  revert output_table i.
  induction lanes as [|q lanes IH]; intros output_table i.
  - exists []. now rewrite app_nil_r.
  - cbn [for_each presence_lane].
    match goal with
    | |- match for_each _ _ (?t, ?j) with _ => _ end =>
        specialize (IH t j);
        destruct (for_each (presence_lane pf logical_port_name ganged) lanes
                    (t, j)) as [[table j']|[]]; [|exact IH]
    end.
    destruct IH as [more ->].
    destruct (get_presence pf q); rewrite <- app_assoc; eexists; reflexivity.
Qed.

(** The row the lane loop of [presence] adds for the lane at position
    [k]. *)
Lemma presence_loop_rows (pf : SfpUtil) (logical_port_name : string)
  (ganged : bool) (lanes : list Z) (output_table : list (string * string))
  (i : Z) (k : nat) (p : Z) :
  nth_error lanes k = Some p ->
  match for_each (presence_lane pf logical_port_name ganged) lanes
          (output_table, i) with
  | Next (table, _) =>
      option_map snd (nth_error table (length output_table + k))
      = Some (if get_presence pf p then "Present" else "Not present")
  | Return _ => False
  end.
Proof.
  revert output_table i k.
  induction lanes as [|q lanes IH]; intros output_table i k Hk.
  - destruct k; discriminate.
  - cbn [for_each presence_lane].
    set (table1 :=
           if get_presence pf q
           then (output_table
                 ++ [(get_physical_port_name logical_port_name i ganged,
                      "Present")])%list
           else (output_table
                 ++ [(get_physical_port_name logical_port_name i ganged,
                      "Not present")])%list).
    assert (length table1 = S (length output_table)) as Hlen.
    { subst table1. destruct (get_presence pf q);
        rewrite length_app; simpl; lia. }
    destruct k as [|k]; cbn [nth_error] in Hk.
    + injection Hk as ->.
      destruct (presence_loop pf logical_port_name ganged lanes table1
                  (i + 1)%Z) as [table [Hloop _]].
      pose proof (presence_loop_prefix pf logical_port_name ganged lanes
                    table1 (i + 1)%Z) as Hpre.
      rewrite Hloop in Hpre |- *. destruct Hpre as [more ->].
      rewrite Nat.add_0_r, nth_error_app1 by lia.
      subst table1. destruct (get_presence pf p);
        rewrite nth_error_app2, Nat.sub_diag by lia; reflexivity.
    + specialize (IH table1 (i + 1)%Z k Hk).
      destruct (for_each _ lanes (table1, (i + 1)%Z)) as [[table j]|[]];
        [|exact IH].
      rewrite Hlen in IH.
      now replace (length output_table + S k)%nat
        with (S (length output_table) + k)%nat by lia.
Qed.

(** X7.  The error paths of the three drivers.  For a name that starts
    with [Ethernet] and that the port table does not know, each driver
    reports the invalid port, reports that no physical ports were found, and
    returns the empty string.  For an identifier that does not start with
    [Ethernet] and on which [int] raises [ValueError], each driver raises
    [ValueError] and prints nothing. *)
Theorem drivers_error_paths (int : string -> option Z)
  (pf : SfpUtil) (name : string)
  (dump_dom : bool) (bl1 bl2 : list string) :
  (Py.startswith name "Ethernet" = true ->
   is_logical_port pf name = false ->
   let errors :=
     ["Error: Invalid port '" ++ name ++ "'";
      "Error: No physical ports found for logical port '" ++ name ++ "'"] in
   port_eeprom_data_string_pretty int pf name dump_dom
   = (errors, Returns (Some ""))
   /\ port_eeprom_data_string_pretty_oneline int pf name bl1 bl2 dump_dom
      = (errors, Returns (Some ""))
   /\ port_eeprom_data_raw_string_pretty int pf name
      = (errors, Returns (Some "")))
  /\ (Py.startswith name "Ethernet" = false ->
      int name = None ->
      port_eeprom_data_string_pretty int pf name dump_dom = ([], Raises ValueError)
      /\ port_eeprom_data_string_pretty_oneline int pf name bl1 bl2 dump_dom
         = ([], Raises ValueError)
      /\ port_eeprom_data_raw_string_pretty int pf name = ([], Raises ValueError)).
Proof.
  split.
  - intros Hs Hl errors.
    pose proof (resolver_unknown_port (int:=int) pf name Hs Hl) as Hres.
    unfold port_eeprom_data_string_pretty,
      port_eeprom_data_string_pretty_oneline,
      port_eeprom_data_raw_string_pretty.
    rewrite Hres. repeat split.
  - intros Hs Hn.
    pose proof (resolver_not_a_literal pf name Hs Hn) as Hres.
    unfold port_eeprom_data_string_pretty,
      port_eeprom_data_string_pretty_oneline,
      port_eeprom_data_raw_string_pretty.
    rewrite Hres. repeat split.
Qed.

Lemma drivers_error_paths_witness :
  port_eeprom_data_raw_string_pretty ex_int ex_platform "Ethernet12"
  = (["Error: Invalid port 'Ethernet12'";
      "Error: No physical ports found for logical port 'Ethernet12'"],
     Returns (Some ""))
  /\ port_eeprom_data_string_pretty ex_int ex_platform "abc" true
     = ([], Raises ValueError).
Proof.
  pose proof (drivers_error_paths ex_int ex_platform "Ethernet12" true [] []) as H1.
  pose proof (drivers_error_paths ex_int ex_platform "abc" true [] []) as H2.
  split.
  - exact (proj2 (proj2 (proj1 H1 eq_refl eq_refl))).
  - exact (proj1 (proj2 H2 eq_refl eq_refl)).
Defined.

(** X8.  Direct addressing.  An identifier that does not start with
    [Ethernet] and that [int] reads as the integer [n] addresses the
    physical lane [n] and no other: multi-line mode returns the block of
    lane [n] and the raw driver its raw block, both under the identifier
    itself as display name, one-line mode returns the line of lane [n], and
    no driver prints a message. *)
Theorem drivers_address_physical_index (int : string -> option Z)
  (pf : SfpUtil) (name : string) (n : Z) (dump_dom : bool)
  (bl1 bl2 : list string) :
  Py.startswith name "Ethernet" = false ->
  int name = Some n ->
  port_eeprom_data_string_pretty int pf name dump_dom
  = ([], Returns (Some (pretty_block pf name n dump_dom)))
  /\ port_eeprom_data_raw_string_pretty int pf name
     = ([], Returns (Some (raw_block pf name n)))
  /\ port_eeprom_data_string_pretty_oneline int pf name bl1 bl2 dump_dom
     = ([],
        Returns
          (Some (oneline_body pf name bl1 bl2 dump_dom false 1 n ++ Py.nl))).
Proof.
  intros Hs Hn.
  pose proof (resolver_literal pf name n Hs Hn) as Hres.
  split; [|split].
  - now rewrite (port_eeprom_data_string_pretty_lanes _ _ _ _ _ Hres).
  - rewrite (port_eeprom_data_raw_string_pretty_lanes _ _ _ _ Hres).
    cbn. now rewrite append_nil_r.
  - now rewrite (port_eeprom_data_string_pretty_oneline_lanes
                   _ _ bl1 bl2 dump_dom _ _ Hres).
Qed.

Lemma drivers_address_physical_index_witness :
  port_eeprom_data_raw_string_pretty ex_int ex_platform "7"
  = ([], Returns (Some (raw_block ex_platform "7" 7))).
Proof.
  apply (drivers_address_physical_index ex_int ex_platform "7" 7 false [] []);
    reflexivity.
Defined.

(* ================================================================== *)
(** * The commands *)
(* ================================================================== *)

Lemma cbind_done {A B} (evs : list event) (a : A) (k : A -> Cmd B) :
  cbind (evs, Done a) k = ((evs ++ fst (k a))%list, snd (k a)).
Proof. unfold cbind. now destruct (k a). Qed.

Lemma calls_app (a b : list event) :
  calls (a ++ b)%list = (calls a ++ calls b)%list.
Proof. apply filter_app. Qed.

Lemma calls_echoes (lines : list string) :
  calls (map (fun line => Echo line true) lines) = [].
Proof. induction lines as [|l lines IH]; [reflexivity|exact IH]. Qed.

Lemma call_returns {A} (out : list string) (a : A) :
  call (out, Returns a) = (map (fun line => Echo line true) out, Done a).
Proof. reflexivity. Qed.

Section CommandFacts.

Variable int : string -> option Z.
Variable pf : SfpUtil.
Variable pc : SfpUtilCalls.
Variable str_of_list : list string -> string.

Lemma check_port_invalid (port : string) :
  is_valid_sfputil_port pc port = 0%Z ->
  check_port pf pc str_of_list port = (invalid_port_messages pf str_of_list port, Exit 4).
Proof. intros H. unfold check_port. now rewrite H. Qed.

Lemma check_port_valid (port : string) :
  is_valid_sfputil_port pc port <> 0%Z ->
  check_port pf pc str_of_list port = ([], Done tt).
Proof.
  intros H. unfold check_port.
  now destruct (Z.eqb_spec (is_valid_sfputil_port pc port) 0).
Qed.

(** X9.  Every command that takes a port checks it first: when the plugin
    does not accept the port ([is_valid_sfputil_port] gives 0), the command
    prints the invalid-port message and the list of valid ports and leaves
    with exit code 4, without resolving the port and without calling any
    guarded plugin method. *)
Theorem commands_reject_invalid_port (port : string)
  (dump_dom oneline raw enable : bool) :
  is_valid_sfputil_port pc port = 0%Z ->
  eeprom int pf pc str_of_list (Some port) dump_dom oneline raw
  = (invalid_port_messages pf str_of_list port, Exit 4)
  /\ presence int pf pc str_of_list (Some port)
     = (invalid_port_messages pf str_of_list port, Exit 4)
  /\ show_lpmode int pf pc str_of_list (Some port)
     = (invalid_port_messages pf str_of_list port, Exit 4)
  /\ set_lpmode int pf pc str_of_list port enable
     = (invalid_port_messages pf str_of_list port, Exit 4)
  /\ reset int pf pc str_of_list port = (invalid_port_messages pf str_of_list port, Exit 4).
Proof.
  intros H.
  unfold eeprom, presence, show_lpmode, set_lpmode, reset, ports_of_interest.
  rewrite (check_port_invalid port H).
  repeat split.
Qed.

(** The lane loop of [reset]. *)
Lemma reset_loop (port_name : string) (ganged : bool) (lanes : list Z) (i : Z) :
  let supported := fun p => is_some (plugin_reset pc p) in
  let r := cfor (reset_lane pc port_name ganged) lanes i in
  calls (fst r) = map CallReset (attempted supported lanes)
  /\ snd r = (if forallb supported lanes
              then Done (Next (i + Z.of_nat (length lanes))%Z)
              else Exit 5).
Proof.
  cbv zeta. revert i.
  induction lanes as [|p lanes IH]; intros i.
  - cbn. now rewrite Z.add_0_r.
  - cbn [cfor attempted forallb length].
    unfold reset_lane at 1 3.
    destruct (plugin_reset pc p) as [result|] eqn:Hp; cbn [is_some andb].
    + destruct (IH (i + 1)%Z) as [IHc IHe].
      destruct (cfor (reset_lane pc port_name ganged) lanes (i + 1)%Z)
        as [evs e] eqn:Hloop.
      cbn [fst snd] in IHc, IHe.
      destruct result; cbn; rewrite Hloop; cbn;
        (split; [unfold calls in IHc; rewrite IHc; reflexivity|]);
        rewrite IHe; destruct (forallb _ lanes); try reflexivity;
        do 2 f_equal; lia.
    + cbn. split; reflexivity.
Qed.

(** X10.  [reset] on a port the plugin accepts and the resolver resolves:
    the plugin's [reset] is called on the lanes in resolver order, once
    each, up to and including the first lane on which it raises
    [NotImplementedError]; no later lane is tried.  The command returns
    when every lane is supported and leaves with exit code 5 otherwise. *)
Theorem reset_stops_at_first_unsupported_lane (port_name : string)
  (out : list string) (lanes : list Z) :
  is_valid_sfputil_port pc port_name <> 0%Z ->
  logical_port_name_to_physical_port_list int pf port_name
  = (out, Returns (Some lanes)) ->
  let supported := fun p => is_some (plugin_reset pc p) in
  calls (fst (reset int pf pc str_of_list port_name))
  = map CallReset (attempted supported lanes)
  /\ snd (reset int pf pc str_of_list port_name)
     = (if forallb supported lanes then Done tt else Exit 5).
Proof.
  intros Hvalid Hres supported.
  unfold reset. rewrite (check_port_valid _ Hvalid), cbind_done.
  rewrite Hres, call_returns, cbind_done.
  destruct (reset_loop port_name
              (if (1 <? length lanes)%nat then true else false) lanes 1)
    as [Hc He].
  destruct (cfor _ lanes 1%Z) as [evs e] eqn:Hloop.
  cbn [fst snd] in Hc, He. subst e.
  fold supported. cbn [fst snd app].
  destruct (forallb supported lanes); cbn [cbind fst snd cret];
    rewrite ?calls_app, calls_echoes, ?app_nil_r; cbn [app];
    (split; [exact Hc|reflexivity]).
Qed.

(** The lane loop of [set_lpmode]. *)
Lemma set_lpmode_loop (logical_port : string) (enable ganged : bool)
  (lanes : list Z) (i : Z) :
  let supported := fun p => is_some (plugin_set_low_power_mode pc p enable) in
  let r := cfor (set_lpmode_lane pc logical_port enable ganged) lanes i in
  calls (fst r)
  = map (fun p => CallSetLowPowerMode p enable) (attempted supported lanes)
  /\ snd r = (if forallb supported lanes
              then Done (Next (i + Z.of_nat (length lanes))%Z)
              else Exit 5).
Proof.
  cbv zeta. revert i.
  induction lanes as [|p lanes IH]; intros i.
  - cbn. now rewrite Z.add_0_r.
  - cbn [cfor attempted forallb length].
    unfold set_lpmode_lane at 1 3.
    destruct (plugin_set_low_power_mode pc p enable) as [result|] eqn:Hp;
      cbn [is_some andb].
    + destruct (IH (i + 1)%Z) as [IHc IHe].
      destruct (cfor (set_lpmode_lane pc logical_port enable ganged) lanes
                  (i + 1)%Z) as [evs e] eqn:Hloop.
      cbn [fst snd] in IHc, IHe.
      destruct result; cbn; rewrite Hloop; cbn;
        (split; [unfold calls in IHc; rewrite IHc; reflexivity|]);
        rewrite IHe; destruct (forallb _ lanes); try reflexivity;
        do 2 f_equal; lia.
    + cbn. split; reflexivity.
Qed.

(** X11.  [lpmode on] and [lpmode off] on a port the plugin accepts and the
    resolver resolves: [set_low_power_mode] is called with [True] (on) or
    [False] (off) on the lanes in resolver order, once each, up to and
    including the first lane on which it raises [NotImplementedError]; the
    command returns when every lane is supported and leaves with exit code 5
    otherwise. *)
Theorem lpmode_stops_at_first_unsupported_lane (port_name : string)
  (out : list string) (lanes : list Z) :
  is_valid_sfputil_port pc port_name <> 0%Z ->
  logical_port_name_to_physical_port_list int pf port_name
  = (out, Returns (Some lanes)) ->
  (let supported := fun p => is_some (plugin_set_low_power_mode pc p true) in
   calls (fst (lpmode_on int pf pc str_of_list port_name))
   = map (fun p => CallSetLowPowerMode p true) (attempted supported lanes)
   /\ snd (lpmode_on int pf pc str_of_list port_name)
      = (if forallb supported lanes then Done tt else Exit 5))
  /\ (let supported :=
        fun p => is_some (plugin_set_low_power_mode pc p false) in
      calls (fst (lpmode_off int pf pc str_of_list port_name))
      = map (fun p => CallSetLowPowerMode p false) (attempted supported lanes)
      /\ snd (lpmode_off int pf pc str_of_list port_name)
         = (if forallb supported lanes then Done tt else Exit 5)).
Proof.
  intros Hvalid Hres.
  assert (forall enable,
             let supported :=
               fun p => is_some (plugin_set_low_power_mode pc p enable) in
             calls (fst (set_lpmode int pf pc str_of_list port_name enable))
             = map (fun p => CallSetLowPowerMode p enable)
                 (attempted supported lanes)
             /\ snd (set_lpmode int pf pc str_of_list port_name enable)
                = (if forallb supported lanes then Done tt else Exit 5))
    as Hboth.
  { intros enable supported.
    unfold set_lpmode. rewrite (check_port_valid _ Hvalid), cbind_done.
    rewrite Hres, call_returns, cbind_done.
    destruct (set_lpmode_loop port_name enable
                (if (1 <? length lanes)%nat then true else false) lanes 1)
      as [Hc He].
    destruct (cfor _ lanes 1%Z) as [evs e] eqn:Hloop.
    cbn [fst snd] in Hc, He. subst e.
    fold supported. cbn [fst snd app].
    destruct (forallb supported lanes); cbn [cbind fst snd cret];
      rewrite ?calls_app, calls_echoes, ?app_nil_r; cbn [app];
      (split; [exact Hc|reflexivity]). }
  split; [apply (Hboth true)|apply (Hboth false)].
Qed.

(** X12.  [show eeprom] for a single port the plugin accepts and whose lane
    list is empty: in the default (multi-line) mode the driver returns
    [None], [output += None] raises [TypeError] and nothing is printed
    besides what the resolver printed; in one-line mode the command prints
    the empty output, in raw mode a lone line break. *)
Theorem eeprom_empty_lane_list (port : string) (dump_dom : bool)
  (out : list string) :
  is_valid_sfputil_port pc port <> 0%Z ->
  logical_port_name_to_physical_port_list int pf port = (out, Returns (Some [])) ->
  let resolver_lines := map (fun line => Echo line true) out in
  eeprom int pf pc str_of_list (Some port) dump_dom false false
  = (resolver_lines, Error UncaughtTypeError)
  /\ eeprom int pf pc str_of_list (Some port) dump_dom true false
     = ((resolver_lines ++ [Echo "" true])%list, Done tt)
  /\ (forall oneline,
         eeprom int pf pc str_of_list (Some port) dump_dom oneline true
         = ((resolver_lines ++ [Echo Py.nl true])%list, Done tt)).
Proof.
  intros Hvalid Hres resolver_lines.
  unfold eeprom, ports_of_interest.
  rewrite (check_port_valid _ Hvalid).
  cbn [cbind cret cfor app].
  rewrite (port_eeprom_data_string_pretty_lanes _ _ _ _ _ Hres).
  rewrite (port_eeprom_data_string_pretty_oneline_lanes _ _ _ _ _ _ _ Hres).
  rewrite (port_eeprom_data_raw_string_pretty_lanes _ _ _ _ Hres).
  split; [|split; [|intros oneline]]; cbn; rewrite ?app_nil_r; reflexivity.
Qed.

(** X13.  [show eeprom] without [-p] on a platform whose port table holds,
    as first name, one that does not start with [Ethernet] and on which
    [int] raises [ValueError]: the conversion of the name to a physical
    index raises, nothing catches the exception, and the command dies
    before it prints anything.  The same holds for [show presence] and
    [show lpmode]. *)
Theorem show_commands_need_the_naming_convention (name : string)
  (rest : list string) (dump_dom oneline raw : bool) :
  logical pf = name :: rest ->
  Py.startswith name "Ethernet" = false ->
  int name = None ->
  eeprom int pf pc str_of_list None dump_dom oneline raw
  = ([], Error UncaughtValueError)
  /\ presence int pf pc str_of_list None = ([], Error UncaughtValueError)
  /\ show_lpmode int pf pc str_of_list None = ([], Error UncaughtValueError).
Proof.
  intros Hlog Hs Hn.
  pose proof (resolver_not_a_literal pf name Hs Hn) as Hres.
  pose proof (proj2 (drivers_error_paths_helper pf name dump_dom) Hs Hn)
    as [Hp [Ho Hr]].
  unfold eeprom, presence, show_lpmode, ports_of_interest.
  rewrite Hlog. cbn [cbind cret cfor app fst snd].
  rewrite Hres, Hp, Ho, Hr.
  destruct raw, oneline; repeat split.
Qed.

(** The lane loop of [presence], when [get_presence] answers on every lane:
    it builds the rows of [presence_lane]. *)
Lemma presence_loop_supported (logical_port_name : string) (ganged : bool)
  (lanes : list Z) (st : list (string * string) * Z) :
  (forall p, In p lanes ->
             plugin_get_presence pc p = Some (get_presence pf p)) ->
  cfor (presence_port_lane pc logical_port_name ganged) lanes st
  = (map CallGetPresence lanes,
     Done (for_each (presence_lane pf logical_port_name ganged) lanes st)).
Proof.
  revert st. induction lanes as [|p lanes IH]; intros [output_table i] Hsup.
  - reflexivity.
  - cbn [cfor for_each].
    unfold presence_port_lane at 1, presence_lane at 1.
    rewrite (Hsup p) by now left.
    cbn [emit cbind cret app fst snd].
    rewrite IH by (intros q Hq; apply Hsup; now right).
    reflexivity.
Qed.

(** X14.  [show presence -p port] for a port the plugin accepts and the
    resolver resolves, when [get_presence] answers on every lane: the command
    asks each lane once, in resolver order, and then prints one table whose
    rows are the lanes in that order, each with its display name and
    [Present] or [Not present], under the header [Port], [Presence]. *)
Theorem presence_prints_one_row_per_lane (port : string)
  (out : list string) (lanes : list Z) :
  is_valid_sfputil_port pc port <> 0%Z ->
  logical_port_name_to_physical_port_list int pf port
  = (out, Returns (Some lanes)) ->
  (forall p, In p lanes ->
             plugin_get_presence pc p = Some (get_presence pf p)) ->
  presence int pf pc str_of_list (Some port)
  = ((map (fun line => Echo line true) out
      ++ map CallGetPresence lanes
      ++ [EchoTable (presence_rows pf port lanes) ("Port", "Presence")])%list,
     Done tt)
  /\ map fst (presence_rows pf port lanes)
     = map (fun i => get_physical_port_name port i (1 <? length lanes)%nat)
         (lane_numbers 1 (length lanes))
  /\ (forall k p,
         nth_error lanes k = Some p ->
         option_map snd (nth_error (presence_rows pf port lanes) k)
         = Some (if get_presence pf p then "Present" else "Not present")).
Proof.
  intros Hvalid Hres Hsup.
  split; [|split].
  - unfold presence, ports_of_interest.
    rewrite (check_port_valid _ Hvalid).
    cbn [cbind cret cfor app fst snd].
    rewrite Hres, call_returns, cbind_done.
    rewrite presence_loop_supported by assumption.
    unfold presence_rows.
    destruct (presence_loop pf port
                (if (1 <? length lanes)%nat then true else false) lanes [] 1%Z)
      as [table [Hloop _]].
    rewrite Hloop. cbn. rewrite !app_nil_r, <- app_assoc. reflexivity.
  - unfold presence_rows.
    destruct (presence_loop pf port
                (if (1 <? length lanes)%nat then true else false) lanes [] 1%Z)
      as [table [-> Hnames]].
    rewrite Hnames. cbn [map app].
    now destruct (1 <? length lanes)%nat.
  - intros k p Hk. unfold presence_rows.
    pose proof (presence_loop_rows pf port
                  (if (1 <? length lanes)%nat then true else false)
                  lanes [] 1%Z k p Hk) as Hrow.
    destruct (for_each _ lanes ([], 1%Z)) as [[table j]|[]];
      [exact Hrow|contradiction].
Qed.


Lemma presence_port_lane_eq (logical_port_name : string) (ganged : bool)
  (output_table : list (string * string)) (i : Z) (p : Z) :
  presence_port_lane pc logical_port_name ganged (output_table, i) p
  = match plugin_get_presence pc p with
    | None => ([CallGetPresence p; Echo not_implemented true], Exit 5)
    | Some presence =>
        ([CallGetPresence p],
         Done (Next
                 ((output_table
                   ++ [(get_physical_port_name logical_port_name i ganged,
                        if presence then "Present" else "Not present")])%list,
                  (i + 1)%Z)))
    end.
Proof.
  unfold presence_port_lane.
  destruct (plugin_get_presence pc p) as [[]|]; reflexivity.
Qed.

Lemma lpmode_port_lane_eq (logical_port_name : string) (ganged : bool)
  (output_table : list (string * string)) (i : Z) (p : Z) :
  lpmode_port_lane pc logical_port_name ganged (output_table, i) p
  = match plugin_get_low_power_mode pc p with
    | None => ([CallGetLowPowerMode p; Echo not_implemented true], Exit 5)
    | Some lpmode =>
        ([CallGetLowPowerMode p],
         Done (Next
                 ((output_table
                   ++ [(get_physical_port_name logical_port_name i ganged,
                        if lpmode then "On" else "Off")])%list,
                  (i + 1)%Z)))
    end.
Proof.
  unfold lpmode_port_lane.
  destruct (plugin_get_low_power_mode pc p) as [[]|]; reflexivity.
Qed.

(** The lane loops of the two [show] commands: which lanes they ask, how
    they end, and that they print no table themselves. *)
Lemma presence_lane_loop (logical_port_name : string) (ganged : bool)
  (lanes : list Z) (st : list (string * string) * Z) :
  let supported := fun p => is_some (plugin_get_presence pc p) in
  let r := cfor (presence_port_lane pc logical_port_name ganged) lanes st in
  calls (fst r) = map CallGetPresence (attempted supported lanes)
  /\ (if forallb supported lanes
      then exists st', snd r = Done (Next st')
      else snd r = Exit 5)
  /\ forallb (fun e => negb (is_table e)) (fst r) = true.
Proof.
  cbv zeta. revert st.
  induction lanes as [|p lanes IH]; intros [output_table i].
  - cbn. repeat split. now eexists.
  - cbn [cfor attempted forallb]. rewrite presence_port_lane_eq.
    destruct (plugin_get_presence pc p) as [presence|] eqn:Hp;
      cbn [is_some andb].
    + rewrite cbind_done.
      match goal with
      | |- context [cfor _ lanes ?st1] =>
          destruct (IH st1) as [IHc [IHe IHt]];
          destruct (cfor (presence_port_lane pc logical_port_name ganged)
                      lanes st1) as [evs e] eqn:Hloop
      end.
      cbn [fst snd] in *.
      split; [cbn; unfold calls in IHc; now rewrite IHc|].
      split; [exact IHe|exact IHt].
    + cbn. repeat split.
Qed.

Lemma lpmode_lane_loop (logical_port_name : string) (ganged : bool)
  (lanes : list Z) (st : list (string * string) * Z) :
  let supported := fun p => is_some (plugin_get_low_power_mode pc p) in
  let r := cfor (lpmode_port_lane pc logical_port_name ganged) lanes st in
  calls (fst r) = map CallGetLowPowerMode (attempted supported lanes)
  /\ (if forallb supported lanes
      then exists st', snd r = Done (Next st')
      else snd r = Exit 5)
  /\ forallb (fun e => negb (is_table e)) (fst r) = true.
Proof.
  cbv zeta. revert st.
  induction lanes as [|p lanes IH]; intros [output_table i].
  - cbn. repeat split. now eexists.
  - cbn [cfor attempted forallb]. rewrite lpmode_port_lane_eq.
    destruct (plugin_get_low_power_mode pc p) as [lpmode|] eqn:Hp;
      cbn [is_some andb].
    + rewrite cbind_done.
      match goal with
      | |- context [cfor _ lanes ?st1] =>
          destruct (IH st1) as [IHc [IHe IHt]];
          destruct (cfor (lpmode_port_lane pc logical_port_name ganged)
                      lanes st1) as [evs e] eqn:Hloop
      end.
      cbn [fst snd] in *.
      split; [cbn; unfold calls in IHc; now rewrite IHc|].
      split; [exact IHe|exact IHt].
    + cbn. repeat split.
Qed.

Lemma no_table_echoes (lines : list string) :
  forallb (fun e => negb (is_table e))
    (map (fun line => Echo line true) lines) = true.
Proof. induction lines as [|l lines IH]; [reflexivity|exact IH]. Qed.

(** X15.  [show presence -p port] and [show lpmode -p port] for a port the
    plugin accepts and the resolver resolves: the guarded plugin method is
    called on the lanes in resolver order, once each, up to and including
    the first lane on which it raises [NotImplementedError].  When every
    lane answers the command returns and the last thing it prints is the
    table; otherwise it leaves with exit code 5 and prints no table, not
    even for the lanes that answered. *)
Theorem show_commands_stop_at_first_unsupported_lane (port : string)
  (out : list string) (lanes : list Z) :
  is_valid_sfputil_port pc port <> 0%Z ->
  logical_port_name_to_physical_port_list int pf port
  = (out, Returns (Some lanes)) ->
  (let supported := fun p => is_some (plugin_get_presence pc p) in
   let r := presence int pf pc str_of_list (Some port) in
   calls (fst r) = map CallGetPresence (attempted supported lanes)
   /\ (if forallb supported lanes
       then snd r = Done tt
            /\ exists evs table, fst r = (evs ++ [EchoTable table
                                                    ("Port", "Presence")])%list
       else snd r = Exit 5
            /\ forallb (fun e => negb (is_table e)) (fst r) = true))
  /\ (let supported := fun p => is_some (plugin_get_low_power_mode pc p) in
      let r := show_lpmode int pf pc str_of_list (Some port) in
      calls (fst r) = map CallGetLowPowerMode (attempted supported lanes)
      /\ (if forallb supported lanes
          then snd r = Done tt
               /\ exists evs table,
                    fst r = (evs ++ [EchoTable table
                                       ("Port", "Low-power Mode")])%list
          else snd r = Exit 5
               /\ forallb (fun e => negb (is_table e)) (fst r) = true)).
Proof.
  intros Hvalid Hres. split.
  - cbv zeta. unfold presence, ports_of_interest.
    rewrite (check_port_valid _ Hvalid).
    cbn [cbind cret cfor app fst snd].
    rewrite Hres, call_returns, cbind_done.
    destruct (presence_lane_loop port
                (if (1 <? length lanes)%nat then true else false) lanes
                ([], 1%Z)) as [Hc [He Ht]].
    destruct (cfor _ lanes ([], 1%Z)) as [evs e] eqn:Hloop.
    cbn [fst snd] in Hc, He, Ht.
    destruct (forallb _ lanes).
    + destruct He as [[table j] ->].
      cbn [cbind cret emit fst snd app].
      rewrite !app_nil_r, calls_app, calls_app, calls_echoes. cbn [calls filter is_call app].
      rewrite app_nil_r.
      split; [exact Hc|]. split; [reflexivity|].
      eexists. exists table. reflexivity.
    + subst e. cbn [cbind fst snd].
      rewrite calls_app, calls_echoes. cbn [app].
      split; [exact Hc|]. split; [reflexivity|].
      rewrite forallb_app, no_table_echoes, Ht. reflexivity.
  - cbv zeta. unfold show_lpmode, ports_of_interest.
    rewrite (check_port_valid _ Hvalid).
    cbn [cbind cret cfor app fst snd].
    rewrite Hres, call_returns, cbind_done.
    destruct (lpmode_lane_loop port
                (if (1 <? length lanes)%nat then true else false) lanes
                ([], 1%Z)) as [Hc [He Ht]].
    destruct (cfor _ lanes ([], 1%Z)) as [evs e] eqn:Hloop.
    cbn [fst snd] in Hc, He, Ht.
    destruct (forallb _ lanes).
    + destruct He as [[table j] ->].
      cbn [cbind cret emit fst snd app].
      rewrite !app_nil_r, calls_app, calls_app, calls_echoes. cbn [calls filter is_call app].
      rewrite app_nil_r.
      split; [exact Hc|]. split; [reflexivity|].
      eexists. exists table. reflexivity.
    + subst e. cbn [cbind fst snd].
      rewrite calls_app, calls_echoes. cbn [app].
      split; [exact Hc|]. split; [reflexivity|].
      rewrite forallb_app, no_table_echoes, Ht. reflexivity.
Qed.

(** The lane loop of [show lpmode], when [get_low_power_mode] answers on
    every lane. *)
Lemma lpmode_loop_supported (logical_port_name : string) (ganged : bool)
  (mode : Z -> bool) (lanes : list Z) (output_table : list (string * string))
  (i : Z) :
  (forall p, In p lanes -> plugin_get_low_power_mode pc p = Some (mode p)) ->
  cfor (lpmode_port_lane pc logical_port_name ganged) lanes (output_table, i)
  = (map CallGetLowPowerMode lanes,
     Done (Next ((output_table
                  ++ status_rows logical_port_name ganged
                       (fun p => if mode p then "On" else "Off") i lanes)%list,
                 (i + Z.of_nat (length lanes))%Z))).
Proof.
  revert output_table i.
  induction lanes as [|p lanes IH]; intros output_table i Hsup.
  - cbn. now rewrite app_nil_r, Z.add_0_r.
  - cbn [cfor]. rewrite lpmode_port_lane_eq.
    rewrite (Hsup p) by now left.
    rewrite cbind_done.
    rewrite IH by (intros q Hq; apply Hsup; now right).
    cbn [map status_rows length fst snd app].
    rewrite <- app_assoc. cbn [app].
    do 4 f_equal. lia.
Qed.

(** X16.  [show lpmode -p port] for a port the plugin accepts and the
    resolver resolves, when [get_low_power_mode] answers on every lane: the
    command asks each lane once, in resolver order, and then prints one
    table under the header [Port], [Low-power Mode] with one row per lane,
    in that order: the display name of the lane (numbered from 1) and [On]
    or [Off]. *)
Theorem show_lpmode_prints_one_row_per_lane (port : string)
  (out : list string) (lanes : list Z) (mode : Z -> bool) :
  is_valid_sfputil_port pc port <> 0%Z ->
  logical_port_name_to_physical_port_list int pf port
  = (out, Returns (Some lanes)) ->
  (forall p, In p lanes -> plugin_get_low_power_mode pc p = Some (mode p)) ->
  show_lpmode int pf pc str_of_list (Some port)
  = ((map (fun line => Echo line true) out
      ++ map CallGetLowPowerMode lanes
      ++ [EchoTable
            (status_rows port (1 <? length lanes)%nat
               (fun p => if mode p then "On" else "Off") 1 lanes)
            ("Port", "Low-power Mode")])%list,
     Done tt).
Proof.
  intros Hvalid Hres Hsup.
  unfold show_lpmode, ports_of_interest.
  rewrite (check_port_valid _ Hvalid).
  cbn [cbind cret cfor app fst snd].
  rewrite Hres, call_returns, cbind_done.
  rewrite (lpmode_loop_supported _ _ mode) by assumption.
  cbn. rewrite !app_nil_r, <- app_assoc.
  destruct (length lanes) as [|[|n]]; reflexivity.
Qed.

End CommandFacts.

Lemma commands_reject_invalid_port_witness :
  reset ex_int ex_platform ex_calls ex_str_of_list "BadPort99"
  = (invalid_port_messages ex_platform ex_str_of_list "BadPort99", Exit 4).
Proof.
  apply (commands_reject_invalid_port ex_int ex_platform ex_calls ex_str_of_list
           "BadPort99" false false false false).
  reflexivity.
Defined.

Lemma reset_stops_at_first_unsupported_lane_witness :
  calls (fst (reset ex_int ex_platform ex_calls ex_str_of_list "Ethernet0"))
  = [CallReset 5; CallReset 6]
  /\ snd (reset ex_int ex_platform ex_calls ex_str_of_list "Ethernet0") = Exit 5.
Proof.
  apply (reset_stops_at_first_unsupported_lane ex_int ex_platform ex_calls
           ex_str_of_list "Ethernet0" [] [5; 6]%Z).
  - discriminate.
  - reflexivity.
Defined.

Lemma lpmode_stops_at_first_unsupported_lane_witness :
  calls (fst (lpmode_on ex_int ex_platform ex_calls ex_str_of_list "Ethernet4"))
  = [CallSetLowPowerMode 7 true]
  /\ snd (lpmode_on ex_int ex_platform ex_calls ex_str_of_list "Ethernet4") = Done tt.
Proof.
  apply (lpmode_stops_at_first_unsupported_lane ex_int ex_platform ex_calls
           ex_str_of_list "Ethernet4" [] [7]%Z).
  - discriminate.
  - reflexivity.
Defined.

Lemma eeprom_empty_lane_list_witness :
  eeprom ex_int ex_platform ex_calls ex_str_of_list (Some "Ethernet8") true false false
  = ([], Error UncaughtTypeError).
Proof.
  apply (eeprom_empty_lane_list ex_int ex_platform ex_calls ex_str_of_list
           "Ethernet8" true []).
  - discriminate.
  - reflexivity.
Defined.

Lemma show_commands_need_the_naming_convention_witness :
  presence ex_int ex_platform_swp ex_calls ex_str_of_list None
  = ([], Error UncaughtValueError).
Proof.
  apply (show_commands_need_the_naming_convention ex_int ex_platform_swp ex_calls
           ex_str_of_list "swp1" ["swp2"] false false false);
    reflexivity.
Defined.

Lemma presence_prints_one_row_per_lane_witness :
  presence ex_int ex_platform ex_calls ex_str_of_list (Some "Ethernet0")
  = ([CallGetPresence 5; CallGetPresence 6;
      EchoTable (presence_rows ex_platform "Ethernet0" [5; 6]%Z)
        ("Port", "Presence")],
     Done tt).
Proof.
  apply (presence_prints_one_row_per_lane ex_int ex_platform ex_calls ex_str_of_list
           "Ethernet0" [] [5; 6]%Z).
  - discriminate.
  - reflexivity.
  - reflexivity.
Defined.

Lemma show_commands_stop_at_first_unsupported_lane_witness :
  calls (fst (presence ex_int ex_platform ex_no_calls ex_str_of_list
                (Some "Ethernet0")))
  = [CallGetPresence 5]
  /\ snd (presence ex_int ex_platform ex_no_calls ex_str_of_list (Some "Ethernet0"))
     = Exit 5
  /\ forallb (fun e => negb (is_table e))
       (fst (presence ex_int ex_platform ex_no_calls ex_str_of_list
               (Some "Ethernet0"))) = true.
Proof.
  pose proof (proj1 (show_commands_stop_at_first_unsupported_lane ex_int
                       ex_platform ex_no_calls ex_str_of_list "Ethernet0" []
                       [5; 6]%Z ltac:(discriminate) eq_refl)) as [Hc He].
  split; [exact Hc|exact He].
Defined.

Lemma show_lpmode_prints_one_row_per_lane_witness :
  show_lpmode ex_int ex_platform ex_calls ex_str_of_list (Some "Ethernet0")
  = ([CallGetLowPowerMode 5; CallGetLowPowerMode 6;
      EchoTable [("Ethernet0:1 (ganged)", "On"); ("Ethernet0:2 (ganged)", "Off")]
        ("Port", "Low-power Mode")],
     Done tt).
Proof.
  apply (show_lpmode_prints_one_row_per_lane ex_int ex_platform ex_calls
           ex_str_of_list "Ethernet0" [] [5; 6]%Z (fun p => Z.eqb p 5)).
  - discriminate.
  - reflexivity.
  - reflexivity.
Defined.

(* ================================================================== *)
(** * Lines of the multi-line rendering *)
(* ================================================================== *)

Lemma count_nl_no_newline (s : string) :
  no_newline s = true -> count_char Py.nl_char s = 0%nat.
Proof.
  unfold no_newline.
  induction s as [|c s IH]; cbn [all_chars count_char]; [reflexivity|].
  intros H. apply andb_true_iff in H as [Hc Hs].
  apply negb_true_iff in Hc. rewrite Hc. now apply IH.
Qed.

Lemma count_nl_tabs (n : nat) :
  count_char Py.nl_char (Py.repeat_str Py.tab n) = 0%nat.
Proof. induction n as [|n IH]; [reflexivity|exact IH]. Qed.

Lemma getitem_size_eq (d : dict) (key : string) (val : field) :
  NoDup (keys d) -> getitem d key = Some val ->
  dict_size d = S (field_size val + dict_size (without d key)).
Proof.
  unfold without.
  induction d as [|[k v] d IH]; cbn [getitem keys map fst]; [discriminate|].
  intros Hnd. inversion Hnd as [|? ? Hnotin Hnd']; subst.
  cbn [filter fst]. rewrite dict_size_cons.
  destruct (String.eqb_spec k key) as [->|Hk]; cbn [negb].
  - intros [= ->]. do 2 f_equal.
    rewrite forallb_filter_id; [reflexivity|].
    apply forallb_forall. intros [k' v'] Hin. cbn [fst].
    apply negb_true_iff, String.eqb_neq. intros ->.
    apply Hnotin. apply in_map_iff. now exists (key, v').
  - intros H. rewrite dict_size_cons, (IH Hnd' H). lia.
Qed.

Lemma clean_dict_without (d : dict) (key : string) :
  clean_dict d -> clean_dict (without d key).
Proof.
  intros H. inversion H as [? Hnd Hkeys Hvals]; subst.
  constructor.
  - now apply keys_without_nodup.
  - apply Forall_forall. intros kv Hin.
    apply filter_In in Hin as [Hin _].
    rewrite Forall_forall in Hkeys. now apply Hkeys.
  - apply Forall_forall. intros kv Hin.
    apply filter_In in Hin as [Hin _].
    rewrite Forall_forall in Hvals. now apply Hvals.
Qed.

Lemma clean_dict_getitem (d : dict) (key : string) (val : field) :
  clean_dict d -> getitem d key = Some val ->
  no_newline key = true /\ clean_field val.
Proof.
  intros H Hget. inversion H as [? Hnd Hkeys Hvals]; subst.
  apply getitem_some_in in Hget.
  rewrite Forall_forall in Hkeys, Hvals.
  split; [apply (Hkeys _ Hget)|apply (Hvals _ Hget)].
Qed.

Lemma dict_to_string_pretty_lines (n : nat) (in_dict : dict) (indent : nat) :
  (dict_size in_dict < n)%nat -> clean_dict in_dict ->
  count_char Py.nl_char (dict_to_string_pretty in_dict indent)
  = dict_size in_dict.
Proof.
  revert in_dict indent.
  induction n as [|n IH]; intros d indent Hsize Hclean; [lia|].
  rewrite dict_to_string_pretty_eq.
  destruct d as [|kv d0]; [reflexivity|].
  set (d := kv :: d0) in *. cbv zeta.
  destruct (getitem_least_key d) as [val Hget]; [discriminate|].
  set (k := hd "" (Py.sorted (keys d))) in *.
  rewrite Hget.
  assert (NoDup (keys d)) as Hnd by now inversion Hclean.
  pose proof (getitem_size_eq _ _ _ Hnd Hget) as Hs.
  destruct (clean_dict_getitem _ _ _ Hclean Hget) as [Hk Hval].
  rewrite count_char_app.
  rewrite (IH (without d k)) by (try apply clean_dict_without; try assumption; lia).
  rewrite Hs.
  destruct val as [v|items].
  - inversion Hval; subst.
    rewrite !count_char_app, count_nl_tabs.
    rewrite (count_nl_no_newline k), (count_nl_no_newline (str v))
      by assumption.
    reflexivity.
  - inversion Hval; subst.
    change (field_size (Dict items)) with (dict_size items) in *.
    rewrite !count_char_app, count_nl_tabs.
    rewrite (IH items) by (try assumption; lia).
    rewrite (count_nl_no_newline k) by assumption.
    cbn. lia.
Qed.

(** X17.  For a record with distinct keys and no line break in a key or in
    a scalar, at any level, the multi-line rendering has exactly one line
    per key, nested keys included. *)
Theorem dict_to_string_pretty_one_line_per_key (in_dict : dict) (indent : nat) :
  clean_dict in_dict ->
  count_char Py.nl_char (dict_to_string_pretty in_dict indent)
  = dict_size in_dict.
Proof.
  apply (dict_to_string_pretty_lines (S (dict_size in_dict))). lia.
Qed.

Lemma ex_c2_clean : clean_dict ex_c2.
Proof.
  constructor; [apply ex_c2_keys_nodup| |].
  - repeat constructor.
  - repeat constructor.
    + simpl; intuition discriminate.
    + simpl; intuition discriminate.
Qed.

Lemma dict_to_string_pretty_one_line_per_key_witness :
  count_char Py.nl_char (dict_to_string_pretty ex_c2 1) = 4%nat.
Proof.
  apply (dict_to_string_pretty_one_line_per_key ex_c2 1 ex_c2_clean).
Defined.

(* ================================================================== *)
(** * [show eeprom] on the whole port table *)
(* ================================================================== *)

Lemma resolver_known_port {int : string -> option Z}
  (pf : SfpUtil) (name : string) :
  Py.startswith name "Ethernet" = true ->
  is_logical_port pf name = true ->
  logical_port_name_to_physical_port_list int pf name
  = ([], Returns (Some (get_logical_to_physical pf name))).
Proof.
  intros Hs Hl. unfold logical_port_name_to_physical_port_list.
  now rewrite Hs, Hl.
Qed.

Section EepromAllPorts.

Variable int : string -> option Z.
Variable pf : SfpUtil.
Variable pc : SfpUtilCalls.
Variable str_of_list : list string -> string.

Lemma eeprom_raw_loop (names : list string) (output : string) :
  consistent pf names ->
  cfor (R := unit)
    (fun output logical_port_name =>
       v <~ call (port_eeprom_data_raw_string_pretty int pf logical_port_name) ;;
       output <~ iadd output v ;;
       let output := output ++ Py.nl in
       cret (Next output))
    names output
  = ([], Done (Next (output
                     ++ concat_all
                          (map (fun name => raw_port_text pf name ++ Py.nl)
                             names)))).
Proof.
  revert output. induction names as [|name names IH]; intros output Hc.
  - cbn. now rewrite append_nil_r.
  - destruct (Hc name (or_introl eq_refl)) as [Hs Hl].
    cbn [cfor].
    rewrite (port_eeprom_data_raw_string_pretty_lanes _ _ _ _
               (resolver_known_port (int:=int) pf name Hs Hl)).
    cbn [call fst snd map iadd cbind cret app].
    rewrite IH by (intros n Hn; apply Hc; now right).
    cbn [map concat_all]. unfold raw_port_text at 2.
    now rewrite !append_assoc.
Qed.

Lemma eeprom_oneline_loop (bl1 bl2 : list string) (dump_dom : bool)
  (names : list string) (output : string) :
  consistent pf names ->
  cfor (R := unit)
    (fun output logical_port_name =>
       v <~ call (port_eeprom_data_string_pretty_oneline int pf logical_port_name
                    bl1 bl2 dump_dom) ;;
       output <~ iadd output v ;;
       cret (Next output))
    names output
  = ([], Done (Next (output
                     ++ concat_all
                          (map (oneline_port_text pf bl1 bl2 dump_dom)
                             names)))).
Proof.
  revert output. induction names as [|name names IH]; intros output Hc.
  - cbn. now rewrite append_nil_r.
  - destruct (Hc name (or_introl eq_refl)) as [Hs Hl].
    cbn [cfor].
    rewrite (port_eeprom_data_string_pretty_oneline_lanes _ _ bl1 bl2 dump_dom
               _ _ (resolver_known_port (int:=int) pf name Hs Hl)).
    cbn [call fst snd map iadd cbind cret app].
    rewrite IH by (intros n Hn; apply Hc; now right).
    cbn [map concat_all]. unfold oneline_port_text at 2.
    now rewrite !append_assoc.
Qed.

Lemma eeprom_pretty_loop (dump_dom : bool) (names : list string)
  (output : string) :
  consistent pf names ->
  (forall name, In name names -> get_logical_to_physical pf name <> []) ->
  cfor (R := unit)
    (fun output logical_port_name =>
       v <~ call (port_eeprom_data_string_pretty int pf logical_port_name
                    dump_dom) ;;
       output <~ iadd output v ;;
       cret (Next output))
    names output
  = ([], Done (Next (output
                     ++ concat_all
                          (map (pretty_port_text pf dump_dom) names)))).
Proof.
  revert output. induction names as [|name names IH]; intros output Hc Hne.
  - cbn. now rewrite append_nil_r.
  - destruct (Hc name (or_introl eq_refl)) as [Hs Hl].
    cbn [cfor].
    rewrite (port_eeprom_data_string_pretty_lanes _ _ dump_dom _ _
               (resolver_known_port (int:=int) pf name Hs Hl)).
    pose proof (Hne name (or_introl eq_refl)) as Hlanes.
    cbn [map concat_all]. unfold pretty_port_text at 1.
    destruct (get_logical_to_physical pf name) as [|p lanes] eqn:El;
      [contradiction|].
    cbn [call fst snd map iadd cbind cret app hd].
    rewrite IH; [|intros n Hn; apply Hc; now right
                 |intros n Hn; apply Hne; now right].
    now rewrite !append_assoc.
Qed.

(** X18.  [show eeprom] without [-p], on a platform whose port table
    follows the naming convention and knows its own names.  With [--raw]
    (whether or not [-o] is given as well) the command prints, port after
    port, the raw blocks of all lanes of the port followed by a line break;
    with [-o] alone, port after port, the lines of all its lanes; in the
    default mode, provided no port has an empty lane list, port after port
    the block of the first lane of the port only.  The output is printed
    once, at the end, and the command returns. *)
Theorem eeprom_all_ports (dump_dom : bool) :
  consistent pf (logical pf) ->
  (forall oneline,
      eeprom int pf pc str_of_list None dump_dom oneline true
      = ([Echo (concat_all
                  (map (fun name => raw_port_text pf name ++ Py.nl)
                     (logical pf))) true],
         Done tt))
  /\ eeprom int pf pc str_of_list None dump_dom true false
     = ([Echo (concat_all
                 (map (oneline_port_text pf ifdata_out_blacklist
                         domdata_out_blacklist dump_dom)
                    (logical pf))) true],
        Done tt)
  /\ ((forall name, In name (logical pf) ->
                    get_logical_to_physical pf name <> []) ->
      eeprom int pf pc str_of_list None dump_dom false false
      = ([Echo (concat_all (map (pretty_port_text pf dump_dom) (logical pf)))
            true],
         Done tt)).
Proof.
  intros Hc. unfold eeprom, ports_of_interest.
  split; [|split].
  - intros oneline.
    pose proof (eeprom_raw_loop _ "" Hc) as E.
    cbn [cbind cret app] in E |- *. rewrite E. reflexivity.
  - pose proof (eeprom_oneline_loop ifdata_out_blacklist
                  domdata_out_blacklist dump_dom _ "" Hc) as E.
    cbn [cbind cret app] in E |- *.
    unfold ifdata_out_blacklist in E at 1.
    unfold domdata_out_blacklist in E at 1.
    rewrite E. reflexivity.
  - intros Hne.
    pose proof (eeprom_pretty_loop dump_dom _ "" Hc Hne) as E.
    cbn [cbind cret app] in E |- *. rewrite E. reflexivity.
Qed.

End EepromAllPorts.

Lemma ex_platform_consistent : consistent ex_platform (logical ex_platform).
Proof.
  intros name [<-|[<-|[<-|[]]]]; split; reflexivity.
Qed.

Lemma eeprom_all_ports_witness :
  eeprom ex_int ex_platform ex_calls ex_str_of_list None false true false
  = ([Echo (concat_all
              (map (oneline_port_text ex_platform ifdata_out_blacklist
                      domdata_out_blacklist false)
                 ["Ethernet0"; "Ethernet4"; "Ethernet8"])) true],
     Done tt).
Proof.
  apply (eeprom_all_ports ex_int ex_platform ex_calls ex_str_of_list false
           ex_platform_consistent).
Defined.

(* ================================================================== *)
(** * Lines of the one-line rendering *)
(* ================================================================== *)

Lemma lines_from_body (b cur rest : string) :
  count_char Py.nl_char b = 0%nat ->
  lines_from cur (b ++ Py.nl ++ rest) = (cur ++ b) :: lines_from "" rest.
Proof.
  revert cur. induction b as [|c b IH]; intros cur Hb.
  - cbn. now rewrite append_nil_r.
  - cbn [count_char] in Hb. cbn [String.append lines_from].
    destruct (Ascii.eqb c Py.nl_char); [discriminate|].
    rewrite IH by exact Hb. now rewrite append_assoc.
Qed.

Lemma lines_unlines (bodies : list string) :
  Forall (fun b => count_char Py.nl_char b = 0%nat) bodies ->
  lines (unlines bodies) = bodies.
Proof.
  unfold lines.
  induction 1 as [|b bodies Hb _ IH]; [reflexivity|].
  cbn [unlines]. rewrite lines_from_body by exact Hb.
  now rewrite IH.
Qed.

Lemma count_nl_uint (d : Decimal.uint) :
  count_char Py.nl_char (NilEmpty.string_of_uint d) = 0%nat.
Proof. induction d; simpl; auto. Qed.

Lemma count_nl_str_int (n : Z) : count_char Py.nl_char (Py.str_int n) = 0%nat.
Proof.
  unfold Py.str_int, NilZero.string_of_int, NilZero.string_of_uint.
  destruct (Z.to_int n) as [d|d]; destruct d;
    cbn [count_char Ascii.eqb Py.nl_char Bool.eqb Nat.add];
    try reflexivity; apply (count_nl_uint (_ d)).
Qed.

Lemma count_nl_display_name (logical_port : string) (i : Z) (ganged : bool) :
  count_char Py.nl_char logical_port = 0%nat ->
  count_char Py.nl_char (get_physical_port_name logical_port i ganged) = 0%nat.
Proof.
  intros H. unfold get_physical_port_name. cbn [Py.eq].
  destruct ganged; [|exact H].
  rewrite !count_char_app, H, count_nl_str_int. reflexivity.
Qed.

Lemma dict_to_string_comma_separated_count_nl (n : nat) (in_dict : dict)
  (key_blacklist : list string) (elemprefix : string) (first : bool) :
  (dict_size in_dict < n)%nat -> clean_dict in_dict ->
  count_char Py.nl_char elemprefix = 0%nat ->
  count_char Py.nl_char
    (dict_to_string_comma_separated in_dict key_blacklist elemprefix first)
  = 0%nat.
Proof.
  revert in_dict elemprefix first.
  induction n as [|n IH]; intros d elemprefix first Hsize Hclean Hp; [lia|].
  rewrite dict_to_string_comma_separated_eq.
  destruct d as [|kv d0]; [reflexivity|].
  set (d := kv :: d0) in *. cbv zeta.
  destruct (getitem_least_key d) as [val Hget]; [discriminate|].
  set (k := hd "" (Py.sorted (keys d))) in *.
  rewrite Hget.
  destruct (Py.contains key_blacklist k); [reflexivity|].
  assert (NoDup (keys d)) as Hnd by now inversion Hclean.
  pose proof (getitem_size_eq _ _ _ Hnd Hget) as Hs.
  destruct (clean_dict_getitem _ _ _ Hclean Hget) as [Hk Hval].
  apply count_nl_no_newline in Hk.
  rewrite count_char_app.
  rewrite (IH (without d k))
    by (try apply clean_dict_without; try assumption; lia).
  rewrite Nat.add_0_r.
  assert (count_char Py.nl_char (if negb first then "" ++ "," else "")
          = 0%nat) as Hc by now destruct first.
  destruct val as [v|items]; rewrite count_char_app, Hc.
  - inversion Hval as [? Hv|]; subst.
    apply count_nl_no_newline in Hv.
    rewrite !count_char_app, Hp, Hk, Hv. reflexivity.
  - inversion Hval; subst.
    change (field_size (Dict items)) with (dict_size items) in *.
    rewrite (IH items); try assumption; try lia.
    rewrite count_char_app, Hk. reflexivity.
Qed.

Lemma oneline_body_count_nl (pf : SfpUtil) (logical_port_name : string)
  (bl1 bl2 : list string) (dump_dom ganged : bool) (i p : Z) :
  count_char Py.nl_char logical_port_name = 0%nat ->
  (forall e, detected_eeprom pf p = Some e -> clean_record e) ->
  count_char Py.nl_char
    (oneline_body pf logical_port_name bl1 bl2 dump_dom ganged i p)
  = 0%nat.
Proof.
  intros Hname Hclean. unfold oneline_body.
  destruct (detected_eeprom pf p) as [e|]; [|reflexivity].
  destruct (Hclean e eq_refl) as [Hi Hd].
  rewrite !count_char_app.
  rewrite (count_nl_display_name _ _ _ Hname).
  rewrite (dict_to_string_comma_separated_count_nl
             (S (dict_size (interface_data e)))) by (auto; lia).
  destruct dump_dom; [|reflexivity].
  destruct (dom e) as [[dom_data|]|]; try reflexivity.
  rewrite (dict_to_string_comma_separated_count_nl (S (dict_size dom_data)))
    by (auto; lia).
  reflexivity.
Qed.

Lemma oneline_bodies_count_nl (pf : SfpUtil) (logical_port_name : string)
  (bl1 bl2 : list string) (dump_dom ganged : bool) (i : Z) (lanes : list Z) :
  count_char Py.nl_char logical_port_name = 0%nat ->
  (forall p e, In p lanes -> detected_eeprom pf p = Some e -> clean_record e) ->
  Forall (fun b => count_char Py.nl_char b = 0%nat)
    (oneline_bodies pf logical_port_name bl1 bl2 dump_dom ganged i lanes).
Proof.
  intros Hname. revert i.
  induction lanes as [|p lanes IH]; intros i Hclean; cbn [oneline_bodies].
  - constructor.
  - constructor.
    + apply oneline_body_count_nl; [exact Hname|].
      intros e. apply Hclean. now left.
    + apply IH. intros q e Hq. apply Hclean. now right.
Qed.

Lemma oneline_bodies_nonempty (pf : SfpUtil) (logical_port_name : string)
  (bl1 bl2 : list string) (dump_dom ganged : bool) (i : Z) (lanes : list Z) :
  filter nonempty
    (oneline_bodies pf logical_port_name bl1 bl2 dump_dom ganged i lanes)
  = detected_lines pf logical_port_name bl1 bl2 dump_dom ganged i lanes.
Proof.
  revert i. induction lanes as [|p lanes IH]; intros i; [reflexivity|].
  cbn [oneline_bodies detected_lines filter]. rewrite IH.
  unfold oneline_body at 1.
  destruct (detected_eeprom pf p) as [e|]; reflexivity.
Qed.

Lemma detected_lines_length (pf : SfpUtil) (logical_port_name : string)
  (bl1 bl2 : list string) (dump_dom ganged : bool) (i : Z) (lanes : list Z) :
  length (detected_lines pf logical_port_name bl1 bl2 dump_dom ganged i lanes)
  = length (filter (fun p => is_some (detected_eeprom pf p)) lanes).
Proof.
  revert i. induction lanes as [|p lanes IH]; intros i; [reflexivity|].
  cbn [detected_lines filter].
  destruct (is_some (detected_eeprom pf p)); cbn [length]; now rewrite IH.
Qed.

(** C4, as the specification states it, fails: for a ganged port with a
    module in each of its two lanes, the output is not one line for the
    logical port but one line for each lane. *)
Lemma oneline_not_one_line_per_port :
  exists s,
    port_eeprom_data_string_pretty_oneline ex_int ex_platform_ganged
      "Ethernet0" [] [] false
    = ([], Returns (Some s))
    /\ lines s
       = ["port:Ethernet0:1 (ganged),Temp.High:70,Temp.Low:-5,VendorName:ACME";
          "port:Ethernet0:2 (ganged),Temp.High:70,Temp.Low:-5,VendorName:ACME"]
    /\ is_single_line s = false.
Proof. eexists. repeat split. Qed.

(** C4, amended.  In pretty one-line mode, for a logical port whose name
    and whose EEPROM records hold no line break, every line of the output is
    closed by a line break, and the lines of the output that are not empty
    are exactly one line per lane with a detected EEPROM, in lane order,
    each made of [port:], the display name of the lane, a comma and the
    data of the lane; a lane without a detected EEPROM contributes no status
    line and no data. *)
Theorem oneline_one_line_per_detected_lane (int : string -> option Z)
  (pf : SfpUtil) (logical_port_name : string)
  (ifdata_blacklist domdata_blacklist : list string) (dump_dom : bool)
  (out : list string) (lanes : list Z) :
  logical_port_name_to_physical_port_list int pf logical_port_name
  = (out, Returns (Some lanes)) ->
  no_newline logical_port_name = true ->
  (forall p e, In p lanes -> detected_eeprom pf p = Some e -> clean_record e) ->
  let detected :=
    detected_lines pf logical_port_name ifdata_blacklist domdata_blacklist
      dump_dom (1 <? length lanes)%nat 1 lanes in
  exists text,
    port_eeprom_data_string_pretty_oneline int pf logical_port_name
      ifdata_blacklist domdata_blacklist dump_dom
    = (out, Returns (Some text))
    /\ text = unlines (lines text)
    /\ filter nonempty (lines text) = detected
    /\ length detected
       = length (filter (fun p => is_some (detected_eeprom pf p)) lanes).
Proof.
  intros Hres Hname Hclean detected. subst detected.
  apply count_nl_no_newline in Hname.
  eexists. split; [|split; [|split]].
  - apply (port_eeprom_data_string_pretty_oneline_lanes _ _ _ _ _ _ _ Hres).
  - now rewrite lines_unlines by (apply oneline_bodies_count_nl; assumption).
  - rewrite lines_unlines by (apply oneline_bodies_count_nl; assumption).
    apply oneline_bodies_nonempty.
  - apply detected_lines_length.
Qed.

Lemma ex_platform_clean (p : Z) (e : eeprom_record) :
  detected_eeprom ex_platform p = Some e -> clean_record e.
Proof.
  unfold detected_eeprom. cbn [get_presence get_eeprom_dict ex_platform].
  destruct (_ || _); [|discriminate].
  intros [= <-]. split; [exact ex_c2_clean|exact I].
Qed.

Lemma oneline_one_line_per_detected_lane_witness :
  exists text,
    port_eeprom_data_string_pretty_oneline ex_int ex_platform "Ethernet0"
      [] [] false
    = ([], Returns (Some text))
    /\ filter nonempty (lines text)
       = ["port:Ethernet0:1 (ganged),Temp.High:70,Temp.Low:-5,VendorName:ACME"].
Proof.
  destruct (oneline_one_line_per_detected_lane ex_int ex_platform "Ethernet0"
              [] [] false [] [5; 6]%Z eq_refl eq_refl
              (fun p e _ => ex_platform_clean p e))
    as [text [Hrun [_ [Hlines _]]]].
  exists text. split; [exact Hrun|exact Hlines].
Defined.
